(** * NightWatch112: the game clock, the light and the ray caster of main.py

    Python integers are modelled as [Z] ([//] is [Z.div], both floor), Python
    floats as the real numbers [R] of the Standard Library, so that
    [math.cos], [math.sin] and [math.atan2] are the real functions; the
    attributes of the [app] object form one record that every handler
    takes and returns; an exception is a value of [result]. *)

From Stdlib Require Import ZArith List Bool String DecimalString Lia.
From Stdlib Require Import Reals Lra Psatz Zfloor.
Import ListNotations.

(** ** Exceptions *)

Inductive exn : Type :=
| TypeError
| ZeroDivisionError
| UnboundLocalError
| IndexError.

Inductive result (A : Type) : Type :=
| Ok (a : A)
| Raise (e : exn).

Arguments Ok {A} a.
Arguments Raise {A} e.

Definition bind {A B : Type} (m : result A) (k : A -> result B) : result B :=
  match m with
  | Ok a => k a
  | Raise e => Raise e
  end.

Declare Scope py_scope.
Delimit Scope py_scope with py.
Notation "x <- m ;; k" := (bind m (fun x => k))
  (at level 61, m at next level, right associativity) : py_scope.
Notation "' p <- m ;; k" := (bind m (fun p => k))
  (at level 61, p pattern, m at next level, right associativity) : py_scope.

(** ** class Time *)

Module Time.
Local Open Scope Z_scope.

Record t : Type := mk { min : Z; speed : Z; sec : Z }.

(** [Time.__init__]: both arguments are checked to be [int], which the
    types say here. *)
Definition init (start speed : Z) : t := mk start speed 0.

(** [a // b] raises on a zero divisor. *)
Definition floordiv (a b : Z) : result Z :=
  if b =? 0 then Raise ZeroDivisionError else Ok (a / b).

(** [Time.count]: the new clock and the returned flag. *)
Definition count (c : t) : result (t * bool) :=
  (q <- floordiv 100 (speed c) ;;
   let sec1 := sec c - q in
   if negb (sec1 / 100 =? 0) && negb (min c =? 0)
   then Ok (mk (min c - 1) (speed c) (q * (speed c - 1)), true)
   else Ok (mk (min c) (speed c) sec1, false))%py.

(** [Time.isUp] *)
Definition isUp (c : t) : bool := (min c =? 0) && (sec c =? 0).

(** [count] called [n] times in a row, with the flags it returned, first
    call first. *)
Fixpoint countN (n : nat) (c : t) : result (t * list bool) :=
  match n with
  | O => Ok (c, [])
  | S n' =>
      ('(c1, b) <- count c ;;
       '(c2, bs) <- countN n' c1 ;;
       Ok (c2, b :: bs))%py
  end.

(** The value [sec] is reset to at a minute boundary. *)
Definition resetSec (speed : Z) : Z := 100 / speed * (speed - 1).

(** A clock just after a minute boundary. *)
Definition afterBoundary (minutes speed : Z) : t :=
  mk minutes speed (resetSec speed).

(** What the specification says of one minute of ticks: [speed] calls from a
    minute boundary return [True] exactly once and end at the reset value. *)
Definition minuteCycle (speed minutes : Z) : Prop :=
  exists c' flags,
    countN (Z.to_nat speed) (afterBoundary minutes speed) = Ok (c', flags) /\
    count_occ bool_dec flags true = 1%nat /\
    sec c' = resetSec speed.

(** What is said of the first tick of a fresh clock. *)
Definition firstTickFires (start speed : Z) : Prop :=
  count (init start speed) = Ok (mk (start - 1) speed (resetSec speed), true).

(** [str(z)] for an integer. *)
Definition str (z : Z) : string := NilZero.string_of_int (Z.to_int z).

(** [Time.__repr__] *)
Definition repr (c : t) : string :=
  let min := str (min c) in
  let sec := if 9 <? sec c then str (sec c) else ("0" ++ str (sec c))%string in
  (min ++ "." ++ sec)%string.

(** The character of a decimal digit. *)
Definition digit (d : Z) : Ascii.ascii := Ascii.ascii_of_nat (48 + Z.to_nat d).

End Time.

(** ** Floats *)

Section Floats.
Local Open Scope R_scope.

(** Comparisons of floats, as booleans. *)
Definition ltR (a b : R) : bool := if Rlt_dec a b then true else false.
Definition leR (a b : R) : bool := if Rle_dec a b then true else false.
Definition eqR (a b : R) : bool := if Req_dec_T a b then true else false.

(** [int(r)] truncates toward zero. *)
Definition int (r : R) : Z := if Rlt_dec r 0 then Zceil r else Zfloor r.

(** [a / b] on floats raises on a zero divisor. *)
Definition truediv (a b : R) : result R :=
  if eqR b 0 then Raise ZeroDivisionError else Ok (a / b).

(** [math.radians] and [math.degrees] *)
Definition radians (d : R) : R := d * PI / 180.
Definition degrees (r : R) : R := r * 180 / PI.

(** [math.atan2(y, x)]: the angle of the point [(x, y)], in [(-PI, PI]];
    there is no signed zero among the reals. *)
Definition atan2 (y x : R) : R :=
  if Rlt_dec 0 x then atan (y / x)
  else if Rlt_dec x 0 then
    if Rle_dec 0 y then atan (y / x) + PI else atan (y / x) - PI
  else if Rlt_dec 0 y then PI / 2
  else if Rlt_dec y 0 then - (PI / 2)
  else 0.

End Floats.

(** ** class Screen, class Map, class Vec2D *)

Module Screen.
Record t : Type := mk { width : Z; height : Z }.
End Screen.

Module Map.

Record t : Type := mk { list : Datatypes.list (Datatypes.list Z); rows : Z; cols : Z }.

(** The grid of [Map.__init__]. *)
Definition grid : Datatypes.list (Datatypes.list Z) :=
  [[1;1;1;1;1;1];
   [1;0;0;0;0;1];
   [1;0;0;0;0;1];
   [1;0;0;0;0;1];
   [1;0;0;0;0;1];
   [1;0;0;0;0;1];
   [1;0;0;0;0;1];
   [1;0;0;0;0;1]]%Z.

(** A map over any grid: [rows = len(list)], [cols = len(list[0])]. *)
Definition of_grid (g : Datatypes.list (Datatypes.list Z)) : t :=
  mk g (Z.of_nat (List.length g)) (Z.of_nat (List.length (hd [] g))).

(** [Map()] *)
Definition init : t := of_grid grid.

End Map.

Module Vec2D.
Local Open Scope R_scope.

Record t : Type := mk { x : R; y : R }.

Definition add (self other : t) : t := mk (x other + x self) (y other + y self).
Definition sub (self other : t) : t := mk (x self - x other) (y self - y other).
Definition mul (self : t) (other : R) : t := mk (x self * other) (y self * other).

Definition getMagnitude (self : t) : R := sqrt (x self ^ 2 + y self ^ 2).

Definition getAngle (self : t) : R := degrees (atan2 (y self) (x self)).

Definition dotProduct (self other : t) : R := x other * x self + y other * y self.

(** [Vec2D.rotate]: [self.x] is assigned first and the new value is the one
    read in the assignment of [self.y]. *)
Definition rotate (self : t) (angle : R) : t :=
  let radians := radians (- angle) in
  let x1 := x self * cos radians - y self * sin radians in
  let y1 := x1 * sin radians + y self * cos radians in
  mk x1 y1.

(** What the specification says [rotate] computes: the rotation matrix
    applied to the original components. *)
Definition rotation (self : t) (angle : R) : t :=
  let radians := radians (- angle) in
  mk (x self * cos radians - y self * sin radians)
     (x self * sin radians + y self * cos radians).

End Vec2D.

(** ** The app object

    One field per attribute set in [onAppStart] and [reset], but the colour
    [skyColour], which only the drawing calls read. *)

Record App : Type := mkApp {
  screen : Screen.t;
  map : Map.t;
  camera : Vec2D.t;
  playerPos : Vec2D.t;
  playerDir : Vec2D.t;
  playerFOV : R;
  startingAngle : Z;
  dAngle : R;
  isHitbox : bool;
  waterLevel : Z;
  cameraTilt : Z;
  isTiltingUp : bool;
  waveAmount : Z;
  dWave : Z;
  gameTime : Time.t;
  gameOver : bool;
  gameWon : bool;
  lightAngle : option Z;
  lightRadius : Z;
  lightPos : Z;
  lightdRadius : Z;
  lightEndRadius : Z;
  lightSpawn : R;
  lightdPos : Z;
  hitBox : option Vec2D.t;
  hitBoxSize : Z
}.

Definition set_playerDir (v : Vec2D.t) (app : App) : App :=
  mkApp (screen app) (map app) (camera app) (playerPos app) v (playerFOV app)
  (startingAngle app) (dAngle app) (isHitbox app) (waterLevel app)
  (cameraTilt app) (isTiltingUp app) (waveAmount app) (dWave app)
  (gameTime app) (gameOver app) (gameWon app) (lightAngle app)
  (lightRadius app) (lightPos app) (lightdRadius app) (lightEndRadius app)
  (lightSpawn app) (lightdPos app) (hitBox app) (hitBoxSize app).

Definition set_isHitbox (v : bool) (app : App) : App :=
  mkApp (screen app) (map app) (camera app) (playerPos app) (playerDir app)
  (playerFOV app) (startingAngle app) (dAngle app) v (waterLevel app)
  (cameraTilt app) (isTiltingUp app) (waveAmount app) (dWave app)
  (gameTime app) (gameOver app) (gameWon app) (lightAngle app)
  (lightRadius app) (lightPos app) (lightdRadius app) (lightEndRadius app)
  (lightSpawn app) (lightdPos app) (hitBox app) (hitBoxSize app).

Definition set_cameraTilt (v : Z) (app : App) : App :=
  mkApp (screen app) (map app) (camera app) (playerPos app) (playerDir app)
  (playerFOV app) (startingAngle app) (dAngle app) (isHitbox app)
  (waterLevel app) v (isTiltingUp app) (waveAmount app) (dWave app)
  (gameTime app) (gameOver app) (gameWon app) (lightAngle app)
  (lightRadius app) (lightPos app) (lightdRadius app) (lightEndRadius app)
  (lightSpawn app) (lightdPos app) (hitBox app) (hitBoxSize app).

Definition set_isTiltingUp (v : bool) (app : App) : App :=
  mkApp (screen app) (map app) (camera app) (playerPos app) (playerDir app)
  (playerFOV app) (startingAngle app) (dAngle app) (isHitbox app)
  (waterLevel app) (cameraTilt app) v (waveAmount app) (dWave app)
  (gameTime app) (gameOver app) (gameWon app) (lightAngle app)
  (lightRadius app) (lightPos app) (lightdRadius app) (lightEndRadius app)
  (lightSpawn app) (lightdPos app) (hitBox app) (hitBoxSize app).

Definition set_gameTime (v : Time.t) (app : App) : App :=
  mkApp (screen app) (map app) (camera app) (playerPos app) (playerDir app)
  (playerFOV app) (startingAngle app) (dAngle app) (isHitbox app)
  (waterLevel app) (cameraTilt app) (isTiltingUp app) (waveAmount app)
  (dWave app) v (gameOver app) (gameWon app) (lightAngle app)
  (lightRadius app) (lightPos app) (lightdRadius app) (lightEndRadius app)
  (lightSpawn app) (lightdPos app) (hitBox app) (hitBoxSize app).

Definition set_gameOver (v : bool) (app : App) : App :=
  mkApp (screen app) (map app) (camera app) (playerPos app) (playerDir app)
  (playerFOV app) (startingAngle app) (dAngle app) (isHitbox app)
  (waterLevel app) (cameraTilt app) (isTiltingUp app) (waveAmount app)
  (dWave app) (gameTime app) v (gameWon app) (lightAngle app)
  (lightRadius app) (lightPos app) (lightdRadius app) (lightEndRadius app)
  (lightSpawn app) (lightdPos app) (hitBox app) (hitBoxSize app).

Definition set_gameWon (v : bool) (app : App) : App :=
  mkApp (screen app) (map app) (camera app) (playerPos app) (playerDir app)
  (playerFOV app) (startingAngle app) (dAngle app) (isHitbox app)
  (waterLevel app) (cameraTilt app) (isTiltingUp app) (waveAmount app)
  (dWave app) (gameTime app) (gameOver app) v (lightAngle app)
  (lightRadius app) (lightPos app) (lightdRadius app) (lightEndRadius app)
  (lightSpawn app) (lightdPos app) (hitBox app) (hitBoxSize app).

Definition set_lightAngle (v : option Z) (app : App) : App :=
  mkApp (screen app) (map app) (camera app) (playerPos app) (playerDir app)
  (playerFOV app) (startingAngle app) (dAngle app) (isHitbox app)
  (waterLevel app) (cameraTilt app) (isTiltingUp app) (waveAmount app)
  (dWave app) (gameTime app) (gameOver app) (gameWon app) v (lightRadius app)
  (lightPos app) (lightdRadius app) (lightEndRadius app) (lightSpawn app)
  (lightdPos app) (hitBox app) (hitBoxSize app).

Definition set_lightRadius (v : Z) (app : App) : App :=
  mkApp (screen app) (map app) (camera app) (playerPos app) (playerDir app)
  (playerFOV app) (startingAngle app) (dAngle app) (isHitbox app)
  (waterLevel app) (cameraTilt app) (isTiltingUp app) (waveAmount app)
  (dWave app) (gameTime app) (gameOver app) (gameWon app) (lightAngle app) v
  (lightPos app) (lightdRadius app) (lightEndRadius app) (lightSpawn app)
  (lightdPos app) (hitBox app) (hitBoxSize app).

Definition set_lightPos (v : Z) (app : App) : App :=
  mkApp (screen app) (map app) (camera app) (playerPos app) (playerDir app)
  (playerFOV app) (startingAngle app) (dAngle app) (isHitbox app)
  (waterLevel app) (cameraTilt app) (isTiltingUp app) (waveAmount app)
  (dWave app) (gameTime app) (gameOver app) (gameWon app) (lightAngle app)
  (lightRadius app) v (lightdRadius app) (lightEndRadius app)
  (lightSpawn app) (lightdPos app) (hitBox app) (hitBoxSize app).

Definition set_lightdRadius (v : Z) (app : App) : App :=
  mkApp (screen app) (map app) (camera app) (playerPos app) (playerDir app)
  (playerFOV app) (startingAngle app) (dAngle app) (isHitbox app)
  (waterLevel app) (cameraTilt app) (isTiltingUp app) (waveAmount app)
  (dWave app) (gameTime app) (gameOver app) (gameWon app) (lightAngle app)
  (lightRadius app) (lightPos app) v (lightEndRadius app) (lightSpawn app)
  (lightdPos app) (hitBox app) (hitBoxSize app).

Definition set_lightEndRadius (v : Z) (app : App) : App :=
  mkApp (screen app) (map app) (camera app) (playerPos app) (playerDir app)
  (playerFOV app) (startingAngle app) (dAngle app) (isHitbox app)
  (waterLevel app) (cameraTilt app) (isTiltingUp app) (waveAmount app)
  (dWave app) (gameTime app) (gameOver app) (gameWon app) (lightAngle app)
  (lightRadius app) (lightPos app) (lightdRadius app) v (lightSpawn app)
  (lightdPos app) (hitBox app) (hitBoxSize app).

Definition set_lightSpawn (v : R) (app : App) : App :=
  mkApp (screen app) (map app) (camera app) (playerPos app) (playerDir app)
  (playerFOV app) (startingAngle app) (dAngle app) (isHitbox app)
  (waterLevel app) (cameraTilt app) (isTiltingUp app) (waveAmount app)
  (dWave app) (gameTime app) (gameOver app) (gameWon app) (lightAngle app)
  (lightRadius app) (lightPos app) (lightdRadius app) (lightEndRadius app) v
  (lightdPos app) (hitBox app) (hitBoxSize app).

Definition set_lightdPos (v : Z) (app : App) : App :=
  mkApp (screen app) (map app) (camera app) (playerPos app) (playerDir app)
  (playerFOV app) (startingAngle app) (dAngle app) (isHitbox app)
  (waterLevel app) (cameraTilt app) (isTiltingUp app) (waveAmount app)
  (dWave app) (gameTime app) (gameOver app) (gameWon app) (lightAngle app)
  (lightRadius app) (lightPos app) (lightdRadius app) (lightEndRadius app)
  (lightSpawn app) v (hitBox app) (hitBoxSize app).

Definition set_hitBox (v : option Vec2D.t) (app : App) : App :=
  mkApp (screen app) (map app) (camera app) (playerPos app) (playerDir app)
  (playerFOV app) (startingAngle app) (dAngle app) (isHitbox app)
  (waterLevel app) (cameraTilt app) (isTiltingUp app) (waveAmount app)
  (dWave app) (gameTime app) (gameOver app) (gameWon app) (lightAngle app)
  (lightRadius app) (lightPos app) (lightdRadius app) (lightEndRadius app)
  (lightSpawn app) (lightdPos app) v (hitBoxSize app).

Definition set_hitBoxSize (v : Z) (app : App) : App :=
  mkApp (screen app) (map app) (camera app) (playerPos app) (playerDir app)
  (playerFOV app) (startingAngle app) (dAngle app) (isHitbox app)
  (waterLevel app) (cameraTilt app) (isTiltingUp app) (waveAmount app)
  (dWave app) (gameTime app) (gameOver app) (gameWon app) (lightAngle app)
  (lightRadius app) (lightPos app) (lightdRadius app) (lightEndRadius app)
  (lightSpawn app) (lightdPos app) (hitBox app) v.

(** ** Start and reset *)

Section Handlers.
Local Open Scope Z_scope.

(** [resetLight] *)
Definition resetLight (app : App) : App :=
  set_lightPos 0 (set_lightRadius 8 (set_lightAngle None app)).

(** [reset]: after [resetLight] the angle is set to -90, so a game starts
    with the light armed. *)
Definition reset (app : App) : App :=
  let app := set_gameTime (Time.init 100 10) app in
  let app := set_gameOver false app in
  let app := set_gameWon false app in
  let app := resetLight app in
  let app := set_lightAngle (Some (-90)) app in
  let app := set_lightdRadius 5 app in
  let app := set_lightEndRadius 40 app in
  let app := set_lightSpawn 0.1%R app in
  let app := set_lightPos 0 app in
  let app := set_lightdPos 2 app in
  let app := set_hitBox None app in
  let app := set_hitBoxSize (lightEndRadius app * 2) app in
  set_playerDir (Vec2D.mk 0.0 (-1.0)) app.

(** [onAppStart]: the attributes that [reset] assigns do not exist before
    the call of [reset] that ends it; the values given to them here are the
    ones [reset] writes. *)
Definition onAppStart : App :=
  let camera := Vec2D.mk 0.0 0.66 in
  let playerDir := Vec2D.mk 0.0 (-1.0) in
  reset
    {| screen := Screen.mk 400 400;
       map := Map.init;
       camera := camera;
       playerPos := Vec2D.mk 3.0 5.0;
       playerDir := playerDir;
       playerFOV :=
         degrees (2 * atan (Vec2D.getMagnitude camera
                            / Vec2D.getMagnitude playerDir));
       startingAngle := 0;
       dAngle := 0.2%R;
       isHitbox := false;
       waterLevel := 400 / 7 * 3;
       cameraTilt := 30;
       isTiltingUp := true;
       waveAmount := 30;
       dWave := 1;
       gameTime := Time.init 100 10;
       gameOver := false;
       gameWon := false;
       lightAngle := Some (-90);
       lightRadius := 8;
       lightPos := 0;
       lightdRadius := 5;
       lightEndRadius := 40;
       lightSpawn := 0.1%R;
       lightdPos := 2;
       hitBox := None;
       hitBoxSize := 80 |}.

(** ** Keys *)

(** [inBounds]: [None] for a key that is neither ['left'] nor ['right']. *)
Definition inBounds (key : string) (direction : Vec2D.t) : option bool :=
  if (key =? "left")%string then
    Some (ltR (-113) (Vec2D.getAngle direction))
  else if (key =? "right")%string then
    Some (ltR (Vec2D.getAngle direction) (-70))
  else None.

(** Truth value of what [inBounds] returns. *)
Definition truthy (b : option bool) : bool :=
  match b with Some true => true | _ => false end.

(** [onKeyPress] *)
Definition onKeyPress (key : string) (app : App) : App :=
  let degrees := 10%R in
  let app :=
    if ((key =? "right") || (key =? "d"))%string
       && truthy (inBounds "right" (playerDir app))
    then set_playerDir (Vec2D.rotate (playerDir app) (- degrees)) app
    else if ((key =? "left") || (key =? "a"))%string
            && truthy (inBounds "left" (playerDir app))
    then set_playerDir (Vec2D.rotate (playerDir app) degrees) app
    else app in
  let app := if gameOver app && (key =? "r")%string then reset app else app in
  let app :=
    if (key =? "g")%string
    then set_gameTime (Time.init 0 5) (set_gameOver true app) else app in
  let app :=
    if (key =? "w")%string
    then set_gameTime (Time.init 0 5) (set_gameWon true (set_gameOver true app))
    else app in
  if (key =? "h")%string then set_isHitbox (negb (isHitbox app)) app else app.

(** ** The light *)

(** The two numbers [spawnLight] asks [random.randint] for:
    [randint(1, 100)] and [randint(30, 150)]. *)
Record Draws : Type := mkDraws { lightSpawnInt : Z; lightAngleInt : Z }.

Definition validDraws (d : Draws) : Prop :=
  1 <= lightSpawnInt d <= 100 /\ 30 <= lightAngleInt d <= 150.

(** [spawnLight] *)
Definition spawnLight (d : Draws) (app : App) : App :=
  if ltR (IZR (lightSpawnInt d)) (lightSpawn app * 100)
  then app
  else set_lightAngle (Some (lightAngleInt d * -1)) app.

(** [changeLight] *)
Definition changeLight (d : Draws) (app : App) : App :=
  match lightAngle app with
  | Some _ =>
      let app := set_lightRadius (lightRadius app + lightdRadius app) app in
      set_lightPos (lightPos app + lightdPos app) app
  | None => spawnLight d app
  end.

(** [fixBoxPosition]; the division is by the field of view computed at the
    start, which is not zero. *)
Definition fixBoxPosition (app : App) : App :=
  let playerAngle := Vec2D.getAngle (playerDir app) in
  let leftAngle := (playerAngle - playerFOV app / 2)%R in
  let rightAngle := (playerAngle + playerFOV app / 2)%R in
  match lightAngle app with
  | Some l =>
      if leR leftAngle (IZR l) && leR (IZR l) rightAngle then
        let boxY := waterLevel app + lightPos app in
        let boxX := ((IZR l - leftAngle) / playerFOV app
                     * IZR (Screen.width (screen app)))%R in
        set_hitBox (Some (Vec2D.mk boxX (IZR boxY))) app
      else set_hitBox None app
  | None => set_hitBox None app
  end.

(** [checkHitBox], called with a hit box in place. *)
Definition checkHitBox (box : Vec2D.t) (mouseX mouseY : R) (app : App) : App :=
  let left := (Vec2D.x box - IZR (hitBoxSize app / 2))%R in
  let right := (Vec2D.x box + IZR (hitBoxSize app / 2))%R in
  let top := (Vec2D.y box - IZR (hitBoxSize app / 2))%R in
  let bottom := (Vec2D.y box + IZR (hitBoxSize app / 2))%R in
  if leR left mouseX && leR mouseX right && leR top mouseY && leR mouseY bottom
  then set_hitBox None (resetLight app)
  else app.

(** [onMousePress] *)
Definition onMousePress (mouseX mouseY : R) (app : App) : App :=
  if negb (gameOver app) then
    match hitBox app with
    | Some box => checkHitBox box mouseX mouseY app
    | None => app
    end
  else app.

(** ** Steps *)

(** [wave] *)
Definition wave (app : App) : result App :=
  let magnitude := waveAmount app in
  if negb (magnitude mod 5 =? 0) then Raise TypeError
  else
    let app :=
      if (magnitude <? cameraTilt app) || (cameraTilt app <? 5)
      then set_isTiltingUp (negb (isTiltingUp app)) app else app in
    if isTiltingUp app
    then Ok (set_cameraTilt (cameraTilt app + dWave app) app)
    else Ok (set_cameraTilt (cameraTilt app - dWave app) app).

(** [onStep]; the [print] is left out. *)
Definition onStep (d : Draws) (app : App) : result App :=
  if negb (Time.isUp (gameTime app)) then
    if lightEndRadius app <=? lightRadius app then
      Ok (set_gameTime (Time.init 0 10) (set_gameOver true app))
    else
      (app <- wave app ;;
       '(clock, minute) <- Time.count (gameTime app) ;;
       let app := set_gameTime clock app in
       if minute then Ok (fixBoxPosition (changeLight d app)) else Ok app)%py
  else if negb (gameOver app) || gameWon app then
    Ok (set_gameOver true (set_gameWon true app))
  else Ok app.

(** ** What the host delivers, and the states a game can be in *)

Inductive event : Type :=
| Step (d : Draws)
| KeyPress (key : string)
| MousePress (mouseX mouseY : R).

Definition validEvent (e : event) : Prop :=
  match e with
  | Step d => validDraws d
  | _ => True
  end.

Definition handle (e : event) (app : App) : result App :=
  match e with
  | Step d => onStep d app
  | KeyPress key => Ok (onKeyPress key app)
  | MousePress mouseX mouseY => Ok (onMousePress mouseX mouseY app)
  end.

Inductive reachable : App -> Prop :=
| reachable_start : reachable onAppStart
| reachable_event (e : event) (app app' : App) :
    reachable app -> validEvent e -> handle e app = Ok app' -> reachable app'.

(** The outcome of a game, read off the two flags. *)
Inductive GameOutcome : Type := Ongoing | Lost | Won.

Definition outcome (app : App) : GameOutcome :=
  if gameOver app then (if gameWon app then Won else Lost) else Ongoing.


End Handlers.

(** ** Walls and rays *)

Section Rays.
Local Open Scope R_scope.

(** The arguments of the one call of [drawSector] that [drawWall] makes. *)
Record Sector : Type := mkSector {
  sectorLeft : R;
  sectorTop : Z;
  sectorWidth : Z;
  sectorHeight : Z;
  sectorIsLight : bool
}.

(** [drawWall]: [distance] is a float or [None]; the result is the sector
    handed to [drawSector], or [None] when nothing is drawn. *)
Definition drawWall (app : App) (distance : option R) (angle : R)
  : result (option Sector) :=
  let startingAngle := Vec2D.getAngle (playerDir app) - playerFOV app / 2 in
  let dAngle' := Rabs (startingAngle - angle) in
  let modelWallHeight := 900 in
  (ratio <- truediv (dAngle app) (playerFOV app) ;;
   let wallWidth := Zceil (ratio * IZR (Screen.width (screen app))) in
   viewWallHeight <-
     match distance with
     | None => Ok 0%Z
     | Some d => (h <- truediv modelWallHeight d ;; Ok (int h))
     end ;;
   let wallTop :=
     (int (IZR (Screen.height (screen app)) / 2 - IZR viewWallHeight / 2)
      + cameraTilt app)%Z in
   let wallLeft := dAngle' / playerFOV app * IZR (Screen.width (screen app)) in
   if negb (wallWidth =? 0)%Z && negb (viewWallHeight =? 0)%Z then
     let isLight :=
       match lightAngle app with
       | Some l => (int angle =? l)%Z
       | None => false
       end in
     Ok (Some (mkSector wallLeft wallTop wallWidth viewWallHeight isLight))
   else Ok None)%py.

(** The variables the loop of [fastCastRay] updates; [iterations] counts the
    executions of the loop body and is not a variable of the source. *)
Record Cast : Type := mkCast {
  mapX : Z;
  mapY : Z;
  sideDistX : R;
  sideDistY : R;
  side : Z;
  iterations : nat
}.

(** [grid2D[mapY][mapX]] for indices that are not negative. *)
Definition cell (grid2D : list (list Z)) (mapY mapX : Z) : result Z :=
  match nth_error grid2D (Z.to_nat mapY) with
  | None => Raise IndexError
  | Some row =>
      match nth_error row (Z.to_nat mapX) with
      | None => Raise IndexError
      | Some c => Ok c
      end
  end.

Definition inGrid (app : App) (st : Cast) : bool :=
  ((0 <=? mapX st) && (mapX st <? Map.cols (map app))
   && (0 <=? mapY st) && (mapY st <? Map.rows (map app)))%Z.

(** The condition of the [while]; the cells of a grid are integers, so the
    comparison with [None] never holds. *)
Definition loopCondition (app : App) (grid2D : list (list Z)) (st : Cast)
  : result bool :=
  if inGrid app st
  then (c <- cell grid2D (mapY st) (mapX st) ;; Ok (c =? 0)%Z)%py
  else Ok false.

(** The [while] loop of [fastCastRay]. [stepY] is [None] while the variable
    is unbound. [None] as a result says that [fuel] executions of the body
    were not enough. *)
Fixpoint castLoop (fuel : nat) (app : App) (grid2D : list (list Z))
  (deltaDistX deltaDistY : R) (stepX : Z) (stepY : option Z) (st : Cast)
  : option (result Cast) :=
  match loopCondition app grid2D st with
  | Raise e => Some (Raise e)
  | Ok false => Some (Ok st)
  | Ok true =>
      match fuel with
      | O => None
      | S fuel' =>
          if ltR (sideDistX st) (sideDistY st) then
            castLoop fuel' app grid2D deltaDistX deltaDistY stepX stepY
              (mkCast (mapX st + stepX) (mapY st)
                 (sideDistX st + deltaDistX) (sideDistY st)
                 0 (S (iterations st)))
          else
            match stepY with
            | None => Some (Raise UnboundLocalError)
            | Some sy =>
                castLoop fuel' app grid2D deltaDistX deltaDistY stepX stepY
                  (mkCast (mapX st) (mapY st + sy)
                     (sideDistX st) (sideDistY st + deltaDistY)
                     1 (S (iterations st)))
            end
      end
  end.

(** What [fastCastRay] has when the loop is left: the distance it hands to
    [drawWall], the side crossed last and the cell the loop stopped at. *)
Record Hit : Type := mkHit {
  distance : R;
  hitSide : Z;
  hitX : Z;
  hitY : Z;
  steps : nat
}.

(** [fastCastRay] from the line after the direction of the ray is computed
    to the line before [drawWall] is called. In the branch of a ray that
    does not point up, the source assigns [stepX] a second time and leaves
    [stepY] unbound. *)
Definition castDir (fuel : nat) (app : App) (grid2D : list (list Z))
  (rayDirX rayDirY : R) : option (result Hit) :=
  let posX := Vec2D.x (playerPos app) in
  let posY := Vec2D.y (playerPos app) in
  let mapX0 := int posX in
  let mapY0 := int posY in
  let deltaDistX := if eqR rayDirX 0 then 1e30 else Rabs (1 / rayDirX) in
  let deltaDistY := if eqR rayDirY 0 then 1e30 else Rabs (1 / rayDirY) in
  let '(stepX, sideDistX0) :=
    if ltR rayDirX 0
    then ((-1)%Z, (posX - IZR mapX0) * deltaDistX)
    else (1%Z, (IZR mapX0 + 1 - posX) * deltaDistX) in
  let '(stepX, stepY, sideDistY0) :=
    if ltR rayDirY 0
    then (stepX, Some (-1)%Z, (posY - IZR mapY0) * deltaDistY)
    else (1%Z, None, (IZR mapY0 + 1 - posY) * deltaDistY) in
  match castLoop fuel app grid2D deltaDistX deltaDistY stepX stepY
          (mkCast mapX0 mapY0 sideDistX0 sideDistY0 0 O) with
  | None => None
  | Some (Raise e) => Some (Raise e)
  | Some (Ok st) =>
      let distance :=
        if (side st =? 0)%Z then sideDistX st - deltaDistX
        else sideDistY st - deltaDistY in
      Some (Ok (mkHit distance (side st) (mapX st) (mapY st) (iterations st)))
  end.

(** The ray of [fastCastRay] at [angle], up to the call of [drawWall]. *)
Definition castRay (fuel : nat) (app : App) (grid2D : list (list Z))
  (angle : R) : option (result Hit) :=
  let rayDirX := cos (radians angle) in
  let rayDirY := sin (radians angle) in
  castDir fuel app grid2D rayDirX rayDirY.

(** [fastCastRay]: the sector handed to [drawSector] for the ray, if any. *)
Definition fastCastRay (fuel : nat) (app : App) (grid2D : list (list Z))
  (angle : R) : option (result (option Sector)) :=
  match castRay fuel app grid2D angle with
  | None => None
  | Some (Raise e) => Some (Raise e)
  | Some (Ok hit) => Some (drawWall app (Some (distance hit)) angle)
  end.

(** The arguments of a call of [drawRect] by [drawSector]. *)
Record Rect : Type := mkRect {
  rectLeft : R;
  rectTop : Z;
  rectWidth : Z;
  rectHeight : Z;
  rectFill : string
}.

(** [drawSector], called with the fields of a sector: the calls of
    [drawRect] it makes, in order, and none for a [top] that is not
    positive. [app.skyColour] is ['black'] from [onAppStart] on; the
    parameter [isLight] and the locals [waterWidth] and [skyTop] are not
    used. *)
Definition drawSector (app : App) (sector : Sector) : list Rect :=
  let left := sectorLeft sector in
  let top := sectorTop sector in
  let width := sectorWidth sector in
  let height := sectorHeight sector in
  let waterTop := waterLevel app in
  let windowBoarderWidth := 30%Z in
  let skyHeight := (waterTop - top - windowBoarderWidth)%Z in
  let waterHeight :=
    (top + windowBoarderWidth + height - 2 * windowBoarderWidth
     - waterTop)%Z in
  if (0 <? top)%Z then
    [mkRect left 0 width (top + windowBoarderWidth + skyHeight) "black";
     mkRect left waterTop width waterHeight "blue";
     mkRect left (waterHeight + waterTop) width windowBoarderWidth
       "darkgray";
     mkRect left (top + height) width top "brown"]
  else [].

(** [fastCastRay] down to the calls of [drawRect]: what is drawn for the
    ray. *)
Definition drawRay (fuel : nat) (app : App) (grid2D : list (list Z))
  (angle : R) : option (result (list Rect)) :=
  match fastCastRay fuel app grid2D angle with
  | None => None
  | Some (Raise e) => Some (Raise e)
  | Some (Ok None) => Some (Ok [])
  | Some (Ok (Some sector)) => Some (Ok (drawSector app sector))
  end.

(** The loop stopped at a cell of the grid that is occupied. *)
Definition isWallHit (app : App) (grid2D : list (list Z)) (h : Hit) : Prop :=
  (0 <= hitX h < Map.cols (map app))%Z /\ (0 <= hitY h < Map.rows (map app))%Z
  /\ exists c, cell grid2D (hitY h) (hitX h) = Ok c /\ c <> 0%Z.

(** The loop stopped outside the grid. *)
Definition leftGrid (app : App) (h : Hit) : Prop :=
  ~ ((0 <= hitX h < Map.cols (map app))%Z
     /\ (0 <= hitY h < Map.rows (map app))%Z).

(** The executions of the loop body left to a ray inside the grid before it
    has to leave it: the cells ahead along X, and the rows above. *)
Definition room (app : App) (stepX : Z) (st : Cast) : nat :=
  Z.to_nat ((if (stepX =? 1)%Z then Map.cols (map app) - mapX st
             else mapX st + 1) + mapY st).

End Rays.

(** ** The statements of the specification that the theorems below settle *)

Section Statements.
Local Open Scope R_scope.

(** The app on another map and at another position; no handler assigns
    these two attributes. *)
Definition onMap (m : Map.t) (pos : Vec2D.t) (app : App) : App :=
  mkApp (screen app) m (camera app) pos (playerDir app) (playerFOV app)
  (startingAngle app) (dAngle app) (isHitbox app) (waterLevel app)
  (cameraTilt app) (isTiltingUp app) (waveAmount app) (dWave app)
  (gameTime app) (gameOver app) (gameWon app) (lightAngle app)
  (lightRadius app) (lightPos app) (lightdRadius app) (lightEndRadius app)
  (lightSpawn app) (lightdPos app) (hitBox app) (hitBoxSize app).

(** A map of three open cells, one above the other, with the player in the
    middle of the lowest. *)
Definition openColumn : App :=
  onMap (Map.of_grid [[0%Z]; [0%Z]; [0%Z]]) (Vec2D.mk 0.5 2.5) onAppStart.

(** The numbers [random.randint(1, 100)] returns. *)
Definition spawnOutcomes : list Z := List.map Z.of_nat (seq 1 100).

(** Whether a tick with the draws [n] and [a] leaves the light armed. *)
Definition arms (app : App) (n a : Z) : bool :=
  match lightAngle (changeLight (mkDraws n a) app) with
  | Some _ => true
  | None => false
  end.

(** How many of the hundred outcomes of the first draw arm the light. *)
Definition armingCount (app : App) : nat :=
  List.length (filter (fun n => arms app n 90) spawnOutcomes).

(** The angle [a] is inside the view cone of a player facing [facing]. *)
Definition inViewAt (facing fov a : R) : Prop :=
  facing - fov / 2 <= a <= facing + fov / 2.

(** The interval [inBounds] checks. *)
Definition inRotationBounds (facing : R) : Prop := -113 <= facing <= -70.

(** The angle [a] is seen at some facing angle of the rotation bounds. *)
Definition inRotationSpan (app : App) (a : Z) : Prop :=
  exists facing, inRotationBounds facing
                 /\ inViewAt facing (playerFOV app) (IZR a).





(** Every angle the light can be armed with is seen at some facing angle of
    the rotation bounds. *)
Definition spawnRangeInSpan : Prop :=
  forall a : Z, (-150 <= a <= -30)%Z -> inRotationSpan onAppStart a.

(** The angle [a] is inside the view cone of the player in the state [app]. *)
Definition inView (app : App) (a : Z) : Prop :=
  inViewAt (Vec2D.getAngle (playerDir app)) (playerFOV app) (IZR a).

(** The keys of a list pressed one after the other. *)
Definition pressKeys (keys : list string) (app : App) : App :=
  fold_left (fun a key => onKeyPress key a) keys app.

(** The state after three presses of the left key from the start. *)
Definition facingLeft : App :=
  pressKeys ["left"; "left"; "left"]%string onAppStart.

(** The state after two presses of the left key and five of the right key. *)
Definition facingRight : App :=
  pressKeys ["left"; "left"; "right"; "right"; "right"; "right"; "right"]%string
    onAppStart.

End Statements.

(** ** More of the program: the sweep of rays, and runs of steps *)

Section Sweep.
Local Open Scope R_scope.

(** The rays of the [for] loop of [rayCast], cast in order; an exception
    ends the sweep. *)
Fixpoint castRays (fuel : nat) (app : App) (grid2D : list (list Z))
  (startingAngle : R) (rays : list nat)
  : option (result (list (option Sector))) :=
  match rays with
  | [] => Some (Ok [])
  | ray :: rays' =>
      let angle := startingAngle + INR ray * dAngle app in
      match fastCastRay fuel app grid2D angle with
      | None => None
      | Some (Raise e) => Some (Raise e)
      | Some (Ok drawn) =>
          match castRays fuel app grid2D startingAngle rays' with
          | None => None
          | Some (Raise e) => Some (Raise e)
          | Some (Ok rest) => Some (Ok (drawn :: rest))
          end
      end
  end.

(** [rayCast]: the sectors handed to [drawSector] for the rays
    [0 .. int(playerFOV / dAngle) - 1]. *)
Definition rayCast (fuel : nat) (app : App) (grid2D : list (list Z))
  : option (result (list (option Sector))) :=
  let startingAngle := Vec2D.getAngle (playerDir app) - playerFOV app / 2 in
  match truediv (playerFOV app) (dAngle app) with
  | Raise e => Some (Raise e)
  | Ok q => castRays fuel app grid2D startingAngle (seq 0 (Z.to_nat (int q)))
  end.

(** The arguments of a call of [drawCircle] by [drawLight], but for the
    colour. *)
Record Circle : Type := mkCircle {
  circleX : R;
  circleY : Z;
  circleRadius : Z
}.

(** The [for] loop of [drawLight]: a circle for every ray whose angle
    truncates to the angle of the light; [None == None] does not occur, the
    left side being an [int]. *)
Fixpoint lightCircles (app : App) (startingAngle endingAngle : R)
  (rays : list nat) : result (list Circle) :=
  match rays with
  | [] => Ok []
  | ray :: rays' =>
      let angle := startingAngle + INR ray * dAngle app in
      if match lightAngle app with
         | Some l => (int angle =? l)%Z
         | None => false
         end
      then
        (ratio <- truediv (Rabs (startingAngle - angle))
                    (endingAngle - startingAngle) ;;
         let lightX := ratio * IZR (Screen.width (screen app)) in
         rest <- lightCircles app startingAngle endingAngle rays' ;;
         Ok (mkCircle lightX (waterLevel app + lightPos app)
               (lightRadius app) :: rest))%py
      else lightCircles app startingAngle endingAngle rays'
  end.

(** [drawLight]: the circles drawn, in order. *)
Definition drawLight (app : App) : result (list Circle) :=
  let startingAngle := Vec2D.getAngle (playerDir app) - playerFOV app / 2 in
  let endingAngle := Vec2D.getAngle (playerDir app) + playerFOV app / 2 in
  (q <- truediv (playerFOV app) (dAngle app) ;;
   lightCircles app startingAngle endingAngle (seq 0 (Z.to_nat (int q))))%py.

(** The grid has as many rows as the map says and every row has as many
    cells as the map says. *)
Definition rectangular (app : App) (grid2D : list (list Z)) : Prop :=
  Z.of_nat (List.length grid2D) = Map.rows (map app)
  /\ Forall (fun row => Z.of_nat (List.length row) = Map.cols (map app)) grid2D.

(** The steps of a list of draws, one [onStep] per element; an exception
    ends the run. *)
Fixpoint steps_run (ds : list Draws) (app : App) : result App :=
  match ds with
  | [] => Ok app
  | d :: ds' => (app' <- onStep d app ;; steps_run ds' app')%py
  end.

End Sweep.

(** ** What a game keeps *)

Section Invariants.

(** The attributes no handler changes, or only ever sets to one value. *)
Definition constInvariant (app : App) : Prop :=
  screen app = Screen.mk 400 400
  /\ map app = Map.init
  /\ playerPos app = playerPos onAppStart
  /\ playerFOV app = playerFOV onAppStart
  /\ dAngle app = 0.2%R
  /\ waterLevel app = 171%Z
  /\ waveAmount app = 30%Z
  /\ dWave app = 1%Z
  /\ lightdRadius app = 5%Z
  /\ lightEndRadius app = 40%Z
  /\ lightSpawn app = 0.1%R
  /\ lightdPos app = 2%Z
  /\ hitBoxSize app = 80%Z
  /\ camera app = camera onAppStart
  /\ startingAngle app = 0%Z.

(** The tilt of the camera and the way it is moving. *)
Definition tiltInvariant (app : App) : Prop :=
  if isTiltingUp app then (5 <= cameraTilt app <= 31)%Z
  else (4 <= cameraTilt app <= 30)%Z.

(** The clock of a game: speed 10, the seconds a multiple of 10 below 100
    and at most 100 minutes; or the expired clock of a debugging key. *)
Definition clockInvariant (app : App) : Prop :=
  let c := gameTime app in
  (Time.speed c = 10 /\ 0 <= Time.min c <= 100
   /\ exists j, 0 <= j <= 9 /\ Time.sec c = 10 * j)%Z
  \/ (Time.speed c = 5 /\ Time.min c = 0 /\ Time.sec c = 0)%Z.

(** The light: after [k] ticks of growth, [k] at most 7, its radius is
    [8 + 5 k] and its offset [2 k]; a dormant light has not grown; an armed
    light is at an angle from -150 to -30. *)
Definition lightInvariant (app : App) : Prop :=
  (exists k, 0 <= k <= 7 /\ lightRadius app = 8 + 5 * k
             /\ lightPos app = 2 * k
             /\ (lightAngle app = None -> k = 0))%Z
  /\ (forall l, lightAngle app = Some l -> -150 <= l <= -30)%Z.

(** A hit box belongs to an armed light, lies within the width of the
    screen and at the height of the light. *)
Definition hitBoxInvariant (app : App) : Prop :=
  forall box, hitBox app = Some box ->
    (exists l, lightAngle app = Some l)
    /\ (0 <= Vec2D.x box <= 400)%R
    /\ Vec2D.y box = IZR (171 + lightPos app).

(** The direction points up the screen, no flatter than the slope 0.88. *)
Definition dirInvariant (app : App) : Prop :=
  (Vec2D.y (playerDir app) < 0
   /\ - (0.88 * - Vec2D.y (playerDir app)) <= Vec2D.x (playerDir app)
   /\ Vec2D.x (playerDir app) <= 0.88 * - Vec2D.y (playerDir app))%R.

Definition gameInvariant (app : App) : Prop :=
  constInvariant app /\ tiltInvariant app /\ clockInvariant app
  /\ lightInvariant app /\ hitBoxInvariant app /\ dirInvariant app.

(** The state of a game [n] steps after its start when no key and no
    button is pressed, [n] at most 61: the light of the start has grown at
    every tenth step, beginning with the first, and is straight ahead. *)
Definition idleAfter (n : Z) (app : App) : Prop :=
  let k := ((n + 9) / 10)%Z in
  constInvariant app
  /\ playerDir app = Vec2D.mk 0 (-1)
  /\ gameOver app = false /\ gameWon app = false
  /\ lightAngle app = Some (-90)%Z
  /\ lightRadius app = (8 + 5 * k)%Z
  /\ lightPos app = (2 * k)%Z
  /\ hitBox app
     = (if (n =? 0)%Z then None
        else Some (Vec2D.mk 200 (IZR (171 + 2 * k))))
  /\ gameTime app
     = (if (n =? 0)%Z then Time.init 100 10
        else Time.mk (99 - (n - 1) / 10) 10 (90 - 10 * ((n - 1) mod 10)))%Z.

(** The state after the first step of a game. *)
Definition afterFirstStep : App :=
  match onStep (mkDraws 1 30) onAppStart with
  | Ok app => app
  | Raise _ => onAppStart
  end.







End Invariants.

(** * Properties *)

Section TimeFacts.
Local Open Scope Z_scope.

Lemma floordiv_pos (a b : Z) : 0 < b -> Time.floordiv a b = Ok (a / b).
Proof.
  intros Hb. unfold Time.floordiv.
  destruct (b =? 0) eqn:E; [apply Z.eqb_eq in E; lia | reflexivity].
Qed.

(** A tick that stays inside the minute returns [False]. *)
Lemma count_inside (m s j : Z) :
  0 < s -> 0 < j -> j * (100 / s) < 100 + 100 / s ->
  Time.count (Time.mk m s (j * (100 / s)))
  = Ok (Time.mk m s ((j - 1) * (100 / s)), false).
Proof.
  intros Hs Hj Hlt. unfold Time.count. rewrite floordiv_pos by assumption.
  cbn [bind Time.sec Time.min Time.speed].
  assert (Hq : 0 <= 100 / s) by (apply Z.div_pos; lia).
  replace (j * (100 / s) - 100 / s) with ((j - 1) * (100 / s)) by ring.
  assert (H0 : (j - 1) * (100 / s) / 100 = 0).
  { apply Z.div_small. split; [apply Z.mul_nonneg_nonneg; lia | lia]. }
  rewrite H0. reflexivity.
Qed.

(** [k] ticks that all stay inside the minute. *)
Lemma countN_inside (k : nat) : forall (m s j : Z),
  0 < s -> Z.of_nat k <= j -> j * (100 / s) < 100 ->
  Time.countN k (Time.mk m s (j * (100 / s)))
  = Ok (Time.mk m s ((j - Z.of_nat k) * (100 / s)), repeat false k).
Proof.
  induction k as [|k IH]; intros m s j Hs Hk Hlt.
  - cbn. do 2 f_equal. f_equal. lia.
  - cbn [Time.countN]. rewrite count_inside.
    + cbn [bind]. rewrite IH.
      * cbn [bind repeat]. do 2 f_equal. f_equal. lia.
      * assumption.
      * lia.
      * assert (0 <= 100 / s) by (apply Z.div_pos; lia). nia.
    + assumption.
    + lia.
    + assert (0 <= 100 / s) by (apply Z.div_pos; lia). lia.
Qed.

(** The tick that crosses zero, with minutes left. *)
Lemma count_crossing (m s : Z) :
  0 < s <= 100 -> m <> 0 ->
  Time.count (Time.mk m s 0) = Ok (Time.mk (m - 1) s (Time.resetSec s), true).
Proof.
  intros Hs Hm. unfold Time.count. cbn [Time.sec Time.min Time.speed].
  rewrite floordiv_pos by lia. cbn [bind].
  assert (Hq : 1 <= 100 / s) by (apply Z.div_le_lower_bound; lia).
  assert (Hq' : 100 / s <= 100).
  { apply Z.div_le_upper_bound; nia. }
  assert (H1 : (0 - 100 / s) / 100 = -1).
  { symmetry. apply (Z.div_unique _ _ _ (100 - 100 / s)); lia. }
  rewrite H1.
  destruct (m =? 0) eqn:E; [apply Z.eqb_eq in E; contradiction|].
  reflexivity.
Qed.

Lemma countN_app (k1 k2 : nat) : forall c c1 f1 c2 f2,
  Time.countN k1 c = Ok (c1, f1) ->
  Time.countN k2 c1 = Ok (c2, f2) ->
  Time.countN (k1 + k2) c = Ok (c2, f1 ++ f2).
Proof.
  induction k1 as [|k1 IH]; intros c c1 f1 c2 f2 H1 H2.
  - cbn in H1. injection H1 as <- <-. exact H2.
  - cbn [Time.countN Nat.add] in *.
    destruct (Time.count c) as [[c' b]|e]; cbn [bind] in *; [|discriminate].
    destruct (Time.countN k1 c') as [[c'' bs]|e] eqn:E; cbn [bind] in *;
      [|discriminate].
    injection H1 as <- <-.
    rewrite (IH _ _ _ _ _ E H2). reflexivity.
Qed.

Lemma count_occ_repeat_false (k : nat) :
  count_occ bool_dec (repeat false k ++ [true]) true = 1%nat.
Proof. induction k as [|k IH]; cbn; [reflexivity | exact IH]. Qed.

(** C3, as amended: for every speed from 1 to 100 and every positive number
    of minutes left, [speed] calls of [count] from a minute boundary return
    [True] exactly once (the last call), take one minute off and leave
    [sec] at its reset value. *)
Theorem count_minute_cycle (speed minutes : Z) :
  0 < speed <= 100 -> 0 < minutes ->
  Time.countN (Z.to_nat speed) (Time.afterBoundary minutes speed)
  = Ok (Time.mk (minutes - 1) speed (Time.resetSec speed),
        repeat false (Z.to_nat speed - 1) ++ [true])
  /\ Time.minuteCycle speed minutes.
Proof.
  intros Hs Hm.
  assert (Hq : 1 <= 100 / speed) by (apply Z.div_le_lower_bound; lia).
  assert (Hq2 : speed * (100 / speed) <= 100) by (apply Z.mul_div_le; lia).
  assert (Hrun :
    Time.countN (Z.to_nat speed) (Time.afterBoundary minutes speed)
    = Ok (Time.mk (minutes - 1) speed (Time.resetSec speed),
          repeat false (Z.to_nat speed - 1) ++ [true])).
  { replace (Z.to_nat speed) with ((Z.to_nat speed - 1) + 1)%nat at 1 by lia.
    eapply countN_app.
    - unfold Time.afterBoundary, Time.resetSec.
      rewrite (Z.mul_comm (100 / speed)).
      apply countN_inside; [lia | lia | nia].
    - replace (speed - 1 - Z.of_nat (Z.to_nat speed - 1)) with 0 by lia.
      rewrite Z.mul_0_l. cbn [Time.countN].
      rewrite count_crossing by lia. reflexivity. }
  split; [exact Hrun|].
  unfold Time.minuteCycle. eexists _, _.
  split; [exact Hrun|]. split; [apply count_occ_repeat_false | reflexivity].
Qed.

Lemma count_minute_cycle_witness :
  Time.countN 10 (Time.afterBoundary 100 10)
  = Ok (Time.mk 99 10 90, repeat false 9 ++ [true])
  /\ Time.minuteCycle 10 100.
Proof. apply (count_minute_cycle 10 100); lia. Defined.

(** C3 as stated fails with no minute left: the guard [self.min != 0] keeps
    [count] from signalling, and [sec] ends below zero. *)
Lemma minute_cycle_fails_at_zero_minutes : ~ Time.minuteCycle 10 0.
Proof.
  intros (c' & flags & Hrun & Hocc & _).
  vm_compute in Hrun. injection Hrun as <- <-. vm_compute in Hocc. discriminate.
Qed.

(** With more than 100 ticks per minute [100 // speed] is 0 and the clock
    never moves. *)
Lemma count_speed_over_100 (c : Time.t) :
  100 < Time.speed c -> Time.sec c = 0 -> Time.count c = Ok (c, false).
Proof.
  intros Hs H0. unfold Time.count. rewrite floordiv_pos by lia.
  cbn [bind]. rewrite (Z.div_small 100) by lia. rewrite H0. cbn.
  destruct c; cbn in *; subst; reflexivity.
Qed.

(** C10, as amended: the first [count] of a fresh clock with minutes to run
    and a speed from 1 to 100 returns [True], takes one minute off and
    sets [sec] to [(100 // speed) * (speed - 1)]. *)
Theorem first_count_fires (start speed : Z) :
  0 < start -> 0 < speed <= 100 -> Time.firstTickFires start speed.
Proof.
  intros Hstart Hs. unfold Time.firstTickFires, Time.init.
  apply count_crossing; lia.
Qed.

Lemma first_count_fires_witness : Time.firstTickFires 100 10.
Proof. apply (first_count_fires 100 10); lia. Defined.

(** C10 as stated fails for a speed above 100: the first tick returns
    [False] and the clock is unchanged. *)
Lemma first_count_silent_at_speed_101 : ~ Time.firstTickFires 1 101.
Proof. unfold Time.firstTickFires. vm_compute. discriminate. Qed.

End TimeFacts.

(** ** Floats: comparisons, truncation and the angles used below *)

Section FloatFacts.
Local Open Scope R_scope.

Lemma ltR_true (a b : R) : a < b -> ltR a b = true.
Proof. intros H. unfold ltR. destruct (Rlt_dec a b); [reflexivity | contradiction]. Qed.

Lemma ltR_false (a b : R) : b <= a -> ltR a b = false.
Proof. intros H. unfold ltR. destruct (Rlt_dec a b); [lra | reflexivity]. Qed.

Lemma leR_true (a b : R) : a <= b -> leR a b = true.
Proof. intros H. unfold leR. destruct (Rle_dec a b); [reflexivity | contradiction]. Qed.

Lemma leR_false (a b : R) : b < a -> leR a b = false.
Proof. intros H. unfold leR. destruct (Rle_dec a b); [lra | reflexivity]. Qed.

Lemma eqR_true (a b : R) : a = b -> eqR a b = true.
Proof. intros H. unfold eqR. destruct (Req_dec_T a b); [reflexivity | contradiction]. Qed.

Lemma eqR_false (a b : R) : a <> b -> eqR a b = false.
Proof. intros H. unfold eqR. destruct (Req_dec_T a b); [contradiction | reflexivity]. Qed.

Lemma int_IZR (z : Z) : int (IZR z) = z.
Proof.
  unfold int. destruct (Rlt_dec (IZR z) 0).
  - apply Zceil_eq. lra.
  - apply ZfloorZ.
Qed.

Lemma int_nonneg (z : Z) (r : R) : IZR z <= r < IZR z + 1 -> 0 <= r -> int r = z.
Proof.
  intros H H0. unfold int. destruct (Rlt_dec r 0); [lra|].
  apply Zfloor_eq. exact H.
Qed.

Lemma truediv_ok (a b : R) : b <> 0 -> truediv a b = Ok (a / b).
Proof. intros H. unfold truediv. rewrite eqR_false by exact H. reflexivity. Qed.

Lemma radians_90 : radians 90 = PI / 2.
Proof. unfold radians. lra. Qed.

Lemma radians_opp (d : R) : radians (- d) = - radians d.
Proof. unfold radians. lra. Qed.

Lemma radians_minus_90 : radians (-90) = - (PI / 2).
Proof. unfold radians. lra. Qed.

(** The direction of the ray at -90 degrees. *)
Lemma trig_minus_90 : cos (radians (-90)) = 0 /\ sin (radians (-90)) = -1.
Proof.
  rewrite radians_minus_90, cos_neg, sin_neg, cos_PI2, sin_PI2. split; reflexivity.
Qed.

(** The direction of the ray at 90 degrees. *)
Lemma trig_90 : cos (radians 90) = 0 /\ sin (radians 90) = 1.
Proof. rewrite radians_90, cos_PI2, sin_PI2. split; reflexivity. Qed.

Lemma PI_gt_3 : 3 < PI.
Proof. pose proof PI2_3_2. lra. Qed.

Lemma degrees_radians (d : R) : degrees (radians d) = d.
Proof. unfold degrees, radians. pose proof PI_gt_3. field. lra. Qed.

(** The angle of a vector that points straight up the screen. *)
Lemma getAngle_up (r : R) : r < 0 -> Vec2D.getAngle (Vec2D.mk 0 r) = -90.
Proof.
  intros Hr. unfold Vec2D.getAngle, atan2. cbn [Vec2D.x Vec2D.y].
  destruct (Rlt_dec 0 0); [lra|].
  destruct (Rlt_dec 0 r); [lra|].
  destruct (Rlt_dec r 0); [|lra].
  unfold degrees. pose proof PI_gt_3. field. lra.
Qed.

End FloatFacts.

(** ** Vec2D.rotate *)

Section RotateFacts.
Local Open Scope R_scope.

(** What [rotate] computes: the second component is built from the first
    component after its update. *)
Lemma rotate_components (v : Vec2D.t) (a : R) :
  Vec2D.rotate v a
  = Vec2D.mk
      (Vec2D.x v * cos (radians (- a)) - Vec2D.y v * sin (radians (- a)))
      ((Vec2D.x v * cos (radians (- a)) - Vec2D.y v * sin (radians (- a)))
       * sin (radians (- a))
       + Vec2D.y v * cos (radians (- a))).
Proof. reflexivity. Qed.

(** The rotation matrix keeps the magnitude. *)
Lemma rotation_magnitude (v : Vec2D.t) (a : R) :
  Vec2D.getMagnitude (Vec2D.rotation v a) = Vec2D.getMagnitude v.
Proof.
  unfold Vec2D.getMagnitude, Vec2D.rotation. cbn [Vec2D.x Vec2D.y].
  f_equal.
  pose proof (sin2_cos2 (radians (- a))) as H. unfold Rsqr in H.
  set (s := sin (radians (- a))) in *. set (c := cos (radians (- a))) in *.
  transitivity ((Vec2D.x v ^ 2 + Vec2D.y v ^ 2) * (s * s + c * c)); [ring|].
  rewrite H. ring.
Qed.

(** C7: [rotate] at the vector (1, 0) and the angle 90. The source gives the
    null vector, of magnitude 0, where the rotation matrix gives (0, -1), of
    magnitude 1: the second component is not computed from the original
    first component and the magnitude is not kept. *)
Theorem rotate_quarter_turn_collapses :
  Vec2D.rotate (Vec2D.mk 1 0) 90 = Vec2D.mk 0 0
  /\ Vec2D.rotation (Vec2D.mk 1 0) 90 = Vec2D.mk 0 (-1)
  /\ Vec2D.getMagnitude (Vec2D.rotate (Vec2D.mk 1 0) 90) = 0
  /\ Vec2D.getMagnitude (Vec2D.mk 1 0) = 1.
Proof.
  assert (Hc : cos (radians (Ropp 90)) = 0).
  { rewrite radians_opp, radians_90, cos_neg. apply cos_PI2. }
  assert (Hs : sin (radians (Ropp 90)) = -1).
  { rewrite radians_opp, radians_90, sin_neg, sin_PI2. reflexivity. }
  assert (Hrot : Vec2D.rotate (Vec2D.mk 1 0) 90 = Vec2D.mk 0 0).
  { rewrite rotate_components. cbn [Vec2D.x Vec2D.y]. rewrite Hc, Hs.
    f_equal; ring. }
  repeat split.
  - exact Hrot.
  - unfold Vec2D.rotation. cbn [Vec2D.x Vec2D.y]. rewrite Hc, Hs.
    f_equal; ring.
  - rewrite Hrot. unfold Vec2D.getMagnitude. cbn [Vec2D.x Vec2D.y].
    replace (0 ^ 2 + 0 ^ 2) with 0 by ring. apply sqrt_0.
  - unfold Vec2D.getMagnitude. cbn [Vec2D.x Vec2D.y].
    replace (1 ^ 2 + 0 ^ 2) with 1 by ring. apply sqrt_1.
Qed.

End RotateFacts.

(** ** The loop of fastCastRay, one execution of the body at a time *)

Section LoopFacts.
Local Open Scope R_scope.

Variables (app : App) (grid2D : list (list Z)).
Variables (deltaDistX deltaDistY : R) (stepX : Z) (stepY : option Z).

Lemma castLoop_stop (fuel : nat) (st : Cast) :
  loopCondition app grid2D st = Ok false ->
  castLoop fuel app grid2D deltaDistX deltaDistY stepX stepY st = Some (Ok st).
Proof. intros H. destruct fuel; cbn [castLoop]; rewrite H; reflexivity. Qed.

Lemma castLoop_stepX (fuel : nat) (st : Cast) :
  loopCondition app grid2D st = Ok true ->
  sideDistX st < sideDistY st ->
  castLoop (S fuel) app grid2D deltaDistX deltaDistY stepX stepY st
  = castLoop fuel app grid2D deltaDistX deltaDistY stepX stepY
      (mkCast (mapX st + stepX) (mapY st)
         (sideDistX st + deltaDistX) (sideDistY st) 0 (S (iterations st))).
Proof.
  intros H Hlt. cbn [castLoop]. rewrite H, ltR_true by exact Hlt. reflexivity.
Qed.

Lemma castLoop_stepY (fuel : nat) (st : Cast) (sy : Z) :
  stepY = Some sy ->
  loopCondition app grid2D st = Ok true ->
  sideDistY st <= sideDistX st ->
  castLoop (S fuel) app grid2D deltaDistX deltaDistY stepX stepY st
  = castLoop fuel app grid2D deltaDistX deltaDistY stepX stepY
      (mkCast (mapX st) (mapY st + sy)
         (sideDistX st) (sideDistY st + deltaDistY) 1 (S (iterations st))).
Proof.
  intros Hsy H Hle. cbn [castLoop]. rewrite H, ltR_false by exact Hle.
  rewrite Hsy. reflexivity.
Qed.

Lemma castLoop_unbound (fuel : nat) (st : Cast) :
  stepY = None ->
  loopCondition app grid2D st = Ok true ->
  sideDistY st <= sideDistX st ->
  castLoop (S fuel) app grid2D deltaDistX deltaDistY stepX stepY st
  = Some (Raise UnboundLocalError).
Proof.
  intros Hsy H Hle. cbn [castLoop]. rewrite H, ltR_false by exact Hle.
  rewrite Hsy. reflexivity.
Qed.

End LoopFacts.

(** ** The ray straight up from the start position *)

Section StraightUp.
Local Open Scope R_scope.

Lemma playerPos_onAppStart : playerPos onAppStart = Vec2D.mk 3 5.
Proof. cbn. f_equal; lra. Qed.

Lemma map_onAppStart : map onAppStart = Map.init.
Proof. reflexivity. Qed.

(** The step length along an axis the ray hardly moves on. *)
Lemma deltaDist_flat (d : R) :
  0 <= d <= 1 / 5 -> 5 <= (if eqR d 0 then 1e30 else Rabs (1 / d)).
Proof.
  intros [H0 H1]. unfold eqR. destruct (Req_dec_T d 0) as [E|E]; [lra|].
  assert (Hd : 0 < d) by lra.
  rewrite Rabs_right.
  - unfold Rdiv. rewrite Rmult_1_l.
    replace 5 with (/ (1 / 5)) by lra.
    apply Rinv_le_contravar; lra.
  - apply Rle_ge. apply Rlt_le. apply Rdiv_lt_0_compat; lra.
Qed.

Lemma deltaDist_unit :
  (if eqR (-1) 0 then 1e30 else Rabs (1 / -1)) = 1.
Proof.
  rewrite eqR_false by lra.
  replace (1 / -1) with (- (1)) by lra. rewrite Rabs_Ropp. apply Rabs_R1.
Qed.

(** In the reference map, from (3.0, 5.0), a ray whose direction is (dx, -1)
    with [0 <= dx <= 1/5] climbs the four open rows above the player and
    stops at the wall of row 0. [dx = 0] is the cosine of -90 degrees; the
    float the source computes for it is about 6e-17. *)
Lemma castDir_straight_up (fuel : nat) (dx : R) :
  (5 <= fuel)%nat -> 0 <= dx <= 1 / 5 ->
  castDir fuel onAppStart Map.grid dx (-1) = Some (Ok (mkHit 4 1 3 0 5)).
Proof.
  intros Hfuel Hdx. unfold castDir.
  rewrite playerPos_onAppStart. cbn [Vec2D.x Vec2D.y].
  rewrite !int_IZR, deltaDist_unit.
  pose proof (deltaDist_flat dx Hdx) as HD.
  set (D := if eqR dx 0 then 1e30 else Rabs (1 / dx)) in *.
  rewrite (ltR_false dx 0) by lra. rewrite (ltR_true (-1) 0) by lra.
  destruct fuel as [|[|[|[|[|fuel]]]]]; try lia.
  assert (Hgo : forall (my : Z) a b s i, (1 <= my <= 5)%Z ->
            loopCondition onAppStart Map.grid (mkCast 3 my a b s i) = Ok true).
  { intros my a b s i Hmy. unfold loopCondition, inGrid.
    assert (Hc : my = 1%Z \/ my = 2%Z \/ my = 3%Z \/ my = 4%Z \/ my = 5%Z) by lia.
    destruct Hc as [->|[->|[->|[->| ->]]]]; reflexivity. }
  rewrite (castLoop_stepY _ _ _ _ _ _ _ _ (-1)%Z eq_refl);
    [| apply Hgo; lia | cbn [sideDistX sideDistY]; lra].
  cbn [mapX mapY sideDistX sideDistY iterations Z.add Z.pos_sub Pos.pred_double].
  rewrite (castLoop_stepY _ _ _ _ _ _ _ _ (-1)%Z eq_refl);
    [| apply Hgo; lia | cbn [sideDistX sideDistY]; lra].
  cbn [mapX mapY sideDistX sideDistY iterations Z.add Z.pos_sub Pos.pred_double].
  rewrite (castLoop_stepY _ _ _ _ _ _ _ _ (-1)%Z eq_refl);
    [| apply Hgo; lia | cbn [sideDistX sideDistY]; lra].
  cbn [mapX mapY sideDistX sideDistY iterations Z.add Z.pos_sub Pos.pred_double].
  rewrite (castLoop_stepY _ _ _ _ _ _ _ _ (-1)%Z eq_refl);
    [| apply Hgo; lia | cbn [sideDistX sideDistY]; lra].
  cbn [mapX mapY sideDistX sideDistY iterations Z.add Z.pos_sub Pos.pred_double].
  rewrite (castLoop_stepY _ _ _ _ _ _ _ _ (-1)%Z eq_refl);
    [| apply Hgo; lia | cbn [sideDistX sideDistY]; lra].
  cbn [mapX mapY sideDistX sideDistY iterations Z.add Z.pos_sub Pos.pred_double].
  rewrite castLoop_stop by reflexivity.
  cbn [side mapX mapY sideDistX sideDistY iterations Z.eqb].
  do 2 f_equal. f_equal. lra.
Qed.

(** C1: in the reference map, with the player at (3.0, 5.0), the ray cast at
    the facing angle of -90 degrees stops at the wall cell of row 0 and
    column 3 after five executions of the loop body, the last crossing on
    the Y axis ([side = 1]), at the distance 4. *)
Theorem fastCastRay_facing_distance_4 (fuel : nat) :
  (5 <= fuel)%nat ->
  castRay fuel onAppStart (Map.list (map onAppStart)) (-90)
  = Some (Ok (mkHit 4 1 3 0 5))
  /\ isWallHit onAppStart (Map.list (map onAppStart)) (mkHit 4 1 3 0 5)
  /\ Vec2D.getAngle (playerDir onAppStart) = -90.
Proof.
  intros Hfuel. split; [|split].
  - unfold castRay. destruct trig_minus_90 as [-> ->].
    apply castDir_straight_up; [exact Hfuel | lra].
  - unfold isWallHit. cbn [hitX hitY]. rewrite map_onAppStart.
    split; [cbn; lia|]. split; [cbn; lia|].
    exists 1%Z. split; [reflexivity | lia].
  - cbn [onAppStart reset playerDir set_playerDir].
    replace 0.0 with 0 by lra. apply getAngle_up. lra.
Qed.

Lemma fastCastRay_facing_distance_4_witness :
  castRay 14 onAppStart (Map.list (map onAppStart)) (-90)
  = Some (Ok (mkHit 4 1 3 0 5))
  /\ isWallHit onAppStart (Map.list (map onAppStart)) (mkHit 4 1 3 0 5)
  /\ Vec2D.getAngle (playerDir onAppStart) = -90.
Proof. apply (fastCastRay_facing_distance_4 14). lia. Defined.

End StraightUp.

(** ** Termination of the loop of fastCastRay *)

Section Termination.
Local Open Scope R_scope.

Variables (app : App) (grid2D : list (list Z)).
Variables (deltaDistX deltaDistY : R) (stepX : Z) (stepY : option Z).
Hypothesis stepX_unit : stepX = 1%Z \/ stepX = (-1)%Z.
Hypothesis stepY_up : stepY = None \/ stepY = Some (-1)%Z.

Lemma loopCondition_true_inGrid (st : Cast) :
  loopCondition app grid2D st = Ok true -> inGrid app st = true.
Proof.
  unfold loopCondition. destruct (inGrid app st); [reflexivity | discriminate].
Qed.

Lemma inGrid_bounds (st : Cast) :
  inGrid app st = true ->
  (0 <= mapX st < Map.cols (map app) /\ 0 <= mapY st < Map.rows (map app))%Z.
Proof.
  unfold inGrid. rewrite !andb_true_iff, !Z.leb_le, !Z.ltb_lt. lia.
Qed.

Lemma room_pos (st : Cast) : inGrid app st = true -> (1 <= room app stepX st)%nat.
Proof.
  intros H. apply inGrid_bounds in H. unfold room.
  destruct stepX_unit as [-> | ->]; cbn [Z.eqb Pos.eqb]; lia.
Qed.

Lemma room_stepX (st : Cast) a b s i :
  inGrid app st = true ->
  room app stepX (mkCast (mapX st + stepX) (mapY st) a b s i)
  = (room app stepX st - 1)%nat.
Proof.
  intros H. apply inGrid_bounds in H. unfold room. cbn [mapX mapY].
  destruct stepX_unit as [-> | ->]; cbn [Z.eqb Pos.eqb]; lia.
Qed.

Lemma room_stepY (st : Cast) a b s i :
  inGrid app st = true ->
  room app stepX (mkCast (mapX st) (mapY st + -1) a b s i)
  = (room app stepX st - 1)%nat.
Proof.
  intros H. apply inGrid_bounds in H. unfold room. cbn [mapX mapY].
  destruct stepX_unit as [-> | ->]; cbn [Z.eqb Pos.eqb]; lia.
Qed.

(** With as much fuel as the ray has room, the loop comes to an end, and the
    body is executed no more often than there is room. *)
Lemma castLoop_bounded (fuel : nat) : forall st : Cast,
  (inGrid app st = true -> (room app stepX st <= fuel)%nat) ->
  exists r,
    castLoop fuel app grid2D deltaDistX deltaDistY stepX stepY st = Some r
    /\ forall st', r = Ok st' ->
         (iterations st' <= iterations st
            + (if inGrid app st then room app stepX st else 0))%nat.
Proof.
  induction fuel as [|fuel IH]; intros st Hroom.
  - cbn [castLoop]. destruct (loopCondition app grid2D st) as [[|]|e] eqn:Hc.
    + pose proof (loopCondition_true_inGrid st Hc) as Hin.
      pose proof (room_pos st Hin). specialize (Hroom Hin). lia.
    + eexists. split; [reflexivity|]. intros st' [= <-]. lia.
    + eexists. split; [reflexivity|]. intros st' [=].
  - cbn [castLoop]. destruct (loopCondition app grid2D st) as [[|]|e] eqn:Hc.
    + pose proof (loopCondition_true_inGrid st Hc) as Hin.
      pose proof (room_pos st Hin) as Hpos. specialize (Hroom Hin).
      rewrite Hin.
      destruct (ltR (sideDistX st) (sideDistY st)).
      * set (st1 := mkCast (mapX st + stepX) (mapY st)
                      (sideDistX st + deltaDistX) (sideDistY st) 0
                      (S (iterations st))).
        assert (Hr1 : room app stepX st1 = (room app stepX st - 1)%nat)
          by (apply room_stepX; exact Hin).
        destruct (IH st1) as (r & Hrun & Hit); [intros _; lia|].
        exists r. split; [exact Hrun|]. intros st' E.
        specialize (Hit st' E). cbn [iterations st1] in Hit.
        destruct (inGrid app st1); lia.
      * destruct stepY_up as [-> | ->].
        -- eexists. split; [reflexivity|]. intros st' [=].
        -- set (st1 := mkCast (mapX st) (mapY st + -1)
                         (sideDistX st) (sideDistY st + deltaDistY) 1
                         (S (iterations st))).
           assert (Hr1 : room app stepX st1 = (room app stepX st - 1)%nat)
             by (apply room_stepY; exact Hin).
           destruct (IH st1) as (r & Hrun & Hit); [intros _; lia|].
           exists r. split; [exact Hrun|]. intros st' E.
           specialize (Hit st' E). cbn [iterations st1] in Hit.
           destruct (inGrid app st1); lia.
    + eexists. split; [reflexivity|]. intros st' [= <-]. lia.
    + eexists. split; [reflexivity|]. intros st' [=].
Qed.

(** A ray that starts inside the grid has room for fewer than [rows + cols]
    executions of the body. *)
Lemma room_start (st : Cast) :
  inGrid app st = true ->
  (room app stepX st <= Z.to_nat (Map.rows (map app) + Map.cols (map app)))%nat.
Proof.
  intros H. apply inGrid_bounds in H. unfold room.
  destruct stepX_unit as [-> | ->]; cbn [Z.eqb Pos.eqb]; lia.
Qed.

End Termination.

Section RayTermination.
Local Open Scope R_scope.

(** For every map, position and direction, [rows + cols] executions of the
    loop body are enough for the loop of [fastCastRay] to come to an end: it
    is left in the regular way or by an exception. *)
Lemma castDir_terminates (app : App) (grid2D : list (list Z)) (dx dy : R) :
  exists r,
    castDir (Z.to_nat (Map.rows (map app) + Map.cols (map app)))
      app grid2D dx dy = Some r
    /\ forall h, r = Ok h ->
         (steps h <= Z.to_nat (Map.rows (map app) + Map.cols (map app)))%nat.
Proof.
  unfold castDir.
  set (dX := if eqR dx 0 then 1e30 else Rabs (1 / dx)).
  set (dY := if eqR dy 0 then 1e30 else Rabs (1 / dy)).
  set (fuel := Z.to_nat (Map.rows (map app) + Map.cols (map app))).
  assert (Hgen : forall sx sy st0,
            sx = 1%Z \/ sx = (-1)%Z -> sy = None \/ sy = Some (-1)%Z ->
            iterations st0 = O ->
            exists r,
              match castLoop fuel app grid2D dX dY sx sy st0 with
              | None => None
              | Some (Raise e) => Some (Raise e)
              | Some (Ok st) =>
                  Some (Ok (mkHit
                    (if (side st =? 0)%Z then sideDistX st - dX
                     else sideDistY st - dY)
                    (side st) (mapX st) (mapY st) (iterations st)))
              end = Some r
              /\ forall h, r = Ok h -> (steps h <= fuel)%nat).
  { intros sx sy st0 Hsx Hsy Hit0.
    destruct (castLoop_bounded app grid2D dX dY sx sy Hsx Hsy fuel st0)
      as (r & Hrun & Hit).
    - intros Hin. apply room_start; assumption.
    - rewrite Hrun. destruct r as [st|e].
      + eexists. split; [reflexivity|]. intros h [= <-]. cbn [steps].
        specialize (Hit st eq_refl). rewrite Hit0 in Hit.
        destruct (inGrid app st0) eqn:Hin; [|lia].
        pose proof (room_start app sx Hsx st0 Hin). fold fuel in H. lia.
      + eexists. split; [reflexivity|]. intros h [=]. }
  destruct (ltR dx 0), (ltR dy 0); apply Hgen; auto.
Qed.

(** C9, at the start position of the reference map and the angle 90: the
    ray does not point up, [stepY] was never assigned, and the first
    execution of the loop body raises [UnboundLocalError]; the loop ends
    with neither a wall reached nor the grid left. *)
Theorem fastCastRay_down_raises_unbound (fuel : nat) :
  castRay (S fuel) onAppStart (Map.list (map onAppStart)) 90
  = Some (Raise UnboundLocalError)
  /\ fastCastRay (S fuel) onAppStart (Map.list (map onAppStart)) 90
     = Some (Raise UnboundLocalError).
Proof.
  assert (H : castRay (S fuel) onAppStart (Map.list (map onAppStart)) 90
              = Some (Raise UnboundLocalError)).
  { unfold castRay. destruct trig_90 as [-> ->]. unfold castDir.
    rewrite playerPos_onAppStart. cbn [Vec2D.x Vec2D.y].
    rewrite !int_IZR.
    rewrite (eqR_true 0 0) by reflexivity. rewrite (eqR_false 1 0) by lra.
    rewrite (ltR_false 0 0) by lra. rewrite (ltR_false 1 0) by lra.
    rewrite castLoop_unbound; [reflexivity | reflexivity | reflexivity |].
    cbn [sideDistX sideDistY].
    replace (1 / 1) with 1 by lra. rewrite Rabs_R1. lra. }
  split; [exact H|]. unfold fastCastRay. rewrite H. reflexivity.
Qed.

End RayTermination.

(** ** The field of view *)

Section FieldOfView.
Local Open Scope R_scope.

(** The arc tangent lies below its argument. *)
Lemma atan_lt_x (x : R) : 0 < x -> atan x < x.
Proof.
  intros Hx.
  destruct (MVT_cor2 atan (fun c => / (1 + c ^ 2)) 0 x Hx) as (c & Hc & Hc0).
  - intros c _. apply derivable_pt_lim_atan.
  - rewrite atan_0 in Hc.
    assert (H1 : / (1 + c ^ 2) < 1).
    { rewrite <- Rinv_1 at 2. apply Rinv_lt_contravar; nra. }
    nra.
Qed.

(** The arc tangent of a large argument is close to a right angle. *)
Lemma atan_gt_inv (x : R) : 0 < x -> PI / 2 - / x < atan x.
Proof.
  intros Hx. pose proof (atan_inv x Hx) as H.
  pose proof (atan_lt_x (/ x) (Rinv_0_lt_compat x Hx)). lra.
Qed.

Lemma getMagnitude_camera : Vec2D.getMagnitude (Vec2D.mk 0.0 0.66) = 0.66.
Proof.
  unfold Vec2D.getMagnitude. cbn [Vec2D.x Vec2D.y].
  replace (0.0 ^ 2 + 0.66 ^ 2) with (Rsqr 0.66) by (unfold Rsqr; lra).
  apply sqrt_Rsqr. lra.
Qed.

Lemma getMagnitude_playerDir : Vec2D.getMagnitude (Vec2D.mk 0.0 (-1.0)) = 1.
Proof.
  unfold Vec2D.getMagnitude. cbn [Vec2D.x Vec2D.y].
  replace (0.0 ^ 2 + (-1.0) ^ 2) with 1 by lra. apply sqrt_1.
Qed.

Lemma playerFOV_onAppStart : playerFOV onAppStart = degrees (2 * atan 0.66).
Proof.
  change (playerFOV onAppStart)
    with (degrees (2 * atan (Vec2D.getMagnitude (Vec2D.mk 0.0 0.66)
                             / Vec2D.getMagnitude (Vec2D.mk 0.0 (-1.0))))).
  rewrite getMagnitude_camera, getMagnitude_playerDir.
  do 3 f_equal. lra.
Qed.

(** The field of view is positive and below 80 degrees (it is about 66.8). *)
Lemma fov_value_bounds : 0 < degrees (2 * atan 0.66) < 80.
Proof.
  unfold degrees.
  pose proof PI_gt_3 as Hpi.
  assert (H0 : 0 < atan 0.66).
  { rewrite <- atan_0. apply atan_increasing. lra. }
  assert (H1 : atan 0.66 < 0.66) by (apply atan_lt_x; lra).
  split.
  - apply Rdiv_lt_0_compat; lra.
  - apply (Rmult_lt_reg_r PI); [lra|].
    unfold Rdiv. rewrite Rmult_assoc, Rinv_l by lra. nra.
Qed.

Lemma playerFOV_bounds : 0 < playerFOV onAppStart < 80.
Proof. rewrite playerFOV_onAppStart. exact fov_value_bounds. Qed.

Lemma playerFOV_openColumn : playerFOV openColumn = degrees (2 * atan 0.66).
Proof.
  change (playerFOV openColumn)
    with (degrees (2 * atan (Vec2D.getMagnitude (Vec2D.mk 0.0 0.66)
                             / Vec2D.getMagnitude (Vec2D.mk 0.0 (-1.0))))).
  rewrite getMagnitude_camera, getMagnitude_playerDir.
  do 3 f_equal. lra.
Qed.

End FieldOfView.

(** ** drawWall *)

Section NoHit.
Local Open Scope R_scope.

(** A distance of [None] draws nothing. *)
Lemma drawWall_None (app : App) (angle : R) :
  playerFOV app <> 0 -> drawWall app None angle = Ok None.
Proof.
  intros Hfov. unfold drawWall. rewrite truediv_ok by exact Hfov.
  cbn [bind]. rewrite andb_false_r. reflexivity.
Qed.

End NoHit.

(** ** The light: arming and the view it is armed in *)

Section LightFacts.
Local Open Scope R_scope.

(** With [lightSpawn = 0.1] a dormant light is armed by the draws from 10
    on: [spawnLight] returns early when [lightSpawn * 100 > lightSpawnInt]. *)
Lemma arms_dormant (app : App) (n a : Z) :
  lightAngle app = None -> lightSpawn app = 0.1 ->
  arms app n a = (10 <=? n)%Z.
Proof.
  intros Hnone Hspawn. unfold arms, changeLight. rewrite Hnone.
  unfold spawnLight. cbn [lightSpawnInt lightAngleInt]. rewrite Hspawn.
  destruct (Z.leb_spec 10 n) as [Hle|Hlt].
  - rewrite ltR_false.
    + reflexivity.
    + apply IZR_le in Hle. lra.
  - rewrite ltR_true.
    + rewrite Hnone. reflexivity.
    + apply IZR_lt in Hlt. lra.
Qed.

(** C2, with [lightSpawn = 0.1] and the light dormant: 91 of the 100
    outcomes of [randint(1, 100)] arm the light, not 10; the draws below 10
    are the ones that leave it dormant. The armed angle is the second draw
    negated, between -150 and -30. *)
Theorem spawnLight_arms_91_of_100 (app : App) :
  lightAngle app = None -> lightSpawn app = 0.1 ->
  armingCount app = 91%nat
  /\ (forall d, validDraws d -> (lightSpawnInt d < 10)%Z ->
        changeLight d app = app)
  /\ (forall d, validDraws d -> (10 <= lightSpawnInt d)%Z ->
        lightAngle (changeLight d app) = Some (lightAngleInt d * -1)%Z
        /\ (-150 <= lightAngleInt d * -1 <= -30)%Z).
Proof.
  intros Hnone Hspawn. split; [|split].
  - unfold armingCount.
    rewrite (filter_ext _ (fun n => (10 <=? n)%Z)
               (fun n => arms_dormant app n 90 Hnone Hspawn)).
    vm_compute. reflexivity.
  - intros d _ Hlt. unfold changeLight. rewrite Hnone. unfold spawnLight.
    rewrite Hspawn, ltR_true; [reflexivity|]. apply IZR_lt in Hlt. lra.
  - intros d [_ Ha] Hle. split; [|lia].
    unfold changeLight. rewrite Hnone. unfold spawnLight.
    rewrite Hspawn, ltR_false; [reflexivity|]. apply IZR_le in Hle. lra.
Qed.

Lemma spawnLight_arms_91_of_100_witness :
  armingCount (resetLight onAppStart) = 91%nat
  /\ (forall d, validDraws d -> (lightSpawnInt d < 10)%Z ->
        changeLight d (resetLight onAppStart) = resetLight onAppStart)
  /\ (forall d, validDraws d -> (10 <= lightSpawnInt d)%Z ->
        lightAngle (changeLight d (resetLight onAppStart))
        = Some (lightAngleInt d * -1)%Z
        /\ (-150 <= lightAngleInt d * -1 <= -30)%Z).
Proof.
  apply (spawnLight_arms_91_of_100 (resetLight onAppStart)); reflexivity.
Defined.

(** [fixBoxPosition] leaves no hit box for a light outside the view cone. *)
Lemma fixBoxPosition_outside (app : App) (l : Z) :
  lightAngle app = Some l ->
  ~ inViewAt (Vec2D.getAngle (playerDir app)) (playerFOV app) (IZR l) ->
  hitBox (fixBoxPosition app) = None.
Proof.
  intros Hl Hout. unfold fixBoxPosition. rewrite Hl.
  unfold inViewAt in Hout.
  destruct (leR (Vec2D.getAngle (playerDir app) - playerFOV app / 2) (IZR l))
    eqn:E1; [|reflexivity].
  destruct (leR (IZR l) (Vec2D.getAngle (playerDir app) + playerFOV app / 2))
    eqn:E2; [|reflexivity].
  exfalso. apply Hout. unfold leR in E1, E2.
  destruct (Rle_dec _ _) in E1; [|discriminate].
  destruct (Rle_dec _ _) in E2; [|discriminate].
  split; assumption.
Qed.

(** The draws 100 and 30 arm a dormant light at -30 degrees. *)
Lemma spawnLight_minus_30 :
  validDraws (mkDraws 100 30)
  /\ lightAngle (spawnLight (mkDraws 100 30) (resetLight onAppStart))
     = Some (-30)%Z.
Proof.
  split; [unfold validDraws; cbn; lia|].
  unfold spawnLight. cbn [lightSpawnInt lightAngleInt].
  change (lightSpawn (resetLight onAppStart)) with 0.1.
  rewrite ltR_false by lra. reflexivity.
Qed.

(** The angle -30 lies to the right of every view cone whose facing angle is
    within the rotation bounds: half the field of view is less than 40
    degrees. *)
Lemma minus_30_out_of_span : ~ inRotationSpan onAppStart (-30).
Proof.
  pose proof playerFOV_bounds as [Hf0 Hf1].
  intros (facing & [_ Hb] & [_ Hv]). lra.
Qed.

End LightFacts.

(** ** The flags and the clock along a game *)

Section StepFacts.
Local Open Scope Z_scope.












End StepFacts.

(** ** Rotation: the angles of ten degrees *)

Section TenDegrees.
Local Open Scope R_scope.

(** The sine of a triple angle. *)
Lemma sin_3a (x : R) : sin (3 * x) = 3 * sin x - 4 * sin x ^ 3.
Proof.
  replace (3 * x) with (2 * x + x) by ring.
  rewrite sin_plus, sin_2a, cos_2a_sin.
  pose proof (sin2_cos2 x) as H. unfold Rsqr in H.
  replace (2 * sin x * cos x * cos x) with (2 * sin x * (cos x * cos x)) by ring.
  replace (cos x * cos x) with (1 - sin x * sin x) by lra. ring.
Qed.

(** The sine of 10 degrees is the root of [3 s - 4 s^3 = 1/2] between 0
    and 1/2. *)
Lemma sin_PI18_bounds : 0.17364 < sin (PI / 18) < 0.17365.
Proof.
  pose proof PI_gt_3 as Hpi. pose proof PI_4 as Hpi4.
  assert (H3 : 3 * sin (PI / 18) - 4 * sin (PI / 18) ^ 3 = 1 / 2).
  { rewrite <- sin_3a. replace (3 * (PI / 18)) with (PI / 6) by lra.
    apply sin_PI6. }
  assert (H0 : 0 < sin (PI / 18)) by (apply sin_gt_0; lra).
  assert (H1 : sin (PI / 18) < 1 / 2).
  { rewrite <- sin_PI6. apply sin_increasing_1; lra. }
  set (s := sin (PI / 18)) in *.
  split.
  - destruct (Rlt_le_dec 0.17364 s) as [H|H]; [exact H|exfalso].
    assert (0 <= (0.17364 - s) * (3 - 4 * (0.17364 ^ 2 + 0.17364 * s + s ^ 2))).
    { apply Rmult_le_pos; nra. }
    nra.
  - destruct (Rlt_le_dec s 0.17365) as [H|H]; [exact H|exfalso].
    assert (0 <= (s - 0.17365) * (3 - 4 * (0.17365 ^ 2 + 0.17365 * s + s ^ 2))).
    { apply Rmult_le_pos; nra. }
    nra.
Qed.

Lemma cos_PI18_bounds : 0.98480 < cos (PI / 18) < 0.98481.
Proof.
  pose proof PI_gt_3 as Hpi. pose proof PI_4 as Hpi4.
  pose proof sin_PI18_bounds as [Hs0 Hs1].
  pose proof (sin2_cos2 (PI / 18)) as H. unfold Rsqr in H.
  assert (Hc : 0 < cos (PI / 18)) by (apply cos_gt_0; lra).
  set (s := sin (PI / 18)) in *. set (c := cos (PI / 18)) in *.
  split; nra.
Qed.

(** The tangent of 20 degrees, from the sine and cosine of 10 degrees. *)
Lemma tan_PI9_gt : 0.36 < tan (PI / 9).
Proof.
  pose proof sin_PI18_bounds as [Hs0 Hs1].
  pose proof cos_PI18_bounds as [Hc0 Hc1].
  unfold tan. replace (PI / 9) with (2 * (PI / 18)) by lra.
  rewrite sin_2a, cos_2a_sin.
  set (s := sin (PI / 18)) in *. set (c := cos (PI / 18)) in *.
  assert (Hd : 0 < 1 - 2 * s * s) by nra.
  apply (Rmult_lt_reg_r (1 - 2 * s * s)); [exact Hd|].
  replace (2 * s * c / (1 - 2 * s * s) * (1 - 2 * s * s)) with (2 * s * c)
    by (field; lra).
  nra.
Qed.

Lemma radians_10 : radians 10 = PI / 18.
Proof. unfold radians. lra. Qed.

(** A left turn, [rotate(10)], in terms of the sine and cosine of 10
    degrees. *)
Lemma rotate_left_components (v : Vec2D.t) :
  Vec2D.rotate v 10
  = Vec2D.mk
      (Vec2D.x v * cos (PI / 18) + Vec2D.y v * sin (PI / 18))
      (Vec2D.y v * cos (PI / 18)
       - (Vec2D.x v * cos (PI / 18) + Vec2D.y v * sin (PI / 18))
         * sin (PI / 18)).
Proof.
  rewrite rotate_components, radians_opp, radians_10, cos_neg, sin_neg.
  f_equal; ring.
Qed.

(** A right turn, [rotate(-10)]. *)
Lemma rotate_right_components (v : Vec2D.t) :
  Vec2D.rotate v (-10)
  = Vec2D.mk
      (Vec2D.x v * cos (PI / 18) - Vec2D.y v * sin (PI / 18))
      ((Vec2D.x v * cos (PI / 18) - Vec2D.y v * sin (PI / 18))
         * sin (PI / 18)
       + Vec2D.y v * cos (PI / 18)).
Proof.
  rewrite rotate_components.
  replace (radians (- -10)) with (PI / 18) by (unfold radians; lra).
  reflexivity.
Qed.

End TenDegrees.

(** ** Rotation: the angle of a direction *)

Section Angles.
Local Open Scope R_scope.

Lemma degrees_lt (a b : R) : a < b -> degrees a < degrees b.
Proof.
  intros H. unfold degrees. pose proof PI_gt_3.
  apply Rmult_lt_compat_r; [apply Rinv_0_lt_compat; lra | lra].
Qed.

Lemma degrees_le (a b : R) : a <= b -> degrees a <= degrees b.
Proof.
  intros [H|H]; [left; apply degrees_lt; exact H | right; rewrite H; reflexivity].
Qed.

Lemma degrees_scale (k : R) : degrees (k * PI) = k * 180.
Proof. unfold degrees. pose proof PI_gt_3. field. lra. Qed.

Lemma atan_le (a b : R) : a <= b -> atan a <= atan b.
Proof.
  intros [H|H]; [left; apply atan_increasing; exact H | right; rewrite H; reflexivity].
Qed.

Lemma atan_sqrt3 : atan (sqrt 3) = PI / 3.
Proof.
  rewrite <- tan_PI3. apply atan_tan. pose proof PI_gt_3. lra.
Qed.

Lemma atan_PI6 : atan (/ sqrt 3) = PI / 6.
Proof.
  replace (/ sqrt 3) with (tan (PI / 6)).
  - apply atan_tan. pose proof PI_gt_3. lra.
  - rewrite tan_PI6. unfold Rdiv. ring.
Qed.

Lemma sqrt3_bounds : 1.73 < sqrt 3 < 1.74.
Proof.
  split.
  - replace 1.73 with (sqrt (1.73 * 1.73)) by (apply sqrt_square; lra).
    apply sqrt_lt_1_alt. lra.
  - replace 1.74 with (sqrt (1.74 * 1.74)) by (apply sqrt_square; lra).
    apply sqrt_lt_1_alt. lra.
Qed.

Lemma atan_lt_PI9 (z : R) : z <= 0.36 -> atan z < PI / 9.
Proof.
  intros Hz. pose proof PI_gt_3.
  replace (PI / 9) with (atan (tan (PI / 9))) by (apply atan_tan; lra).
  apply atan_increasing. pose proof tan_PI9_gt. lra.
Qed.

(** The angle of a direction that points up and to the left. *)
Lemma getAngle_q3 (x y : R) :
  x < 0 -> y < 0 ->
  Vec2D.getAngle (Vec2D.mk x y) = degrees (atan (y / x) - PI).
Proof.
  intros Hx Hy. unfold Vec2D.getAngle, atan2. cbn [Vec2D.x Vec2D.y].
  destruct (Rlt_dec 0 x); [lra|].
  destruct (Rlt_dec x 0); [|lra].
  destruct (Rle_dec 0 y); [lra|]. reflexivity.
Qed.

(** The angle of a direction that points up and to the right. *)
Lemma getAngle_q4 (x y : R) :
  0 < x -> Vec2D.getAngle (Vec2D.mk x y) = degrees (atan (y / x)).
Proof.
  intros Hx. unfold Vec2D.getAngle, atan2. cbn [Vec2D.x Vec2D.y].
  destruct (Rlt_dec 0 x); [reflexivity | lra].
Qed.

Lemma ratio_q3 (x y k : R) : x < 0 -> k * x <= y -> y / x <= k.
Proof.
  intros Hx H.
  apply (Rmult_le_reg_r (- x)); [lra|].
  replace (y / x * - x) with (- y) by (field; lra). lra.
Qed.

(** Up and to the left, and steep: the check for a left turn passes. *)
Lemma getAngle_q3_gt (x y : R) :
  x < 0 -> y < 0 -> 23 * y <= 60 * x ->
  -113 < Vec2D.getAngle (Vec2D.mk x y).
Proof.
  intros Hx Hy Hk. rewrite getAngle_q3 by assumption.
  pose proof PI_gt_3 as Hpi.
  replace (-113) with (degrees ((-113 / 180) * PI))
    by (rewrite degrees_scale; lra).
  apply degrees_lt.
  assert (Hr : 60 / 23 <= y / x).
  { apply (Rmult_le_reg_r (- x)); [lra|].
    replace (y / x * - x) with (- y) by (field; lra). lra. }
  pose proof (atan_le _ _ Hr) as Hat.
  pose proof (atan_gt_inv (60 / 23)) as Hinv.
  assert (/ (60 / 23) = 23 / 60) by (field).
  lra.
Qed.

(** Up and to the left: the check for a right turn passes. *)
Lemma getAngle_q3_lt_90 (x y : R) :
  x < 0 -> y < 0 -> Vec2D.getAngle (Vec2D.mk x y) < -90.
Proof.
  intros Hx Hy. rewrite getAngle_q3 by assumption.
  replace (-90) with (degrees ((-1 / 2) * PI)) by (rewrite degrees_scale; lra).
  apply degrees_lt. pose proof (atan_bound (y / x)). lra.
Qed.

(** Up and to the left, between the diagonal and the slope 1.7. *)
Lemma getAngle_q3_range (x y : R) :
  x < 0 -> y <= x -> 1.7 * x <= y ->
  -135 <= Vec2D.getAngle (Vec2D.mk x y) <= -120.
Proof.
  intros Hx Hy Hk. rewrite getAngle_q3 by lra.
  pose proof PI_gt_3 as Hpi. pose proof sqrt3_bounds as [Hs _].
  assert (H1 : 1 <= y / x).
  { apply (Rmult_le_reg_r (- x)); [lra|].
    replace (y / x * - x) with (- y) by (field; lra). lra. }
  assert (H2 : y / x <= sqrt 3).
  { apply Rle_trans with 1.7; [|lra]. apply ratio_q3; lra. }
  pose proof (atan_le _ _ H1) as A1. rewrite atan_1 in A1.
  pose proof (atan_le _ _ H2) as A2. rewrite atan_sqrt3 in A2.
  replace (-135) with (degrees ((-3 / 4) * PI)) by (rewrite degrees_scale; lra).
  replace (-120) with (degrees ((-2 / 3) * PI)) by (rewrite degrees_scale; lra).
  split; apply degrees_le; lra.
Qed.

(** Up and to the right, and steep: the check for a right turn passes. *)
Lemma getAngle_q4_lt (x y : R) :
  0 < x -> y < 0 -> x <= 0.36 * - y ->
  Vec2D.getAngle (Vec2D.mk x y) < -70.
Proof.
  intros Hx Hy Hk. rewrite getAngle_q4 by assumption.
  pose proof PI_gt_3 as Hpi.
  replace (-70) with (degrees ((-7 / 18) * PI)) by (rewrite degrees_scale; lra).
  apply degrees_lt.
  set (z := x / - y).
  assert (Hz0 : 0 < z) by (apply Rdiv_lt_0_compat; lra).
  assert (Hz : z <= 0.36).
  { apply (Rmult_le_reg_r (- y)); [lra|]. unfold z.
    replace (x / - y * - y) with x by (field; lra). lra. }
  assert (E : y / x = - / z) by (unfold z; field; lra).
  rewrite E, atan_opp, (atan_inv z Hz0).
  pose proof (atan_lt_PI9 z Hz). lra.
Qed.

(** Up and to the right, between the diagonal and the slope 1.73. *)
Lemma getAngle_q4_range (x y : R) :
  0 < x -> x <= - y -> - y <= 1.73 * x ->
  -60 <= Vec2D.getAngle (Vec2D.mk x y) <= -45.
Proof.
  intros Hx Hy Hk. rewrite getAngle_q4 by assumption.
  pose proof PI_gt_3 as Hpi. pose proof sqrt3_bounds as [Hs _].
  assert (H1 : y / x <= -1).
  { apply (Rmult_le_reg_r x); [lra|].
    replace (y / x * x) with y by (field; lra). lra. }
  assert (H2 : - sqrt 3 <= y / x).
  { apply (Rmult_le_reg_r x); [lra|].
    replace (y / x * x) with y by (field; lra). nra. }
  pose proof (atan_le _ _ H1) as A1.
  replace (-1) with (- (1)) in A1 by lra. rewrite atan_opp, atan_1 in A1.
  pose proof (atan_le _ _ H2) as A2. rewrite atan_opp, atan_sqrt3 in A2.
  replace (-60) with (degrees ((-1 / 3) * PI)) by (rewrite degrees_scale; lra).
  replace (-45) with (degrees ((-1 / 4) * PI)) by (rewrite degrees_scale; lra).
  split; apply degrees_le; lra.
Qed.

(** Half the field of view is more than 30 degrees. *)
Lemma fov_value_gt_60 : 60 < degrees (2 * atan 0.66).
Proof.
  pose proof PI_gt_3 as Hpi. pose proof sqrt3_bounds as [Hs _].
  replace 60 with (degrees ((1 / 3) * PI)) by (rewrite degrees_scale; lra).
  apply degrees_lt.
  assert (H : atan (/ sqrt 3) < atan 0.66).
  { apply atan_increasing.
    apply (Rmult_lt_reg_r (sqrt 3)); [lra|].
    rewrite Rinv_l by lra. lra. }
  rewrite atan_PI6 in H. lra.
Qed.

Lemma playerFOV_half_bounds : 30 < playerFOV onAppStart / 2 < 40.
Proof.
  rewrite playerFOV_onAppStart.
  pose proof fov_value_gt_60. pose proof fov_value_bounds. lra.
Qed.

End Angles.

(** ** Rotation: the keys *)

Section RotationKeys.
Local Open Scope R_scope.

Lemma ltR_true_inv (a b : R) : ltR a b = true -> a < b.
Proof. unfold ltR. destruct (Rlt_dec a b); [auto | discriminate]. Qed.

(** What a left key does: the check is made on the direction as it is. *)
Lemma onKeyPress_left (key : string) (app : App) :
  key = "left"%string \/ key = "a"%string ->
  onKeyPress key app
  = if ltR (-113) (Vec2D.getAngle (playerDir app))
    then set_playerDir (Vec2D.rotate (playerDir app) 10) app else app.
Proof.
  intros [-> | ->]; unfold onKeyPress; cbv zeta;
    cbn [String.eqb Ascii.eqb Bool.eqb orb andb inBounds truthy];
    rewrite andb_false_r;
    destruct (ltR (-113) (Vec2D.getAngle (playerDir app))); reflexivity.
Qed.

(** What a right key does. *)
Lemma onKeyPress_right (key : string) (app : App) :
  key = "right"%string \/ key = "d"%string ->
  onKeyPress key app
  = if ltR (Vec2D.getAngle (playerDir app)) (-70)
    then set_playerDir (Vec2D.rotate (playerDir app) (-10)) app else app.
Proof.
  replace (-10) with (Ropp 10) by lra.
  intros [-> | ->]; unfold onKeyPress; cbv zeta;
    cbn [String.eqb Ascii.eqb Bool.eqb orb andb inBounds truthy];
    rewrite andb_false_r;
    destruct (ltR (Vec2D.getAngle (playerDir app)) (-70)); reflexivity.
Qed.

Lemma playerDir_onAppStart : playerDir onAppStart = Vec2D.mk 0 (-1).
Proof. cbn. f_equal; lra. Qed.

Lemma getAngle_onAppStart : Vec2D.getAngle (playerDir onAppStart) = -90.
Proof. rewrite playerDir_onAppStart. apply getAngle_up. lra. Qed.

(** A press of the left key in a state whose direction passes the check. *)
Lemma turn_left (app : App) (x y : R) :
  reachable app -> playerDir app = Vec2D.mk x y ->
  -113 < Vec2D.getAngle (Vec2D.mk x y) ->
  reachable (onKeyPress "left" app)
  /\ playerFOV (onKeyPress "left" app) = playerFOV app
  /\ playerDir (onKeyPress "left" app)
     = Vec2D.mk (x * cos (PI / 18) + y * sin (PI / 18))
         (y * cos (PI / 18)
          - (x * cos (PI / 18) + y * sin (PI / 18)) * sin (PI / 18)).
Proof.
  intros Hr Hd Ha. split.
  - apply (reachable_event (KeyPress "left") app _ Hr I). reflexivity.
  - rewrite (onKeyPress_left "left" app) by (left; reflexivity).
    rewrite Hd, ltR_true by exact Ha. cbn [playerFOV playerDir set_playerDir].
    rewrite rotate_left_components. split; reflexivity.
Qed.

(** A press of the right key in a state whose direction passes the check. *)
Lemma turn_right (app : App) (x y : R) :
  reachable app -> playerDir app = Vec2D.mk x y ->
  Vec2D.getAngle (Vec2D.mk x y) < -70 ->
  reachable (onKeyPress "right" app)
  /\ playerFOV (onKeyPress "right" app) = playerFOV app
  /\ playerDir (onKeyPress "right" app)
     = Vec2D.mk (x * cos (PI / 18) - y * sin (PI / 18))
         ((x * cos (PI / 18) - y * sin (PI / 18)) * sin (PI / 18)
          + y * cos (PI / 18)).
Proof.
  intros Hr Hd Ha. split.
  - apply (reachable_event (KeyPress "right") app _ Hr I). reflexivity.
  - rewrite (onKeyPress_right "right" app) by (left; reflexivity).
    rewrite Hd, ltR_true by exact Ha. cbn [playerFOV playerDir set_playerDir].
    rewrite rotate_right_components. split; reflexivity.
Qed.

(** Three presses of the left key from the start are all applied, their
    checks made at -90, about -100.3 and about -110.9 degrees; the state
    they end in faces between -135 and -120 degrees (about -121.7). *)
Lemma facingLeft_state :
  reachable facingLeft /\ playerFOV facingLeft = playerFOV onAppStart
  /\ -135 <= Vec2D.getAngle (playerDir facingLeft) <= -120.
Proof.
  pose proof sin_PI18_bounds as [Hs0 Hs1].
  pose proof cos_PI18_bounds as [Hc0 Hc1].
  change facingLeft
    with (onKeyPress "left" (onKeyPress "left" (onKeyPress "left" onAppStart))).
  destruct (turn_left onAppStart 0 (-1) reachable_start playerDir_onAppStart)
    as (R1 & F1 & D1); [rewrite getAngle_up; lra|].
  set (a1 := onKeyPress "left" onAppStart) in *.
  set (s := sin (PI / 18)) in *. set (c := cos (PI / 18)) in *.
  set (x1 := 0 * c + -1 * s) in D1. set (y1 := -1 * c - x1 * s) in D1.
  assert (Hx1 : -0.17365 < x1 < -0.17364) by (unfold x1; lra).
  assert (Hy1 : -0.95466 < y1 < -0.95464) by (unfold y1; nra).
  clearbody x1 y1.
  destruct (turn_left a1 x1 y1 R1 D1) as (R2 & F2 & D2);
    [apply getAngle_q3_gt; lra|].
  set (a2 := onKeyPress "left" a1) in *. fold s c in D2.
  set (x2 := x1 * c + y1 * s) in D2. set (y2 := y1 * c - x2 * s) in D2.
  assert (Hx2 : -0.3368 < x2 < -0.3367) by (unfold x2; nra).
  assert (Hy2 : -0.8817 < y2 < -0.8816) by (unfold y2; nra).
  clearbody x2 y2. clear Hx1 Hy1.
  destruct (turn_left a2 x2 y2 R2 D2) as (R3 & F3 & D3);
    [apply getAngle_q3_gt; lra|].
  set (a3 := onKeyPress "left" a2) in *. fold s c in D3.
  set (x3 := x2 * c + y2 * s) in D3. set (y3 := y2 * c - x3 * s) in D3.
  assert (Hx3 : -0.49 < x3 < -0.48) by (unfold x3; nra).
  assert (Hy3 : -0.79 < y3 < -0.78) by (unfold y3; nra).
  clearbody x3 y3. clear Hx2 Hy2.
  split; [exact R3|]. split; [congruence|].
  rewrite D3. apply getAngle_q3_range; lra.
Qed.

(** Left, left and five times right from the start are all applied: each of
    the five directions a right turn starts from is to the left of -70
    degrees, the last one at about -70.4. The state they end in faces
    between -60 and -45 degrees (about -59.6). *)
Lemma facingRight_state :
  reachable facingRight /\ playerFOV facingRight = playerFOV onAppStart
  /\ -60 <= Vec2D.getAngle (playerDir facingRight) <= -45.
Proof.
  pose proof sin_PI18_bounds as [Hs0 Hs1].
  pose proof cos_PI18_bounds as [Hc0 Hc1].
  change facingRight
    with (onKeyPress "right" (onKeyPress "right" (onKeyPress "right"
            (onKeyPress "right" (onKeyPress "right"
               (onKeyPress "left" (onKeyPress "left" onAppStart))))))).
  destruct (turn_left onAppStart 0 (-1) reachable_start playerDir_onAppStart)
    as (R1 & F1 & D1); [rewrite getAngle_up; lra|].
  set (a1 := onKeyPress "left" onAppStart) in *.
  set (s := sin (PI / 18)) in *. set (c := cos (PI / 18)) in *.
  set (x1 := 0 * c + -1 * s) in D1. set (y1 := -1 * c - x1 * s) in D1.
  assert (Hx1 : -0.17366 < x1 < -0.17363) by (unfold x1; lra).
  assert (Hy1 : -0.95467 < y1 < -0.95463) by (unfold y1; nra).
  clearbody x1 y1.
  destruct (turn_left a1 x1 y1 R1 D1) as (R2 & F2 & D2);
    [apply getAngle_q3_gt; lra|].
  set (a2 := onKeyPress "left" a1) in *. fold s c in D2.
  set (x2 := x1 * c + y1 * s) in D2. set (y2 := y1 * c - x2 * s) in D2.
  assert (Hx2 : -0.33682 < x2 < -0.33674) by (unfold x2; nra).
  assert (Hy2 : -0.88171 < y2 < -0.88162) by (unfold y2; nra).
  clearbody x2 y2. clear Hx1 Hy1.
  destruct (turn_right a2 x2 y2 R2 D2) as (R3 & F3 & D3);
    [pose proof (getAngle_q3_lt_90 x2 y2); lra|].
  set (a3 := onKeyPress "right" a2) in *. fold s c in D3.
  set (x3 := x2 * c - y2 * s) in D3. set (y3 := x3 * s + y2 * c) in D3.
  assert (Hx3 : -0.17863 < x3 < -0.17850) by (unfold x3; nra).
  assert (Hy3 : -0.89935 < y3 < -0.89920) by (unfold y3; nra).
  clearbody x3 y3. clear Hx2 Hy2.
  destruct (turn_right a3 x3 y3 R3 D3) as (R4 & F4 & D4);
    [pose proof (getAngle_q3_lt_90 x3 y3); lra|].
  set (a4 := onKeyPress "right" a3) in *. fold s c in D4.
  set (x4 := x3 * c - y3 * s) in D4. set (y4 := x4 * s + y3 * c) in D4.
  assert (Hx4 : -0.01979 < x4 < -0.01960) by (unfold x4; nra).
  assert (Hy4 : -0.88914 < y4 < -0.88892) by (unfold y4; nra).
  clearbody x4 y4. clear Hx3 Hy3.
  destruct (turn_right a4 x4 y4 R4 D4) as (R5 & F5 & D5);
    [pose proof (getAngle_q3_lt_90 x4 y4); lra|].
  set (a5 := onKeyPress "right" a4) in *. fold s c in D5.
  set (x5 := x4 * c - y4 * s) in D5. set (y5 := x5 * s + y4 * c) in D5.
  assert (Hx5 : 0.13485 < x5 < 0.13511) by (unfold x5; nra).
  assert (Hy5 : -0.85223 < y5 < -0.85193) by (unfold y5; nra).
  clearbody x5 y5. clear Hx4 Hy4.
  destruct (turn_right a5 x5 y5 R5 D5) as (R6 & F6 & D6);
    [apply getAngle_q4_lt; lra|].
  set (a6 := onKeyPress "right" a5) in *. fold s c in D6.
  set (x6 := x5 * c - y5 * s) in D6. set (y6 := x6 * s + y5 * c) in D6.
  assert (Hx6 : 0.28071 < x6 < 0.28106) by (unfold x6; nra).
  assert (Hy6 : -0.79055 < y6 < -0.79016) by (unfold y6; nra).
  clearbody x6 y6. clear Hx5 Hy5.
  destruct (turn_right a6 x6 y6 R6 D6) as (R7 & F7 & D7);
    [apply getAngle_q4_lt; lra|].
  set (a7 := onKeyPress "right" a6) in *. fold s c in D7.
  set (x7 := x6 * c - y6 * s) in D7. set (y7 := x7 * s + y6 * c) in D7.
  assert (Hx7 : 0.41363 < x7 < 0.41408) by (unfold x7; nra).
  assert (Hy7 : -0.70673 < y7 < -0.70623) by (unfold y7; nra).
  clearbody x7 y7. clear Hx6 Hy6.
  split; [exact R7|]. split; [congruence|].
  rewrite D7. apply getAngle_q4_range; lra.
Qed.




End RotationKeys.

(** ** The angles the light is armed with, and the views the player reaches *)

Section SpawnRange.
Local Open Scope R_scope.

(** C8 as stated fails at the angle -30, which the draws 100 and 30 arm the
    light with: it is in no view cone whose facing angle is inside the
    interval from -113 to -70. *)
Lemma spawn_range_exceeds_span : ~ spawnRangeInSpan.
Proof.
  intros H. apply minus_30_out_of_span. apply H. lia.
Qed.

(** C8, as amended: every angle from -150 to -30 is inside the view cone of
    a state the player reaches with the rotation keys: the start state
    (facing -90), the state after three left presses (facing about -121.7)
    or the state after two left and five right presses (facing about
    -59.6). The last two facing angles are outside the interval that
    [inBounds] checks, which the check before the turn allows. *)
Theorem spawn_range_in_reachable_views (a : Z) :
  (-150 <= a <= -30)%Z ->
  reachable facingLeft /\ reachable facingRight
  /\ (inView facingLeft a \/ inView onAppStart a \/ inView facingRight a)
  /\ exists app, reachable app /\ inView app a.
Proof.
  intros [Hlo Hhi]. apply IZR_le in Hlo, Hhi.
  pose proof playerFOV_half_bounds as [Hh0 Hh1].
  destruct facingLeft_state as (RL & FL & AL).
  destruct facingRight_state as (RR & FR & AR).
  split; [exact RL|]. split; [exact RR|].
  assert (Hcases : inView facingLeft a \/ inView onAppStart a
                   \/ inView facingRight a).
  { unfold inView, inViewAt. rewrite FL, FR, getAngle_onAppStart.
    destruct (Rle_dec (IZR a) (-120)) as [H1|H1]; [left; lra|].
    destruct (Rle_dec (IZR a) (-60)) as [H2|H2]; [right; left; lra|].
    right; right; lra. }
  split; [exact Hcases|].
  destruct Hcases as [H|[H|H]].
  - exists facingLeft. split; assumption.
  - exists onAppStart. split; [exact reachable_start | exact H].
  - exists facingRight. split; assumption.
Qed.

Lemma spawn_range_in_reachable_views_witness :
  reachable facingLeft /\ reachable facingRight
  /\ (inView facingLeft (-30) \/ inView onAppStart (-30)
      \/ inView facingRight (-30))
  /\ exists app, reachable app /\ inView app (-30).
Proof. apply (spawn_range_in_reachable_views (-30)). lia. Defined.

End SpawnRange.

(** ** The clock from construction to expiry *)

Section ClockRun.
Local Open Scope Z_scope.

(** Counting from a clock whose [sec] is a multiple of the tick: as long as
    ticks remain, every call of [count] uses one up, and it is the calls at
    [sec = 0] that return [True]. *)
Lemma countN_runs (k : nat) : forall j i s,
  0 < s <= 100 -> 0 <= j -> 0 <= i <= s - 1 -> Z.of_nat k <= j * s + i ->
  exists j' i' flags,
    Time.countN k (Time.mk j s (i * (100 / s)))
    = Ok (Time.mk j' s (i' * (100 / s)), flags)
    /\ 0 <= j' /\ 0 <= i' <= s - 1
    /\ j' * s + i' = j * s + i - Z.of_nat k
    /\ Z.of_nat (count_occ bool_dec flags true) = j - j'.
Proof.
  induction k as [|k IH]; intros j i s Hs Hj Hi Hk.
  - exists j, i, []. cbn [Time.countN count_occ]. repeat split; lia.
  - assert (Hq : 1 <= 100 / s) by (apply Z.div_le_lower_bound; lia).
    assert (Hq2 : s * (100 / s) <= 100) by (apply Z.mul_div_le; lia).
    cbn [Time.countN].
    destruct (Z.eq_dec i 0) as [-> | Hi0].
    + assert (Hj1 : j <> 0) by nia.
      rewrite Z.mul_0_l, count_crossing by lia. cbn [bind].
      unfold Time.resetSec. rewrite (Z.mul_comm (100 / s)).
      destruct (IH (j - 1) (s - 1) s) as (j' & i' & fl & Hrun & Hj' & Hi' & Hrem & Hocc);
        try lia.
      exists j', i', (true :: fl). rewrite Hrun. cbn [bind].
      split; [reflexivity|]. repeat split; try lia.
      cbn [count_occ]. destruct (bool_dec true true); [lia | contradiction].
    + rewrite count_inside; [|lia|lia|nia]. cbn [bind].
      destruct (IH j (i - 1) s) as (j' & i' & fl & Hrun & Hj' & Hi' & Hrem & Hocc);
        try lia.
      exists j', i', (false :: fl). rewrite Hrun. cbn [bind].
      split; [reflexivity|]. repeat split; try lia.
      cbn [count_occ]. destruct (bool_dec false true); [discriminate | lia].
Qed.

(** X1: a clock [Time(start, speed)] with [start > 0] and a speed from 1 to
    100 expires after exactly [start * speed] calls of [count] and not
    before; [count] returned [True] [start] times on the way. *)
Theorem clock_expires_after_start_times_speed (start speed : Z) :
  0 < start -> 0 < speed <= 100 ->
  (forall k : nat, Z.of_nat k < start * speed ->
     exists c' flags,
       Time.countN k (Time.init start speed) = Ok (c', flags)
       /\ Time.isUp c' = false)
  /\ exists flags,
       Time.countN (Z.to_nat (start * speed)) (Time.init start speed)
       = Ok (Time.mk 0 speed 0, flags)
       /\ Z.of_nat (count_occ bool_dec flags true) = start
       /\ Time.isUp (Time.mk 0 speed 0) = true.
Proof.
  intros Hstart Hs.
  assert (Hq : 1 <= 100 / speed) by (apply Z.div_le_lower_bound; lia).
  assert (Einit : Time.init start speed
                  = Time.mk start speed (0 * (100 / speed))).
  { unfold Time.init. rewrite Z.mul_0_l. reflexivity. }
  split.
  - intros k Hk.
    destruct (countN_runs k start 0 speed) as (j' & i' & fl & Hrun & Hj' & Hi' & Hrem & _);
      try lia.
    rewrite Einit, Hrun. eexists _, _. split; [reflexivity|].
    unfold Time.isUp. cbn [Time.min Time.sec].
    destruct (Z.eqb_spec j' 0) as [-> |]; [|reflexivity].
    destruct (Z.eqb_spec (i' * (100 / speed)) 0) as [E|]; [|reflexivity].
    exfalso. nia.
  - destruct (countN_runs (Z.to_nat (start * speed)) start 0 speed)
      as (j' & i' & fl & Hrun & Hj' & Hi' & Hrem & Hocc); try nia.
    assert (j' = 0 /\ i' = 0) as [-> ->] by nia.
    rewrite !Z.mul_0_l in Hrun. unfold Time.init. rewrite Hrun.
    exists fl. split; [reflexivity|]. split; [lia | reflexivity].
Qed.

Lemma clock_expires_after_start_times_speed_witness :
  (forall k : nat, Z.of_nat k < 100 * 10 ->
     exists c' flags,
       Time.countN k (Time.init 100 10) = Ok (c', flags)
       /\ Time.isUp c' = false)
  /\ exists flags,
       Time.countN (Z.to_nat (100 * 10)) (Time.init 100 10)
       = Ok (Time.mk 0 10 0, flags)
       /\ Z.of_nat (count_occ bool_dec flags true) = 100
       /\ Time.isUp (Time.mk 0 10 0) = true.
Proof. apply (clock_expires_after_start_times_speed 100 10); lia. Defined.

(** The seconds of a clock label, for every value from 0 to 99. *)
Lemma repr_seconds_table :
  forallb (fun s =>
             String.eqb
               (if 9 <? s then Time.str s else ("0" ++ Time.str s)%string)
               (String (Time.digit (s / 10))
                  (String (Time.digit (s mod 10)) EmptyString)))
          (List.map Z.of_nat (seq 0 100)) = true.
Proof. vm_compute. reflexivity. Qed.

(** X2: the label of a clock whose [sec] is between 0 and 99 is the minutes,
    a dot, and exactly two digits: the tens and the units of [sec]. *)
Theorem repr_two_digit_seconds (c : Time.t) :
  0 <= Time.sec c <= 99 ->
  Time.repr c
  = (Time.str (Time.min c) ++ "."
     ++ String (Time.digit (Time.sec c / 10))
          (String (Time.digit (Time.sec c mod 10)) EmptyString))%string.
Proof.
  intros Hsec. unfold Time.repr. do 2 f_equal.
  pose proof repr_seconds_table as Htab.
  rewrite forallb_forall in Htab.
  specialize (Htab (Time.sec c)).
  apply String.eqb_eq. apply Htab.
  apply in_map_iff. exists (Z.to_nat (Time.sec c)).
  split; [lia|]. apply in_seq. lia.
Qed.

Lemma repr_two_digit_seconds_witness :
  Time.repr (Time.mk 99 10 0) = "99.00"%string.
Proof. apply (repr_two_digit_seconds (Time.mk 99 10 0)). cbn. lia. Defined.

End ClockRun.

(** ** Rays over any map *)

Section RaysAnyMap.
Local Open Scope R_scope.

Variables (app : App) (grid2D : list (list Z)).
Variables (deltaDistX deltaDistY : R) (stepX : Z) (stepY : option Z).

(** More fuel does not change the outcome of a loop that came to an end. *)
Lemma castLoop_more_fuel (fuel : nat) : forall (st : Cast) r,
  castLoop fuel app grid2D deltaDistX deltaDistY stepX stepY st = Some r ->
  forall fuel', (fuel <= fuel')%nat ->
  castLoop fuel' app grid2D deltaDistX deltaDistY stepX stepY st = Some r.
Proof.
  induction fuel as [|fuel IH]; intros st r Hrun fuel' Hle.
  - cbn [castLoop] in Hrun.
    destruct (loopCondition app grid2D st) as [[|]|e] eqn:Hc;
      try discriminate; destruct fuel'; cbn [castLoop]; rewrite Hc; exact Hrun.
  - destruct fuel' as [|fuel']; [lia|].
    cbn [castLoop] in *.
    destruct (loopCondition app grid2D st) as [[|]|e]; try exact Hrun.
    destruct (ltR (sideDistX st) (sideDistY st)).
    + apply (IH _ _ Hrun). lia.
    + destruct stepY; [|exact Hrun]. apply (IH _ _ Hrun). lia.
Qed.

(** In a rectangular grid every cell inside the bounds can be read. *)
Lemma cell_in_grid (st : Cast) :
  rectangular app grid2D -> inGrid app st = true ->
  exists c, cell grid2D (mapY st) (mapX st) = Ok c.
Proof.
  intros [Hrows Hcols] Hin. apply inGrid_bounds in Hin.
  destruct Hin as [Hx Hy]. unfold cell.
  destruct (nth_error grid2D (Z.to_nat (mapY st))) as [row|] eqn:Erow.
  - pose proof (nth_error_In _ _ Erow) as Hrow.
    rewrite Forall_forall in Hcols. specialize (Hcols row Hrow).
    destruct (nth_error row (Z.to_nat (mapX st))) as [c|] eqn:Ec.
    + exists c. reflexivity.
    + apply nth_error_None in Ec. lia.
  - apply nth_error_None in Erow. lia.
Qed.

Lemma loopCondition_rectangular (st : Cast) :
  rectangular app grid2D ->
  exists b, loopCondition app grid2D st = Ok b.
Proof.
  intros Hrect. unfold loopCondition.
  destruct (inGrid app st) eqn:Hin; [|eexists; reflexivity].
  destruct (cell_in_grid st Hrect Hin) as (c & ->). cbn [bind].
  eexists; reflexivity.
Qed.

Hypothesis stepX_unit : stepX = 1%Z \/ stepX = (-1)%Z.

(** A ray that points up, in a rectangular grid: the loop is left in the
    regular way, at a state that fails the loop condition. *)
Lemma castLoop_upward (fuel : nat) : forall st : Cast,
  rectangular app grid2D ->
  (inGrid app st = true -> (room app stepX st <= fuel)%nat) ->
  exists st',
    castLoop fuel app grid2D deltaDistX deltaDistY stepX (Some (-1)%Z) st
    = Some (Ok st')
    /\ loopCondition app grid2D st' = Ok false.
Proof.
  intros st Hrect. revert st.
  induction fuel as [|fuel IH]; intros st Hroom.
  - cbn [castLoop].
    destruct (loopCondition_rectangular st Hrect) as ([|] & Hc); rewrite Hc.
    + pose proof (loopCondition_true_inGrid _ _ st Hc) as Hin.
      pose proof (room_pos app stepX stepX_unit st Hin). specialize (Hroom Hin).
      lia.
    + exists st. split; [reflexivity | exact Hc].
  - cbn [castLoop].
    destruct (loopCondition_rectangular st Hrect) as ([|] & Hc); rewrite Hc.
    + pose proof (loopCondition_true_inGrid _ _ st Hc) as Hin.
      pose proof (room_pos app stepX stepX_unit st Hin) as Hpos.
      specialize (Hroom Hin).
      destruct (ltR (sideDistX st) (sideDistY st)).
      * apply IH. intros _.
        rewrite (room_stepX app stepX stepX_unit st) by exact Hin. lia.
      * apply IH. intros _.
        rewrite (room_stepY app stepX stepX_unit st) by exact Hin. lia.
    + exists st. split; [reflexivity | exact Hc].
Qed.

End RaysAnyMap.

Section RayOutcomes.
Local Open Scope R_scope.

(** X3: for every map, position and angle, [rows + cols] executions of the
    loop body are enough for the loop of [fastCastRay] to come to an end,
    and it does not execute the body more often; more fuel gives the same
    outcome. *)
Theorem castRay_ends_within_rows_plus_cols
  (fuel : nat) (app : App) (grid2D : list (list Z)) (angle : R) :
  (Z.to_nat (Map.rows (map app) + Map.cols (map app)) <= fuel)%nat ->
  exists r,
    castRay fuel app grid2D angle = Some r
    /\ castRay (Z.to_nat (Map.rows (map app) + Map.cols (map app)))
         app grid2D angle = Some r
    /\ forall h, r = Ok h ->
         (steps h <= Z.to_nat (Map.rows (map app) + Map.cols (map app)))%nat.
Proof.
  intros Hfuel. unfold castRay.
  destruct (castDir_terminates app grid2D (cos (radians angle))
              (sin (radians angle))) as (r & Hrun & Hsteps).
  exists r. split; [|split; assumption].
  revert Hrun. unfold castDir.
  set (dX := if eqR (cos (radians angle)) 0 then 1e30
             else Rabs (1 / cos (radians angle))).
  set (dY := if eqR (sin (radians angle)) 0 then 1e30
             else Rabs (1 / sin (radians angle))).
  destruct (ltR (cos (radians angle)) 0), (ltR (sin (radians angle)) 0);
    match goal with
    | |- context [castLoop ?f ?a ?g ?x ?y ?sx ?sy ?st] =>
        destruct (castLoop f a g x y sx sy st) as [res|] eqn:E;
        [rewrite (castLoop_more_fuel a g x y sx sy f st res E fuel Hfuel);
         auto
        | discriminate]
    end.
Qed.

Lemma castRay_ends_within_rows_plus_cols_witness :
  exists r,
    castRay 20 onAppStart Map.grid 45 = Some r
    /\ castRay (Z.to_nat (Map.rows (map onAppStart)
                          + Map.cols (map onAppStart)))
         onAppStart Map.grid 45 = Some r
    /\ forall h, r = Ok h ->
         (steps h <= Z.to_nat (Map.rows (map onAppStart)
                               + Map.cols (map onAppStart)))%nat.
Proof.
  apply (castRay_ends_within_rows_plus_cols 20 onAppStart Map.grid 45).
  cbn. lia.
Defined.

(** X4: in a rectangular grid a ray that points up (the sine of its angle
    is negative) raises nothing: given [rows + cols] of fuel the loop is
    left in the regular way, at an occupied cell of the grid or outside the
    grid. *)
Theorem castRay_upward_hits_or_leaves
  (fuel : nat) (app : App) (grid2D : list (list Z)) (angle : R) :
  rectangular app grid2D ->
  sin (radians angle) < 0 ->
  (Z.to_nat (Map.rows (map app) + Map.cols (map app)) <= fuel)%nat ->
  exists h,
    castRay fuel app grid2D angle = Some (Ok h)
    /\ (isWallHit app grid2D h \/ leftGrid app h).
Proof.
  intros Hrect Hsin Hfuel. unfold castRay, castDir.
  set (dX := if eqR (cos (radians angle)) 0 then 1e30
             else Rabs (1 / cos (radians angle))).
  set (dY := if eqR (sin (radians angle)) 0 then 1e30
             else Rabs (1 / sin (radians angle))).
  rewrite (ltR_true (sin (radians angle)) 0) by exact Hsin.
  assert (Hgen : forall sx st0, sx = 1%Z \/ sx = (-1)%Z ->
            exists h,
              match castLoop fuel app grid2D dX dY sx (Some (-1)%Z) st0 with
              | None => None
              | Some (Raise e) => Some (Raise e)
              | Some (Ok st) =>
                  Some (Ok (mkHit
                    (if (side st =? 0)%Z then sideDistX st - dX
                     else sideDistY st - dY)
                    (side st) (mapX st) (mapY st) (iterations st)))
              end = Some (Ok h)
              /\ (isWallHit app grid2D h \/ leftGrid app h)).
  { intros sx st0 Hsx.
    destruct (castLoop_upward app grid2D dX dY sx Hsx fuel st0 Hrect)
      as (st' & Hrun & Hend).
    - intros Hin. pose proof (room_start app sx Hsx st0 Hin). lia.
    - rewrite Hrun. eexists. split; [reflexivity|].
      unfold isWallHit, leftGrid. cbn [hitX hitY].
      unfold loopCondition in Hend.
      destruct (inGrid app st') eqn:Hin.
      + left. pose proof (inGrid_bounds app st' Hin) as [Hx Hy].
        split; [exact Hx|]. split; [exact Hy|].
        destruct (cell grid2D (mapY st') (mapX st')) as [c|e];
          cbn [bind] in Hend; [|discriminate].
        exists c. split; [reflexivity|].
        injection Hend as Hend. apply Z.eqb_neq. exact Hend.
      + right. intros [Hx Hy]. unfold inGrid in Hin.
        rewrite !andb_false_iff, !Z.leb_gt, !Z.ltb_ge in Hin. lia. }
  destruct (ltR (cos (radians angle)) 0); apply Hgen; auto.
Qed.

Lemma castRay_upward_hits_or_leaves_witness :
  exists h,
    castRay 14 onAppStart Map.grid (-90) = Some (Ok h)
    /\ (isWallHit onAppStart Map.grid h \/ leftGrid onAppStart h).
Proof.
  apply (castRay_upward_hits_or_leaves 14 onAppStart Map.grid (-90)).
  - split; [reflexivity|]. repeat constructor.
  - destruct trig_minus_90 as [_ ->]. lra.
  - cbn. lia.
Defined.

End RayOutcomes.

(** ** The sign of the distance *)

Section DistanceSign.
Local Open Scope R_scope.

Lemma int_bounds (r : R) : 0 <= r -> IZR (int r) <= r < IZR (int r) + 1.
Proof.
  intros Hr. unfold int. destruct (Rlt_dec r 0); [lra|]. apply Zfloor_bound.
Qed.

Lemma deltaDist_pos (d : R) : 0 < (if eqR d 0 then 1e30 else Rabs (1 / d)).
Proof.
  unfold eqR. destruct (Req_dec_T d 0) as [E|E]; [lra|].
  apply Rabs_pos_lt. unfold Rdiv. rewrite Rmult_1_l.
  apply Rinv_neq_0_compat. exact E.
Qed.

(** Along the loop, the side distance of the axis stepped last, less its
    step length, is the side distance that axis had before the step. *)
Lemma castLoop_distance (app : App) (grid2D : list (list Z))
  (dX dY : R) (stepX : Z) (stepY : option Z) (fuel : nat) :
  0 <= dX -> 0 <= dY ->
  forall st st' : Cast,
  0 <= sideDistX st -> 0 <= sideDistY st ->
  ((1 <= iterations st)%nat ->
   0 <= (if (side st =? 0)%Z then sideDistX st - dX else sideDistY st - dY)) ->
  castLoop fuel app grid2D dX dY stepX stepY st = Some (Ok st') ->
  ((1 <= iterations st')%nat ->
   0 <= (if (side st' =? 0)%Z then sideDistX st' - dX else sideDistY st' - dY))
  /\ ((iterations st' = iterations st)%nat -> st' = st)
  /\ (iterations st <= iterations st')%nat.
Proof.
  intros HdX HdY. induction fuel as [|fuel IH]; intros st st' HX HY Hlast Hrun.
  - cbn [castLoop] in Hrun.
    destruct (loopCondition app grid2D st) as [[|]|e]; try discriminate.
    injection Hrun as <-. auto.
  - cbn [castLoop] in Hrun.
    destruct (loopCondition app grid2D st) as [[|]|e]; try discriminate.
    + destruct (ltR (sideDistX st) (sideDistY st)).
      * apply IH in Hrun; cbn [sideDistX sideDistY side iterations Z.eqb] in *.
        -- destruct Hrun as (H1 & H2 & H3). split; [exact H1|].
           split; [intros E; lia | lia].
        -- lra.
        -- exact HY.
        -- intros _. lra.
      * destruct stepY as [sy|]; [|discriminate].
        apply IH in Hrun; cbn [sideDistX sideDistY side iterations Z.eqb] in *.
        -- destruct Hrun as (H1 & H2 & H3). split; [exact H1|].
           split; [intros E; lia | lia].
        -- exact HX.
        -- lra.
        -- intros _. lra.
    + injection Hrun as <-. auto.
Qed.

(** X5: for a player at non-negative coordinates, the distance
    [fastCastRay] computes for a ray that executed the loop body at least
    once is never negative; a ray that never entered the loop (the cell of
    the player is occupied or outside the grid) stops at the cell of the
    player with a distance that is not positive. *)
Theorem castRay_distance_sign
  (fuel : nat) (app : App) (grid2D : list (list Z)) (angle : R) (h : Hit) :
  0 <= Vec2D.x (playerPos app) -> 0 <= Vec2D.y (playerPos app) ->
  castRay fuel app grid2D angle = Some (Ok h) ->
  ((1 <= steps h)%nat -> 0 <= distance h)
  /\ (steps h = O ->
      distance h <= 0
      /\ hitX h = int (Vec2D.x (playerPos app))
      /\ hitY h = int (Vec2D.y (playerPos app))).
Proof.
  intros Hx Hy. unfold castRay, castDir.
  pose proof (int_bounds _ Hx) as Bx. pose proof (int_bounds _ Hy) as By.
  pose proof (deltaDist_pos (cos (radians angle))) as HdX.
  pose proof (deltaDist_pos (sin (radians angle))) as HdY.
  set (dX := if eqR (cos (radians angle)) 0 then 1e30
             else Rabs (1 / cos (radians angle))) in *.
  set (dY := if eqR (sin (radians angle)) 0 then 1e30
             else Rabs (1 / sin (radians angle))) in *.
  set (px := Vec2D.x (playerPos app)) in *.
  set (py := Vec2D.y (playerPos app)) in *.
  assert (Hgen : forall sx sy sX0 sY0,
            0 <= sX0 -> 0 <= sY0 -> sX0 - dX <= 0 ->
            match castLoop fuel app grid2D dX dY sx sy
                    (mkCast (int px) (int py) sX0 sY0 0 O) with
            | None => None
            | Some (Raise e) => Some (Raise e)
            | Some (Ok st) =>
                Some (Ok (mkHit
                  (if (side st =? 0)%Z then sideDistX st - dX
                   else sideDistY st - dY)
                  (side st) (mapX st) (mapY st) (iterations st)))
            end = Some (Ok h) ->
            ((1 <= steps h)%nat -> 0 <= distance h)
            /\ (steps h = O ->
                distance h <= 0 /\ hitX h = int px /\ hitY h = int py)).
  { intros sx sy sX0 sY0 H0X H0Y Hfirst Hrun.
    destruct (castLoop fuel app grid2D dX dY sx sy
                (mkCast (int px) (int py) sX0 sY0 0 O))
      as [[st|e]|] eqn:E; try discriminate.
    injection Hrun as <-. cbn [steps distance hitX hitY].
    apply castLoop_distance in E; cbn [sideDistX sideDistY iterations] in *;
      try lra; [|intros Habs; lia].
    destruct E as (H1 & H2 & _). split; [exact H1|].
    intros E0. rewrite (H2 E0). cbn [side sideDistX mapX mapY Z.eqb]. auto. }
  destruct (ltR (cos (radians angle)) 0), (ltR (sin (radians angle)) 0);
    apply Hgen; nra.
Qed.

Lemma castRay_distance_sign_witness :
  ((1 <= steps (mkHit 4 1 3 0 5))%nat -> 0 <= distance (mkHit 4 1 3 0 5))
  /\ (steps (mkHit 4 1 3 0 5) = O ->
      distance (mkHit 4 1 3 0 5) <= 0
      /\ hitX (mkHit 4 1 3 0 5) = int (Vec2D.x (playerPos onAppStart))
      /\ hitY (mkHit 4 1 3 0 5) = int (Vec2D.y (playerPos onAppStart))).
Proof.
  apply (castRay_distance_sign 14 onAppStart Map.grid (-90)).
  - rewrite playerPos_onAppStart. cbn [Vec2D.x]. lra.
  - rewrite playerPos_onAppStart. cbn [Vec2D.y]. lra.
  - unfold castRay. destruct trig_minus_90 as [-> ->].
    apply castDir_straight_up; [lia | lra].
Defined.

End DistanceSign.

(** ** The rays of the game: up, from the cell (3, 5) of the reference map *)

Section GameRays.
Local Open Scope R_scope.

Variable app : App.
Hypothesis app_map : map app = Map.init.

(** The cells the ray crosses are open. *)
Lemma loopCondition_open (mx my : Z) (a b : R) (s : Z) (i : nat) :
  (1 <= mx <= 4)%Z -> (1 <= my <= 5)%Z ->
  loopCondition app Map.grid (mkCast mx my a b s i) = Ok true.
Proof.
  intros Hx Hy. unfold loopCondition, inGrid. rewrite app_map.
  assert (Cx : mx = 1%Z \/ mx = 2%Z \/ mx = 3%Z \/ mx = 4%Z) by lia.
  assert (Cy : my = 1%Z \/ my = 2%Z \/ my = 3%Z \/ my = 4%Z \/ my = 5%Z) by lia.
  destruct Cx as [->|[->|[->| ->]]];
    destruct Cy as [->|[->|[->|[->| ->]]]]; reflexivity.
Qed.

(** The cells around them are walls. *)
Lemma loopCondition_wall (mx my : Z) (a b : R) (s : Z) (i : nat) :
  ((mx = 0 \/ mx = 5) /\ 1 <= my <= 5)%Z \/ (my = 0 /\ 1 <= mx <= 4)%Z ->
  loopCondition app Map.grid (mkCast mx my a b s i) = Ok false.
Proof.
  intros H. unfold loopCondition, inGrid. rewrite app_map.
  destruct H as [[Hx Hy]|[-> Hx]].
  - assert (Cy : my = 1%Z \/ my = 2%Z \/ my = 3%Z \/ my = 4%Z \/ my = 5%Z)
      by lia.
    destruct Hx as [-> | ->];
      destruct Cy as [->|[->|[->|[->| ->]]]]; reflexivity.
  - assert (Cx : mx = 1%Z \/ mx = 2%Z \/ mx = 3%Z \/ mx = 4%Z) by lia.
    destruct Cx as [->|[->|[->| ->]]]; reflexivity.
Qed.

Variables (dX dY : R) (stepX : Z).
Hypothesis stepX_unit : stepX = 1%Z \/ stepX = (-1)%Z.

(** The loop from a cell of the open area: the side distances count the
    grid lines crossed, and the loop is left at a wall two cells to the side
    or four rows up of where the side distances were last zero. *)
Lemma castLoop_reference (fuel : nat) : forall st : Cast,
  (1 <= mapX st <= 4)%Z -> (1 <= mapY st <= 5)%Z ->
  (stepX = 1%Z -> 3 <= mapX st)%Z -> (stepX = (-1)%Z -> mapX st <= 3)%Z ->
  sideDistX st
  = IZR (if (stepX =? 1)%Z then mapX st - 2 else 3 - mapX st) * dX ->
  sideDistY st = IZR (5 - mapY st) * dY ->
  (iterations st <= 6)%nat ->
  (Z.to_nat ((if (stepX =? 1)%Z then 5 - mapX st else mapX st) + mapY st - 1)
   <= fuel)%nat ->
  (Z.of_nat (iterations st)
   = (if (stepX =? 1)%Z then mapX st - 3 else 3 - mapX st) + (5 - mapY st))%Z ->
  exists st',
    castLoop fuel app Map.grid dX dY stepX (Some (-1)%Z) st = Some (Ok st')
    /\ loopCondition app Map.grid st' = Ok false
    /\ (0 <= mapX st' <= 5)%Z /\ (0 <= mapY st' <= 5)%Z
    /\ (1 <= iterations st' <= 7)%nat
    /\ ((side st' = 0%Z /\ sideDistX st' - dX = 2 * dX)
        \/ (side st' = 1%Z /\ sideDistY st' - dY = 4 * dY)).
Proof.
  induction fuel as [|fuel IH];
    intros st Hx Hy Hr Hl HsX HsY Hit Hfuel Hcount;
    destruct st as [mx my sx sy sd it];
    cbn [mapX mapY sideDistX sideDistY side iterations] in *.
  - destruct stepX_unit as [E | E]; rewrite E in Hfuel; cbn [Z.eqb Pos.eqb] in Hfuel;
      [specialize (Hr E) | specialize (Hl E)]; lia.
  - cbn [castLoop]. rewrite loopCondition_open by assumption.
    cbn [mapX mapY sideDistX sideDistY side iterations].
    destruct (ltR sx sy).
    + (* a step along X *)
      destruct stepX_unit as [E | E]; rewrite E in *; cbn [Z.eqb Pos.eqb] in *;
        [specialize (Hr eq_refl) | specialize (Hl eq_refl)].
      * destruct (Z.eq_dec mx 4) as [-> | Hne].
        -- eexists. rewrite castLoop_stop by (apply loopCondition_wall; lia).
           split; [reflexivity|].
           split; [apply loopCondition_wall; lia|].
           cbn [mapX mapY sideDistX sideDistY side iterations].
           repeat split; try lia. left. split; [reflexivity|].
           rewrite HsX. replace (IZR (4 - 2)) with 2 by (cbn; lra). lra.
        -- apply IH; cbn [mapX mapY sideDistX sideDistY side iterations];
             try lia.
           ++ rewrite HsX, <- (plus_IZR (mx - 2) 1) || idtac.
              replace (mx + 1 - 2)%Z with ((mx - 2) + 1)%Z by lia.
              rewrite plus_IZR. cbn [IZR IPR]. lra.
           ++ exact HsY.
      * destruct (Z.eq_dec mx 1) as [-> | Hne].
        -- eexists. rewrite castLoop_stop by (apply loopCondition_wall; lia).
           split; [reflexivity|].
           split; [apply loopCondition_wall; lia|].
           cbn [mapX mapY sideDistX sideDistY side iterations].
           repeat split; try lia. left. split; [reflexivity|].
           rewrite HsX. replace (IZR (3 - 1)) with 2 by (cbn; lra). lra.
        -- apply IH; cbn [mapX mapY sideDistX sideDistY side iterations];
             try lia.
           ++ rewrite HsX.
              replace (3 - (mx + -1))%Z with ((3 - mx) + 1)%Z by lia.
              rewrite plus_IZR. cbn [IZR IPR]. lra.
           ++ exact HsY.
    + (* a step along Y *)
      destruct (Z.eq_dec my 1) as [-> | Hne].
      * eexists. rewrite castLoop_stop by (apply loopCondition_wall; lia).
        split; [reflexivity|].
        split; [apply loopCondition_wall; lia|].
        cbn [mapX mapY sideDistX sideDistY side iterations].
        repeat split; try lia. right. split; [reflexivity|].
        rewrite HsY. replace (IZR (5 - 1)) with 4 by (cbn; lra). lra.
      * apply IH; cbn [mapX mapY sideDistX sideDistY side iterations];
          try lia.
        -- exact HsX.
        -- rewrite HsY.
           replace (5 - (my + -1))%Z with ((5 - my) + 1)%Z by lia.
           rewrite plus_IZR. cbn [IZR IPR]. lra.
        -- destruct stepX_unit as [E | E]; rewrite E in *;
             cbn [Z.eqb Pos.eqb] in *;
             [specialize (Hr eq_refl) | specialize (Hl eq_refl)]; lia.
Qed.

End GameRays.

Section GameRayOutcome.
Local Open Scope R_scope.

(** [drawWall] raises nothing when neither the field of view nor the
    distance is zero. *)
Lemma drawWall_ok (app : App) (d angle : R) :
  playerFOV app <> 0 -> d <> 0 ->
  exists drawn, drawWall app (Some d) angle = Ok drawn.
Proof.
  intros Hfov Hd. unfold drawWall.
  rewrite (truediv_ok _ _ Hfov). cbn [bind].
  rewrite (truediv_ok _ _ Hd). cbn [bind].
  destruct (_ && _); eexists; reflexivity.
Qed.

(** A ray that points up, cast from (3.0, 5.0) in the reference map. *)
Lemma game_ray (fuel : nat) (app : App) (angle : R) :
  map app = Map.init -> playerPos app = Vec2D.mk 3 5 ->
  sin (radians angle) < 0 -> (7 <= fuel)%nat ->
  exists h,
    castRay fuel app Map.grid angle = Some (Ok h)
    /\ isWallHit app Map.grid h
    /\ (1 <= steps h <= 7)%nat
    /\ 0 < distance h
    /\ ((hitSide h = 0%Z
         /\ distance h
            = 2 * (if eqR (cos (radians angle)) 0 then 1e30
                   else Rabs (1 / cos (radians angle))))
        \/ (hitSide h = 1%Z
            /\ distance h = 4 * Rabs (1 / sin (radians angle)))).
Proof.
  intros Hmap Hpos Hsin Hfuel. unfold castRay, castDir.
  rewrite Hpos. cbn [Vec2D.x Vec2D.y]. rewrite !int_IZR.
  pose proof (deltaDist_pos (cos (radians angle))) as HdX.
  pose proof (deltaDist_pos (sin (radians angle))) as HdY.
  rewrite (eqR_false (sin (radians angle)) 0) in * by lra.
  set (dX := if eqR (cos (radians angle)) 0 then 1e30
             else Rabs (1 / cos (radians angle))) in *.
  set (dY := Rabs (1 / sin (radians angle))) in *.
  rewrite (ltR_true (sin (radians angle)) 0) by exact Hsin.
  assert (Hgen : forall sx sX0,
            sx = 1%Z \/ sx = (-1)%Z ->
            sX0 = IZR (if (sx =? 1)%Z then 3 - 2 else 3 - 3) * dX ->
            exists h,
              match castLoop fuel app Map.grid dX dY sx (Some (-1)%Z)
                      (mkCast 3 5 sX0 ((5 - 5) * dY) 0 O) with
              | None => None
              | Some (Raise e) => Some (Raise e)
              | Some (Ok st) =>
                  Some (Ok (mkHit
                    (if (side st =? 0)%Z then sideDistX st - dX
                     else sideDistY st - dY)
                    (side st) (mapX st) (mapY st) (iterations st)))
              end = Some (Ok h)
              /\ isWallHit app Map.grid h
              /\ (1 <= steps h <= 7)%nat
              /\ 0 < distance h
              /\ ((hitSide h = 0%Z /\ distance h = 2 * dX)
                  \/ (hitSide h = 1%Z /\ distance h = 4 * dY))).
  { intros sx sX0 Hsx HsX0.
    destruct (castLoop_reference app Hmap dX dY sx Hsx fuel
                (mkCast 3 5 sX0 ((5 - 5) * dY) 0 O))
      as (st' & Hrun & Hend & Bx & By & Hit & Hdist);
      cbn [mapX mapY sideDistX sideDistY side iterations]; try lia.
    - exact HsX0.
    - replace (IZR (5 - 5)) with 0 by (cbn; lra). lra.
    - destruct Hsx as [-> | ->]; cbn; lia.
    - destruct Hsx as [-> | ->]; cbn; lia.
    - rewrite Hrun. eexists. split; [reflexivity|].
      cbn [steps distance hitSide hitX hitY].
      split.
      { unfold isWallHit. cbn [hitX hitY]. rewrite Hmap.
        split; [cbn; lia|]. split; [cbn; lia|].
        unfold loopCondition in Hend.
        assert (Hin : inGrid app st' = true).
        { unfold inGrid. rewrite Hmap. cbn [Map.cols Map.rows Map.init
            Map.of_grid Map.grid List.length hd Z.of_nat Pos.of_succ_nat
            Pos.succ].
          rewrite !andb_true_iff, !Z.leb_le, !Z.ltb_lt. lia. }
        rewrite Hin in Hend.
        destruct (cell Map.grid (mapY st') (mapX st')) as [c|e];
          cbn [bind] in Hend; [|discriminate].
        exists c. split; [reflexivity|].
        injection Hend as Hend. apply Z.eqb_neq. exact Hend. }
      split; [exact Hit|].
      destruct Hdist as [[Hs Hd] | [Hs Hd]]; rewrite Hs; cbn [Z.eqb];
        rewrite Hd; (split; [lra|]); [left | right]; auto. }
  destruct (ltR (cos (radians angle)) 0).
  - apply (Hgen (-1)%Z); [auto|]. cbn [Z.eqb]. 
    replace (IZR (3 - 3)) with 0 by (cbn; lra). lra.
  - apply (Hgen 1%Z); [auto|]. cbn [Z.eqb Pos.eqb].
    replace (IZR (3 - 2)) with 1 by (cbn; lra). lra.
Qed.

(** X6: in the reference map every ray that points up from the position
    (3.0, 5.0) of the player stops at a wall after one to seven executions
    of the loop body, at a positive distance: twice the step length along X
    when the wall is met across a vertical grid line (the side walls are
    two columns away), four times the step length along Y when it is met
    across a horizontal one (the top wall is four rows up); [fastCastRay]
    then raises nothing. *)
Theorem game_ray_hits_wall (fuel : nat) (app : App) (angle : R) :
  map app = Map.init -> playerPos app = Vec2D.mk 3 5 ->
  playerFOV app <> 0 ->
  sin (radians angle) < 0 -> (7 <= fuel)%nat ->
  exists h drawn,
    castRay fuel app Map.grid angle = Some (Ok h)
    /\ fastCastRay fuel app Map.grid angle = Some (Ok drawn)
    /\ isWallHit app Map.grid h
    /\ (1 <= steps h <= 7)%nat
    /\ 0 < distance h
    /\ ((hitSide h = 0%Z
         /\ distance h
            = 2 * (if eqR (cos (radians angle)) 0 then 1e30
                   else Rabs (1 / cos (radians angle))))
        \/ (hitSide h = 1%Z
            /\ distance h = 4 * Rabs (1 / sin (radians angle)))).
Proof.
  intros Hmap Hpos Hfov Hsin Hfuel.
  destruct (game_ray fuel app angle Hmap Hpos Hsin Hfuel)
    as (h & Hray & Hrest).
  destruct (drawWall_ok app (distance h) angle Hfov) as (drawn & Hdraw).
  { destruct Hrest as (_ & _ & Hd & _). lra. }
  exists h, drawn. split; [exact Hray|]. split; [|exact Hrest].
  unfold fastCastRay. rewrite Hray, Hdraw. reflexivity.
Qed.

Lemma game_ray_hits_wall_witness :
  exists h drawn,
    castRay 14 onAppStart Map.grid (-90) = Some (Ok h)
    /\ fastCastRay 14 onAppStart Map.grid (-90) = Some (Ok drawn)
    /\ isWallHit onAppStart Map.grid h
    /\ (1 <= steps h <= 7)%nat
    /\ 0 < distance h
    /\ ((hitSide h = 0%Z
         /\ distance h
            = 2 * (if eqR (cos (radians (-90))) 0 then 1e30
                   else Rabs (1 / cos (radians (-90)))))
        \/ (hitSide h = 1%Z
            /\ distance h = 4 * Rabs (1 / sin (radians (-90))))).
Proof.
  apply (game_ray_hits_wall 14 onAppStart (-90)).
  - reflexivity.
  - exact playerPos_onAppStart.
  - pose proof playerFOV_bounds. lra.
  - destruct trig_minus_90 as [_ ->]. lra.
  - lia.
Defined.

End GameRayOutcome.

(** ** The direction along a game *)

Section DirectionFacts.
Local Open Scope R_scope.

Lemma getAngle_q3_le_120 (x y : R) :
  x < 0 -> y < 0 -> 1.73 * x <= y -> Vec2D.getAngle (Vec2D.mk x y) <= -120.
Proof.
  intros Hx Hy Hk. rewrite getAngle_q3 by assumption.
  pose proof PI_gt_3 as Hpi. pose proof sqrt3_bounds as [Hs _].
  assert (H2 : y / x <= sqrt 3).
  { apply Rle_trans with 1.73; [|lra]. apply ratio_q3; lra. }
  pose proof (atan_le _ _ H2) as A2. rewrite atan_sqrt3 in A2.
  replace (-120) with (degrees ((-2 / 3) * PI)) by (rewrite degrees_scale; lra).
  apply degrees_le. lra.
Qed.

Lemma getAngle_q4_ge_60 (x y : R) :
  0 < x -> - y <= 1.73 * x -> -60 <= Vec2D.getAngle (Vec2D.mk x y).
Proof.
  intros Hx Hk. rewrite getAngle_q4 by assumption.
  pose proof PI_gt_3 as Hpi. pose proof sqrt3_bounds as [Hs _].
  assert (H2 : - sqrt 3 <= y / x).
  { apply (Rmult_le_reg_r x); [lra|].
    replace (y / x * x) with y by (field; lra). nra. }
  pose proof (atan_le _ _ H2) as A2. rewrite atan_opp, atan_sqrt3 in A2.
  replace (-60) with (degrees ((-1 / 3) * PI)) by (rewrite degrees_scale; lra).
  apply degrees_le. lra.
Qed.

(** A direction that passes the check for a left turn is not flatter to
    the left than the slope 0.58. *)
Lemma left_check_bound (x y : R) :
  y < 0 -> -113 < Vec2D.getAngle (Vec2D.mk x y) -> - (0.58 * - y) < x.
Proof.
  intros Hy Hang.
  destruct (Rlt_le_dec (- (0.58 * - y)) x) as [H|H]; [exact H|exfalso].
  pose proof (getAngle_q3_le_120 x y). lra.
Qed.

(** A direction that passes the check for a right turn is not flatter to
    the right than the slope 0.58. *)
Lemma right_check_bound (x y : R) :
  y < 0 -> Vec2D.getAngle (Vec2D.mk x y) < -70 -> x < 0.58 * - y.
Proof.
  intros Hy Hang.
  destruct (Rlt_le_dec x (0.58 * - y)) as [H|H]; [exact H|exfalso].
  pose proof (getAngle_q4_ge_60 x y). lra.
Qed.

(** Products of the sine and cosine of 10 degrees. *)
Lemma sin_cos_PI18_products :
  0.17100 < cos (PI / 18) * sin (PI / 18) < 0.17102
  /\ 0.03015 < sin (PI / 18) * sin (PI / 18) < 0.03016.
Proof.
  pose proof sin_PI18_bounds as [Hs0 Hs1].
  pose proof cos_PI18_bounds as [Hc0 Hc1].
  set (s := sin (PI / 18)) in *. set (c := cos (PI / 18)) in *.
  repeat split; nra.
Qed.

(** A left turn of a direction that passes its check keeps the direction
    up the screen and within the slope 0.88. *)
Lemma left_turn_keeps_slope (x y : R) :
  y < 0 -> - (0.58 * - y) < x -> x <= 0.88 * - y ->
  let v := Vec2D.rotate (Vec2D.mk x y) 10 in
  Vec2D.y v < 0
  /\ - (0.88 * - Vec2D.y v) <= Vec2D.x v
  /\ Vec2D.x v <= 0.88 * - Vec2D.y v.
Proof.
  intros Hy Hl Hr. rewrite rotate_left_components. cbn [Vec2D.x Vec2D.y].
  pose proof sin_PI18_bounds as [Hs0 Hs1].
  pose proof cos_PI18_bounds as [Hc0 Hc1].
  pose proof sin_cos_PI18_products as [[Hp0 Hp1] [Hq0 Hq1]].
  set (s := sin (PI / 18)) in *. set (c := cos (PI / 18)) in *.
  set (Y := - y) in *. assert (HY : 0 < Y) by (unfold Y; lra).
  replace y with (- Y) by (unfold Y; lra).
  set (cs := c * s) in *. set (ss := s * s) in *.
  replace (- Y * c - (x * c + - Y * s) * s)
    with (- (Y * c + x * cs - Y * ss)) by (unfold cs, ss; ring).
  replace (x * c + - Y * s) with (x * c - Y * s) by ring.
  clearbody cs ss Y s c.
  assert (A1 : 0 <= (x + 0.58 * Y) * (cs - 0.17100)) by (apply Rmult_le_pos; lra).
  assert (A2 : 0 <= (0.88 * Y - x) * (cs - 0.17100)) by (apply Rmult_le_pos; lra).
  assert (A3 : 0 <= (x + 0.58 * Y) * (0.17102 - cs)) by (apply Rmult_le_pos; lra).
  assert (A4 : 0 <= (0.88 * Y - x) * (0.17102 - cs)) by (apply Rmult_le_pos; lra).
  assert (B1 : 0 <= (x + 0.58 * Y) * (c - 0.98480)) by (apply Rmult_le_pos; lra).
  assert (B2 : 0 <= (0.88 * Y - x) * (c - 0.98480)) by (apply Rmult_le_pos; lra).
  assert (B3 : 0 <= (x + 0.58 * Y) * (0.98481 - c)) by (apply Rmult_le_pos; lra).
  assert (B4 : 0 <= (0.88 * Y - x) * (0.98481 - c)) by (apply Rmult_le_pos; lra).
  assert (C1 : 0 <= Y * (c - 0.98480)) by (apply Rmult_le_pos; lra).
  assert (C2 : 0 <= Y * (0.98481 - c)) by (apply Rmult_le_pos; lra).
  assert (C3 : 0 <= Y * (s - 0.17364)) by (apply Rmult_le_pos; lra).
  assert (C4 : 0 <= Y * (0.17365 - s)) by (apply Rmult_le_pos; lra).
  assert (C5 : 0 <= Y * (ss - 0.03015)) by (apply Rmult_le_pos; lra).
  assert (C6 : 0 <= Y * (0.03016 - ss)) by (apply Rmult_le_pos; lra).
  assert (C7 : 0 <= Y * (cs - 0.17100)) by (apply Rmult_le_pos; lra).
  assert (C8 : 0 <= Y * (0.17102 - cs)) by (apply Rmult_le_pos; lra).
  repeat split; lra.
Qed.

(** A right turn of a direction that passes its check does the same. *)
Lemma right_turn_keeps_slope (x y : R) :
  y < 0 -> - (0.88 * - y) <= x -> x < 0.58 * - y ->
  let v := Vec2D.rotate (Vec2D.mk x y) (-10) in
  Vec2D.y v < 0
  /\ - (0.88 * - Vec2D.y v) <= Vec2D.x v
  /\ Vec2D.x v <= 0.88 * - Vec2D.y v.
Proof.
  intros Hy Hl Hr. rewrite rotate_right_components. cbn [Vec2D.x Vec2D.y].
  pose proof sin_PI18_bounds as [Hs0 Hs1].
  pose proof cos_PI18_bounds as [Hc0 Hc1].
  pose proof sin_cos_PI18_products as [[Hp0 Hp1] [Hq0 Hq1]].
  set (s := sin (PI / 18)) in *. set (c := cos (PI / 18)) in *.
  set (Y := - y) in *. assert (HY : 0 < Y) by (unfold Y; lra).
  replace y with (- Y) by (unfold Y; lra).
  set (cs := c * s) in *. set (ss := s * s) in *.
  replace ((x * c - - Y * s) * s + - Y * c)
    with (- (Y * c - x * cs - Y * ss)) by (unfold cs, ss; ring).
  replace (x * c - - Y * s) with (x * c + Y * s) by ring.
  clearbody cs ss Y s c.
  assert (A1 : 0 <= (x + 0.88 * Y) * (cs - 0.17100)) by (apply Rmult_le_pos; lra).
  assert (A2 : 0 <= (0.58 * Y - x) * (cs - 0.17100)) by (apply Rmult_le_pos; lra).
  assert (A3 : 0 <= (x + 0.88 * Y) * (0.17102 - cs)) by (apply Rmult_le_pos; lra).
  assert (A4 : 0 <= (0.58 * Y - x) * (0.17102 - cs)) by (apply Rmult_le_pos; lra).
  assert (B1 : 0 <= (x + 0.88 * Y) * (c - 0.98480)) by (apply Rmult_le_pos; lra).
  assert (B2 : 0 <= (0.58 * Y - x) * (c - 0.98480)) by (apply Rmult_le_pos; lra).
  assert (B3 : 0 <= (x + 0.88 * Y) * (0.98481 - c)) by (apply Rmult_le_pos; lra).
  assert (B4 : 0 <= (0.58 * Y - x) * (0.98481 - c)) by (apply Rmult_le_pos; lra).
  assert (C1 : 0 <= Y * (c - 0.98480)) by (apply Rmult_le_pos; lra).
  assert (C2 : 0 <= Y * (0.98481 - c)) by (apply Rmult_le_pos; lra).
  assert (C3 : 0 <= Y * (s - 0.17364)) by (apply Rmult_le_pos; lra).
  assert (C4 : 0 <= Y * (0.17365 - s)) by (apply Rmult_le_pos; lra).
  assert (C5 : 0 <= Y * (ss - 0.03015)) by (apply Rmult_le_pos; lra).
  assert (C6 : 0 <= Y * (0.03016 - ss)) by (apply Rmult_le_pos; lra).
  assert (C7 : 0 <= Y * (cs - 0.17100)) by (apply Rmult_le_pos; lra).
  assert (C8 : 0 <= Y * (0.17102 - cs)) by (apply Rmult_le_pos; lra).
  repeat split; lra.
Qed.

(** A direction up the screen and within the slope 0.88 faces between -135
    and -45 degrees. *)
Lemma slope_facing_range (x y : R) :
  y < 0 -> - (0.88 * - y) <= x -> x <= 0.88 * - y ->
  -135 < Vec2D.getAngle (Vec2D.mk x y) < -45.
Proof.
  intros Hy Hl Hr. pose proof PI_gt_3 as Hpi.
  destruct (Rtotal_order x 0) as [Hx | [-> | Hx]].
  - pose proof (getAngle_q3_lt_90 x y Hx Hy).
    split; [|lra]. rewrite getAngle_q3 by assumption.
    replace (-135) with (degrees ((-3 / 4) * PI))
      by (rewrite degrees_scale; lra).
    apply degrees_lt.
    assert (H1 : 1 < y / x).
    { apply (Rmult_lt_reg_r (- x)); [lra|].
      replace (y / x * - x) with (- y) by (field; lra). lra. }
    pose proof (atan_increasing _ _ H1) as A1. rewrite atan_1 in A1. lra.
  - rewrite getAngle_up by exact Hy. lra.
  - rewrite getAngle_q4 by assumption.
    replace (-135) with (degrees ((-3 / 4) * PI))
      by (rewrite degrees_scale; lra).
    replace (-45) with (degrees ((-1 / 4) * PI))
      by (rewrite degrees_scale; lra).
    assert (H1 : y / x < -1).
    { apply (Rmult_lt_reg_r x); [lra|].
      replace (y / x * x) with y by (field; lra). lra. }
    pose proof (atan_increasing _ _ H1) as A1.
    replace (-1) with (- (1)) in A1 by lra. rewrite atan_opp, atan_1 in A1.
    pose proof (atan_bound (y / x)) as [A2 _].
    split; apply degrees_lt; lra.
Qed.

End DirectionFacts.

(** ** What the handlers change *)

Ltac app_fields :=
  cbn [screen map camera playerPos playerDir playerFOV startingAngle dAngle
       isHitbox waterLevel cameraTilt isTiltingUp waveAmount dWave gameTime
       gameOver gameWon lightAngle lightRadius lightPos lightdRadius
       lightEndRadius lightSpawn lightdPos hitBox hitBoxSize
       set_playerDir set_isHitbox set_cameraTilt set_isTiltingUp set_gameTime
       set_gameOver set_gameWon set_lightAngle set_lightRadius set_lightPos
       set_lightdRadius set_lightEndRadius set_lightSpawn set_lightdPos
       set_hitBox set_hitBoxSize reset resetLight] in *.

Ltac app_destruct app :=
  destruct app as [sc mp cam pp pd fov sa da ih wl ct tu wa dw gt go gw
                   la lr lp ldr ler ls ldp hb hbs].

Section Frames.
Local Open Scope Z_scope.

(** [wave] changes the tilt and its sense, and nothing else. *)
Lemma wave_frame (app : App) :
  waveAmount app = 30 ->
  exists u t,
    wave app = Ok (set_cameraTilt t (set_isTiltingUp u app))
    /\ u = (if (30 <? cameraTilt app) || (cameraTilt app <? 5)
            then negb (isTiltingUp app) else isTiltingUp app)
    /\ t = (if u then cameraTilt app + dWave app
            else cameraTilt app - dWave app).
Proof.
  intros Hw. unfold wave. rewrite Hw.
  change (negb (30 mod 5 =? 0)) with false. cbv iota.
  app_destruct app; app_fields; subst.
  destruct ((30 <? ct) || (ct <? 5)); app_fields;
    destruct tu; cbn [negb]; eexists _, _;
    (split; [reflexivity|]); split; reflexivity.
Qed.

(** [changeLight] changes the angle, the radius and the offset of the
    light: an armed light grows, a dormant one is armed or left alone. *)
Lemma changeLight_frame (d : Draws) (app : App) :
  exists a r p,
    changeLight d app
    = set_lightPos p (set_lightRadius r (set_lightAngle a app))
    /\ match lightAngle app with
       | Some l =>
           a = Some l /\ r = lightRadius app + lightdRadius app
           /\ p = lightPos app + lightdPos app
       | None =>
           r = lightRadius app /\ p = lightPos app
           /\ (a = None \/ a = Some (lightAngleInt d * -1))
       end.
Proof.
  unfold changeLight, spawnLight.
  app_destruct app; app_fields.
  destruct la as [l|].
  - exists (Some l), (lr + ldr), (lp + ldp). split; [reflexivity|]. auto.
  - destruct (ltR _ _).
    + exists None, lr, lp. split; [reflexivity|]. auto.
    + exists (Some (lightAngleInt d * -1)), lr, lp.
      split; [reflexivity|]. auto.
Qed.

(** [fixBoxPosition] changes the hit box: none, or the box of an armed
    light that is in view. *)
Lemma fixBoxPosition_frame (app : App) :
  exists hb,
    fixBoxPosition app = set_hitBox hb app
    /\ (hb = None
        \/ exists l,
             lightAngle app = Some l
             /\ inViewAt (Vec2D.getAngle (playerDir app)) (playerFOV app)
                  (IZR l)
             /\ hb = Some (Vec2D.mk
                      ((IZR l - (Vec2D.getAngle (playerDir app)
                                 - playerFOV app / 2)) / playerFOV app
                       * IZR (Screen.width (screen app)))%R
                      (IZR (waterLevel app + lightPos app)))).
Proof.
  unfold fixBoxPosition. destruct (lightAngle app) as [l|].
  - destruct (leR _ (IZR l)) eqn:E1; cbn [andb].
    + destruct (leR (IZR l) _) eqn:E2.
      * eexists. split; [reflexivity|]. right. exists l.
        split; [reflexivity|]. split; [|reflexivity].
        unfold leR in E1, E2.
        destruct (Rle_dec _ _) in E1; [|discriminate].
        destruct (Rle_dec _ _) in E2; [|discriminate].
        split; assumption.
      * eexists. split; [reflexivity|]. left. reflexivity.
    + eexists. split; [reflexivity|]. left. reflexivity.
  - eexists. split; [reflexivity|]. left. reflexivity.
Qed.

(** A press of the mouse changes nothing, or resets the light and removes
    the hit box that was hit. *)
Lemma onMousePress_frame (mouseX mouseY : R) (app : App) :
  onMousePress mouseX mouseY app = app
  \/ (gameOver app = false /\ (exists box, hitBox app = Some box)
      /\ onMousePress mouseX mouseY app = set_hitBox None (resetLight app)).
Proof.
  unfold onMousePress, checkHitBox.
  destruct (gameOver app); cbn [negb]; [left; reflexivity|].
  destruct (hitBox app) as [box|]; [|left; reflexivity].
  destruct (_ && _); [right | left; reflexivity].
  split; [reflexivity|]. split; [exists box|]; reflexivity.
Qed.

(** The four ways a step goes. *)
Lemma onStep_cases (d : Draws) (app app' : App) :
  waveAmount app = 30 ->
  onStep d app = Ok app' ->
  app' = app
  \/ app' = set_gameOver true (set_gameWon true app)
  \/ (Time.isUp (gameTime app) = false
      /\ lightEndRadius app <= lightRadius app
      /\ app' = set_gameTime (Time.init 0 10) (set_gameOver true app))
  \/ (Time.isUp (gameTime app) = false
      /\ lightRadius app < lightEndRadius app
      /\ exists u t clock minute,
           u = (if (30 <? cameraTilt app) || (cameraTilt app <? 5)
                then negb (isTiltingUp app) else isTiltingUp app)
           /\ t = (if u then cameraTilt app + dWave app
                   else cameraTilt app - dWave app)
           /\ Time.count (gameTime app) = Ok (clock, minute)
           /\ app'
              = if minute
                then fixBoxPosition
                       (changeLight d
                          (set_gameTime clock
                             (set_cameraTilt t (set_isTiltingUp u app))))
                else set_gameTime clock
                       (set_cameraTilt t (set_isTiltingUp u app))).
Proof.
  intros Hw Hstep. unfold onStep in Hstep.
  destruct (Time.isUp (gameTime app)) eqn:Hup; cbn [negb] in Hstep.
  - destruct (negb (gameOver app) || gameWon app); injection Hstep as <-; auto.
  - destruct (Z.leb_spec (lightEndRadius app) (lightRadius app)) as [Hbr|Hbr].
    + injection Hstep as <-. right. right. left. auto.
    + right. right. right. split; [reflexivity|]. split; [exact Hbr|].
      destruct (wave_frame app Hw) as (u & t & Hwave & Hu & Ht).
      rewrite Hwave in Hstep. cbn [bind] in Hstep. app_fields.
      destruct (Time.count (gameTime app)) as [[clock minute]|e];
        cbn [bind] in Hstep; [|discriminate].
      exists u, t, clock, minute. split; [exact Hu|]. split; [exact Ht|].
      split; [reflexivity|].
      destruct minute; injection Hstep as <-; reflexivity.
Qed.

End Frames.

(** ** Every state of a game keeps the invariant *)

Section GameInvariant.
Local Open Scope Z_scope.

Ltac inv_unfold :=
  unfold gameInvariant, constInvariant, tiltInvariant, clockInvariant,
    lightInvariant, hitBoxInvariant, dirInvariant in *.

(** One call of [count] on the clock of a running game: a minute passes
    when the seconds are at zero. *)
Lemma count_clock (c : Time.t) :
  Time.speed c = 10 -> 0 <= Time.min c <= 100 ->
  (exists j, 0 <= j <= 9 /\ Time.sec c = 10 * j) ->
  Time.isUp c = false ->
  exists c' b,
    Time.count c = Ok (c', b)
    /\ Time.speed c' = 10 /\ 0 <= Time.min c' <= 100
    /\ (exists j, 0 <= j <= 9 /\ Time.sec c' = 10 * j)
    /\ b = (Time.sec c =? 0)
    /\ Time.min c' = (if b then Time.min c - 1 else Time.min c)
    /\ Time.sec c' = (if b then 90 else Time.sec c - 10).
Proof.
  destruct c as [m sp s]. cbn [Time.speed Time.min Time.sec].
  intros -> Hm (j & Hj & ->) Hup.
  unfold Time.isUp in Hup. cbn [Time.min Time.sec] in Hup.
  unfold Time.count, Time.floordiv. cbn [Time.speed Time.min Time.sec].
  change (10 =? 0) with false. cbv iota. cbn [bind].
  change (100 / 10) with 10. change (10 * (10 - 1)) with 90.
  destruct (Z.eq_dec j 0) as [-> | Hj0].
  - change (10 * 0 - 10) with (-10). change (-10 / 100 =? 0) with false.
    cbn [negb andb]. change (10 * 0 =? 0) with true in Hup.
    rewrite andb_true_r in Hup. rewrite Hup. cbn [negb].
    apply Z.eqb_neq in Hup.
    eexists _, _. split; [reflexivity|].
    cbn [Time.speed Time.min Time.sec].
    split; [reflexivity|]. split; [lia|]. split; [exists 9; lia|].
    split; [reflexivity|]. split; reflexivity.
  - replace ((10 * j - 10) / 100) with 0
      by (symmetry; apply Z.div_small; lia).
    cbn [Z.eqb negb andb].
    assert (E : (10 * j =? 0) = false) by (apply Z.eqb_neq; lia).
    eexists _, _. split; [reflexivity|].
    cbn [Time.speed Time.min Time.sec]. rewrite E.
    split; [reflexivity|]. split; [lia|]. split; [exists (j - 1); lia|].
    split; [reflexivity|]. split; reflexivity.
Qed.

Lemma gameInvariant_start : gameInvariant onAppStart.
Proof.
  inv_unfold. rewrite playerDir_onAppStart.
  change (isTiltingUp onAppStart) with true.
  change (cameraTilt onAppStart) with 30.
  change (gameTime onAppStart) with (Time.init 100 10).
  change (lightAngle onAppStart) with (Some (-90)).
  change (lightRadius onAppStart) with 8.
  change (lightPos onAppStart) with 0.
  change (hitBox onAppStart) with (@None Vec2D.t).
  cbn [Time.init Time.speed Time.min Time.sec Vec2D.x Vec2D.y].
  split; [repeat split; reflexivity|].
  split; [lia|].
  split; [left; split; [reflexivity|]; split; [lia|]; exists 0; lia|].
  split.
  { split; [exists 0; repeat split; try lia; discriminate|].
    intros l [= <-]. lia. }
  split; [discriminate|].
  repeat split; lra.
Qed.

(** The restart. *)
Lemma gameInvariant_reset (app : App) :
  gameInvariant app -> gameInvariant (reset app).
Proof.
  intros (Hc & Ht & _). inv_unfold. app_fields.
  cbn [Time.init Time.speed Time.min Time.sec Vec2D.x Vec2D.y].
  destruct Hc as (? & ? & ? & ? & ? & ? & ? & ? & ? & ? & ? & ? & ? & ? & ?).
  split; [repeat split; first [assumption | reflexivity]|].
  split; [exact Ht|].
  split; [left; split; [reflexivity|]; split; [lia|]; exists 0; lia|].
  split.
  { split; [exists 0; repeat split; try lia; discriminate|].
    intros l [= <-]. lia. }
  split; [discriminate|].
  repeat split; lra.
Qed.

(** The two debugging keys, which stop the clock. *)
Lemma gameInvariant_stop (app : App) (c w : bool) :
  gameInvariant app ->
  gameInvariant
    (if c
     then set_gameTime (Time.init 0 5)
            (if w then set_gameWon true (set_gameOver true app)
             else set_gameOver true app)
     else app).
Proof.
  intros H. destruct c; [|exact H].
  destruct H as (Hc & Ht & _ & Hl & Hb & Hd).
  inv_unfold. destruct w; app_fields;
    (split; [exact Hc|]; split; [exact Ht|];
     split; [right; repeat split; reflexivity|];
     split; [exact Hl|]; split; [exact Hb | exact Hd]).
Qed.

(** A turn. *)
Lemma gameInvariant_turn (app : App) (v : Vec2D.t) :
  (Vec2D.y v < 0
   /\ - (0.88 * - Vec2D.y v) <= Vec2D.x v
   /\ Vec2D.x v <= 0.88 * - Vec2D.y v)%R ->
  gameInvariant app -> gameInvariant (set_playerDir v app).
Proof.
  intros Hv (Hc & Ht & Hk & Hl & Hb & _).
  inv_unfold. app_fields. auto 10.
Qed.

Lemma gameInvariant_onKeyPress (key : string) (app : App) :
  gameInvariant app -> gameInvariant (onKeyPress key app).
Proof.
  intros H. unfold onKeyPress. cbv zeta.
  assert (S2 : forall a, gameInvariant a ->
            gameInvariant
              (if gameOver a && (key =? "r")%string then reset a else a)).
  { intros a Ha. destruct (gameOver a && (key =? "r")%string); [|exact Ha].
    apply gameInvariant_reset, Ha. }
  assert (S3 : forall a, gameInvariant a ->
            gameInvariant
              (if (key =? "g")%string
               then set_gameTime (Time.init 0 5) (set_gameOver true a)
               else a)).
  { intros a Ha. exact (gameInvariant_stop a _ false Ha). }
  assert (S4 : forall a, gameInvariant a ->
            gameInvariant
              (if (key =? "w")%string
               then set_gameTime (Time.init 0 5)
                      (set_gameWon true (set_gameOver true a))
               else a)).
  { intros a Ha. exact (gameInvariant_stop a _ true Ha). }
  assert (S5 : forall a, gameInvariant a ->
            gameInvariant
              (if (key =? "h")%string
               then set_isHitbox (negb (isHitbox a)) a else a)).
  { intros a Ha. destruct (key =? "h")%string; [|exact Ha]. exact Ha. }
  apply S5, S4, S3, S2.
  assert (Hd : dirInvariant app) by apply H.
  unfold dirInvariant in Hd. destruct (playerDir app) as [x y] eqn:Hdir.
  cbn [Vec2D.x Vec2D.y] in Hd. destruct Hd as (Hy & Hlo & Hhi).
  change (inBounds "right" (Vec2D.mk x y))
    with (Some (ltR (Vec2D.getAngle (Vec2D.mk x y)) (-70))).
  change (inBounds "left" (Vec2D.mk x y))
    with (Some (ltR (-113) (Vec2D.getAngle (Vec2D.mk x y)))).
  replace (Ropp 10) with (IZR (-10)) by lra.
  destruct (((key =? "right") || (key =? "d"))%string
            && truthy (Some (ltR (Vec2D.getAngle (Vec2D.mk x y)) (-70))))
    eqn:ER.
  - apply andb_true_iff in ER as [_ ER]. cbn [truthy] in ER.
    assert (Hchk : ltR (Vec2D.getAngle (Vec2D.mk x y)) (-70) = true)
      by (destruct (ltR _ _); [reflexivity | discriminate]).
    apply ltR_true_inv in Hchk.
    apply gameInvariant_turn; [|exact H].
    apply right_turn_keeps_slope;
      [exact Hy | exact Hlo | exact (right_check_bound x y Hy Hchk)].
  - destruct (((key =? "left") || (key =? "a"))%string
              && truthy (Some (ltR (-113) (Vec2D.getAngle (Vec2D.mk x y)))))
      eqn:EL; [|exact H].
    apply andb_true_iff in EL as [_ EL]. cbn [truthy] in EL.
    assert (Hchk : ltR (-113) (Vec2D.getAngle (Vec2D.mk x y)) = true)
      by (destruct (ltR (-113) _); [reflexivity | discriminate]).
    apply ltR_true_inv in Hchk.
    apply gameInvariant_turn; [|exact H].
    apply left_turn_keeps_slope;
      [exact Hy | exact (left_check_bound x y Hy Hchk) | exact Hhi].
Qed.

Lemma gameInvariant_onMousePress (mouseX mouseY : R) (app : App) :
  gameInvariant app -> gameInvariant (onMousePress mouseX mouseY app).
Proof.
  intros H.
  destruct (onMousePress_frame mouseX mouseY app) as [-> | (_ & _ & ->)];
    [exact H|].
  destruct H as (Hc & Ht & Hk & _ & _ & Hd).
  inv_unfold. app_fields.
  split; [exact Hc|]. split; [exact Ht|]. split; [exact Hk|].
  split.
  { split; [exists 0; repeat split; lia | discriminate]. }
  split; [discriminate | exact Hd].
Qed.

(** The hit box [fixBoxPosition] places is within the width of the screen. *)
Lemma boxX_range (facing fov a : R) :
  (0 < fov)%R -> inViewAt facing fov a ->
  (0 <= (a - (facing - fov / 2)) / fov * 400 <= 400)%R.
Proof.
  intros Hfov [Hlo Hhi].
  assert (H0 : (0 <= (a - (facing - fov / 2)) / fov)%R).
  { apply Rmult_le_pos; [lra|]. left. apply Rinv_0_lt_compat, Hfov. }
  assert (H1 : ((a - (facing - fov / 2)) / fov <= 1)%R).
  { apply (Rmult_le_reg_r fov); [exact Hfov|].
    replace ((a - (facing - fov / 2)) / fov * fov)%R
      with (a - (facing - fov / 2))%R by (field; lra).
    lra. }
  lra.
Qed.

Lemma gameInvariant_onStep (d : Draws) (app app' : App) :
  validDraws d -> gameInvariant app -> onStep d app = Ok app' ->
  gameInvariant app'.
Proof.
  intros Hd H Hstep.
  assert (Hw : waveAmount app = 30) by apply H.
  destruct (onStep_cases d app app' Hw Hstep)
    as [-> | [-> | [(Hup & Hbr & ->)
                   | (Hup & Hbr & u & t & clock & minute
                      & Hu & Ht & Hcount & ->)]]].
  - exact H.
  - exact H.
  - destruct H as (Hc & Hti & _ & Hl & Hb & Hdi).
    inv_unfold. app_fields.
    cbn [Time.init Time.speed Time.min Time.sec].
    split; [exact Hc|]. split; [exact Hti|].
    split; [left; split; [reflexivity|]; split; [lia|]; exists 0; lia|].
    split; [exact Hl|]. split; [exact Hb | exact Hdi].
  - destruct H as (Hc & Hti & Hk & Hl & Hb & Hdi).
    assert (Hclock : clockInvariant (set_gameTime clock app)).
    { unfold clockInvariant in *. app_fields.
      destruct Hk as [(Hs & Hm & Hj) | (_ & Hm & Hs)].
      - destruct (count_clock _ Hs Hm Hj Hup)
          as (c' & b & Hcnt & Hs' & Hm' & Hj' & _).
        rewrite Hcnt in Hcount. injection Hcount as <- _. left. auto.
      - unfold Time.isUp in Hup. rewrite Hm, Hs in Hup. discriminate. }
    assert (Htilt : tiltInvariant (set_cameraTilt t (set_isTiltingUp u app))).
    { unfold tiltInvariant in *. app_fields.
      assert (Hdw : dWave app = 1) by apply Hc. rewrite Hdw in Ht.
      subst t.
      destruct (isTiltingUp app);
        destruct (Z.ltb_spec 30 (cameraTilt app));
        destruct (Z.ltb_spec (cameraTilt app) 5);
        cbn [orb negb] in Hu; subst u; lia. }
    destruct minute.
    + destruct (changeLight_frame d
                  (set_gameTime clock
                     (set_cameraTilt t (set_isTiltingUp u app))))
        as (a & r & p & -> & Hch).
      match goal with
      | |- gameInvariant (fixBoxPosition ?s) =>
          destruct (fixBoxPosition_frame s) as (hb & -> & Hhb)
      end.
      app_fields.
      assert (Hlight : lightInvariant
                (set_lightPos p (set_lightRadius r (set_lightAngle a app)))).
      { unfold lightInvariant in *. app_fields.
        assert (Hdr : lightdRadius app = 5) by apply Hc.
        assert (Hdp : lightdPos app = 2) by apply Hc.
        assert (Her : lightEndRadius app = 40) by apply Hc.
        destruct Hl as ((k & Hk0 & Hr & Hp & Hnone) & Hang).
        destruct (lightAngle app) as [l|].
        - destruct Hch as (-> & -> & ->). split.
          + exists (k + 1). repeat split; try lia. discriminate.
          + exact Hang.
        - destruct Hch as (-> & -> & Ha). split.
          + exists k. repeat split; try lia. intros _. auto.
          + intros l Hl. destruct Ha as [-> | ->]; [discriminate|].
            injection Hl as <-. destruct Hd as [_ Hd]. lia. }
      inv_unfold. app_fields.
      split; [exact Hc|]. split; [exact Htilt|]. split; [exact Hclock|].
      split; [exact Hlight|]. split; [|exact Hdi].
      intros box Hbox.
      destruct Hhb as [-> | (l & Hl' & Hview & ->)]; [discriminate|].
      injection Hbox as <-. cbn [Vec2D.x Vec2D.y].
      destruct Hc as (-> & _ & _ & Hfov & _ & -> & _).
      cbn [Screen.width].
      split; [exists l; exact Hl'|].
      split; [|reflexivity].
      apply boxX_range; [|exact Hview].
      rewrite Hfov. apply playerFOV_bounds.
    + inv_unfold. app_fields.
      split; [exact Hc|]. split; [exact Htilt|]. split; [exact Hclock|].
      split; [exact Hl|]. split; [exact Hb | exact Hdi].
Qed.

(** The invariant holds in every state of a game. *)
Lemma reachable_gameInvariant (app : App) :
  reachable app -> gameInvariant app.
Proof.
  induction 1 as [|e app app' _ IH Hv He].
  - exact gameInvariant_start.
  - destruct e as [d | key | mouseX mouseY]; cbn [handle validEvent] in *.
    + exact (gameInvariant_onStep d app app' Hv IH He).
    + injection He as <-. apply gameInvariant_onKeyPress, IH.
    + injection He as <-. apply gameInvariant_onMousePress, IH.
Qed.

End GameInvariant.

(** ** A game left alone *)

Section Idle.
Local Open Scope Z_scope.

Ltac divlia := Z.div_mod_to_equations; lia.

Lemma idleAfter_start : idleAfter 0 onAppStart.
Proof.
  unfold idleAfter. cbn [Z.eqb]. change ((0 + 9) / 10) with 0.
  split; [apply gameInvariant_start|].
  split; [exact playerDir_onAppStart|].
  repeat split; reflexivity.
Qed.

(** One step of a game left alone, before the light has grown to the end
    radius. *)
Lemma idle_step (d : Draws) (n : Z) (app : App) :
  0 <= n <= 60 -> idleAfter n app ->
  exists app', onStep d app = Ok app' /\ idleAfter (n + 1) app'.
Proof.
  intros Hn (Hc & Hdir & Hgo & Hgw & Hla & Hlr & Hlp & Hhb & Hgt).
  pose proof Hc as (Hscr & _ & _ & Hfov & _ & Hwl & Hwa & _ & Hdr & Her & _
                    & Hdp & _).
  assert (Hck : Time.speed (gameTime app) = 10
                /\ Time.min (gameTime app)
                   = (if n =? 0 then 100 else 99 - (n - 1) / 10)
                /\ Time.sec (gameTime app)
                   = (if n =? 0 then 0 else 90 - 10 * ((n - 1) mod 10))).
  { rewrite Hgt. destruct (n =? 0); repeat split; reflexivity. }
  destruct Hck as (Hsp & Hmin & Hsec).
  assert (Hup : Time.isUp (gameTime app) = false).
  { unfold Time.isUp. rewrite Hmin.
    destruct (Z.eqb_spec n 0) as [_|_]; [reflexivity|].
    replace (99 - (n - 1) / 10 =? 0) with false; [reflexivity|].
    symmetry. apply Z.eqb_neq. divlia. }
  destruct (count_clock (gameTime app)) as (c' & b & Hcnt & Hsp' & _ & _
                                            & Hb & Hmin' & Hsec');
    [exact Hsp | | | exact Hup |].
  { rewrite Hmin. destruct (n =? 0); divlia. }
  { rewrite Hsec. destruct (n =? 0);
      [exists 0; divlia | exists (9 - (n - 1) mod 10); divlia]. }
  destruct (wave_frame app Hwa) as (u & t & Hwave & _).
  unfold onStep. rewrite Hup. cbn [negb]. rewrite Her, Hlr.
  replace (40 <=? 8 + 5 * ((n + 9) / 10)) with false
    by (symmetry; apply Z.leb_gt; divlia).
  rewrite Hwave. cbn [bind]. app_fields. rewrite Hcnt. cbn [bind].
  assert (Hclock : c' = Time.mk (99 - n / 10) 10 (90 - 10 * (n mod 10))).
  { destruct c' as [m' sp' s']. cbn [Time.speed Time.min Time.sec] in *.
    subst sp'. rewrite Hmin in Hmin'. rewrite Hsec in Hb, Hsec'.
    destruct (Z.eqb_spec n 0) as [-> | Hn0].
    - cbn in Hb. subst b. subst. reflexivity.
    - destruct (Z.eqb_spec (90 - 10 * ((n - 1) mod 10)) 0) as [E|E];
        subst b; subst; f_equal; divlia. }
  assert (Hb' : b = (n mod 10 =? 0)).
  { rewrite Hb, Hsec. destruct (Z.eqb_spec n 0) as [-> | Hn0]; [reflexivity|].
    destruct (Z.eqb_spec (90 - 10 * ((n - 1) mod 10)) 0);
      destruct (Z.eqb_spec (n mod 10) 0); try reflexivity; divlia. }
  assert (Hn1 : (n + 1 =? 0) = false) by (apply Z.eqb_neq; divlia).
  assert (Hclock' : c' = Time.mk (99 - (n + 1 - 1) / 10) 10
                           (90 - 10 * ((n + 1 - 1) mod 10))).
  { rewrite Hclock. replace (n + 1 - 1) with n by divlia. reflexivity. }
  destruct b.
  - eexists. split; [reflexivity|].
    unfold changeLight. app_fields. rewrite Hla.
    unfold fixBoxPosition. app_fields. rewrite Hla, Hdir, Hfov.
    rewrite (getAngle_up (-1)) by lra.
    pose proof playerFOV_bounds as [Hf0 _].
    rewrite leR_true by lra. rewrite leR_true by lra. cbn [andb].
    symmetry in Hb'. apply Z.eqb_eq in Hb'.
    unfold idleAfter. app_fields. rewrite Hn1.
    split; [exact Hc|]. split; [exact Hdir|].
    split; [exact Hgo|]. split; [exact Hgw|]. split; [exact Hla|].
    rewrite Hlr, Hlp, Hdr, Hdp, Hwl, Hscr. cbn [Screen.width].
    split; [divlia|]. split; [divlia|]. split; [|exact Hclock'].
    f_equal. f_equal; [field; lra | f_equal; divlia].
  - eexists. split; [reflexivity|].
    symmetry in Hb'. apply Z.eqb_neq in Hb'.
    unfold idleAfter. app_fields. rewrite Hn1.
    split; [exact Hc|]. split; [exact Hdir|].
    split; [exact Hgo|]. split; [exact Hgw|]. split; [exact Hla|].
    split; [rewrite Hlr; divlia|]. split; [rewrite Hlp; divlia|].
    split; [|exact Hclock'].
    rewrite Hhb. destruct (Z.eqb_spec n 0) as [-> | Hn0];
      [cbn in Hb'; divlia|].
    do 3 f_equal. divlia.
Qed.


Lemma steps_run_app (ds1 ds2 : list Draws) : forall app,
  steps_run (ds1 ++ ds2) app
  = (app' <- steps_run ds1 app ;; steps_run ds2 app')%py.
Proof.
  induction ds1 as [|d ds1 IH]; intros app; [reflexivity|].
  cbn [List.app steps_run]. destruct (onStep d app) as [app'|e];
    cbn [bind]; [apply IH | reflexivity].
Qed.

(** The steps before the light has grown to the end radius. *)
Lemma idle_run (ds : list Draws) : forall n app,
  0 <= n -> n + Z.of_nat (List.length ds) <= 61 -> idleAfter n app ->
  exists app',
    steps_run ds app = Ok app'
    /\ idleAfter (n + Z.of_nat (List.length ds)) app'.
Proof.
  induction ds as [|d ds IH]; intros n app Hn Hlen Hidle.
  - exists app. split; [reflexivity|].
    cbn [List.length Z.of_nat]. rewrite Z.add_0_r. exact Hidle.
  - cbn [List.length] in *. rewrite Nat2Z.inj_succ in *.
    destruct (idle_step d n app) as (app1 & Hstep & Hidle1);
      [lia | exact Hidle |].
    destruct (IH (n + 1) app1) as (app' & Hrun & Hidle');
      [lia | lia | exact Hidle1 |].
    exists app'. cbn [steps_run]. rewrite Hstep. cbn [bind].
    split; [exact Hrun|].
    replace (n + Z.succ (Z.of_nat (List.length ds)))
      with (n + 1 + Z.of_nat (List.length ds)) by lia.
    exact Hidle'.
Qed.

(** The step at which the grown light ends the game. *)
Lemma idle_breach (d : Draws) (app : App) :
  idleAfter 61 app ->
  onStep d app = Ok (set_gameTime (Time.init 0 10) (set_gameOver true app)).
Proof.
  intros (Hc & _ & _ & _ & _ & Hlr & _ & _ & Hgt).
  assert (Her : lightEndRadius app = 40) by apply Hc.
  change ((61 + 9) / 10) with 7 in Hlr. cbn [Z.eqb] in Hgt.
  unfold onStep. rewrite Hgt, Her, Hlr. reflexivity.
Qed.

(** A lost game stays as it is. *)
Lemma lost_stays (ds : list Draws) (app : App) :
  gameOver app = true -> gameWon app = false ->
  Time.isUp (gameTime app) = true ->
  steps_run ds app = Ok app.
Proof.
  intros Hgo Hgw Hup. induction ds as [|d ds IH]; [reflexivity|].
  cbn [steps_run]. unfold onStep. rewrite Hup, Hgo, Hgw. cbn [negb orb bind].
  exact IH.
Qed.

Lemma afterFirstStep_step :
  onStep (mkDraws 1 30) onAppStart = Ok afterFirstStep
  /\ idleAfter 1 afterFirstStep.
Proof.
  destruct (idle_step (mkDraws 1 30) 0 onAppStart) as (app' & Hstep & Hidle);
    [lia | exact idleAfter_start |].
  unfold afterFirstStep. rewrite Hstep. split; [reflexivity | exact Hidle].
Qed.

Lemma reachable_afterFirstStep : reachable afterFirstStep.
Proof.
  apply (reachable_event (Step (mkDraws 1 30)) onAppStart).
  - exact reachable_start.
  - unfold validEvent, validDraws. cbn [lightSpawnInt lightAngleInt]. lia.
  - exact (proj1 afterFirstStep_step).
Qed.

Lemma hitBox_afterFirstStep :
  hitBox afterFirstStep = Some (Vec2D.mk 200 173).
Proof.
  destruct afterFirstStep_step as (_ & H).
  destruct H as (_ & _ & _ & _ & _ & _ & _ & Hhb & _). exact Hhb.
Qed.

(** X14: a game in which no key and no button is pressed is lost at its
    62nd step, whatever the draws: up to 61 steps it is running, with the
    light of the start straight ahead, grown at the steps 1, 11, ..., 61 to
    the radius 43; from 62 steps on it is over and lost, with the clock at
    zero. *)
Theorem idle_game_lost_at_step_62 (ds : list Draws) :
  exists app',
    steps_run ds onAppStart = Ok app'
    /\ if (List.length ds <=? 61)%nat
       then idleAfter (Z.of_nat (List.length ds)) app'
            /\ outcome app' = Ongoing
       else outcome app' = Lost
            /\ Time.isUp (gameTime app') = true
            /\ lightRadius app' = 43.
Proof.
  destruct (Nat.leb_spec (List.length ds) 61) as [Hlen|Hlen].
  - destruct (idle_run ds 0 onAppStart) as (app' & Hrun & Hidle);
      [lia | lia | exact idleAfter_start |].
    exists app'. split; [exact Hrun|]. split; [exact Hidle|].
    destruct Hidle as (_ & _ & Hgo & _). unfold outcome. rewrite Hgo.
    reflexivity.
  - replace (steps_run ds onAppStart)
      with (steps_run (firstn 61 ds ++ skipn 61 ds) onAppStart)
      by (rewrite firstn_skipn; reflexivity).
    assert (L1 : List.length (firstn 61 ds) = 61%nat)
      by (apply firstn_length_le; lia).
    destruct (idle_run (firstn 61 ds) 0 onAppStart)
      as (app1 & Hrun & Hidle); [lia | lia | exact idleAfter_start |].
    rewrite L1 in Hidle. change (0 + Z.of_nat 61) with 61 in Hidle.
    destruct (skipn 61 ds) as [|d rest] eqn:Hrest.
    { apply (f_equal (@List.length Draws)) in Hrest.
      rewrite length_skipn in Hrest. cbn [List.length] in Hrest. lia. }
    rewrite steps_run_app, Hrun. cbn [bind steps_run].
    rewrite (idle_breach d app1 Hidle). cbn [bind].
    destruct Hidle as (_ & _ & _ & Hgw & _ & Hlr & _).
    change ((61 + 9) / 10) with 7 in Hlr.
    eexists. split.
    + apply lost_stays; [reflexivity | exact Hgw | reflexivity].
    + unfold outcome. app_fields. rewrite Hgw.
      split; [reflexivity|]. split; [reflexivity | exact Hlr].
Qed.

End Idle.

(** ** What holds in every state of a game *)

Section GameFacts.
Local Open Scope Z_scope.

(** X7: in every state of a game the tilt of the camera is between 4 and
    31: [wave] turns it round at both ends. *)
Theorem reachable_tilt_range (app : App) :
  reachable app -> 4 <= cameraTilt app <= 31.
Proof.
  intros Hr. destruct (reachable_gameInvariant app Hr) as (_ & Ht & _).
  unfold tiltInvariant in Ht. destruct (isTiltingUp app); lia.
Qed.

Lemma reachable_tilt_range_witness : 4 <= cameraTilt afterFirstStep <= 31.
Proof. apply (reachable_tilt_range afterFirstStep reachable_afterFirstStep). Defined.

(** X8: in every state of a game the light has grown [k] times, [k] from 0
    to 7: its radius is [8 + 5 k], at most 43, and its offset below the
    water line [2 k]; a dormant light has the radius 8 and no offset; an
    armed light is at an angle from -150 to -30. *)
Theorem reachable_light_growth (app : App) :
  reachable app ->
  (exists k, 0 <= k <= 7 /\ lightRadius app = 8 + 5 * k
             /\ lightPos app = 2 * k
             /\ (lightAngle app = None -> k = 0))
  /\ (forall l, lightAngle app = Some l -> -150 <= l <= -30).
Proof.
  intros Hr. destruct (reachable_gameInvariant app Hr) as (_ & _ & _ & Hl & _).
  exact Hl.
Qed.

Lemma reachable_light_growth_witness :
  (exists k, 0 <= k <= 7 /\ lightRadius afterFirstStep = 8 + 5 * k
             /\ lightPos afterFirstStep = 2 * k
             /\ (lightAngle afterFirstStep = None -> k = 0))
  /\ (forall l, lightAngle afterFirstStep = Some l -> -150 <= l <= -30).
Proof. apply (reachable_light_growth afterFirstStep reachable_afterFirstStep). Defined.

(** X9: in every state of a game a hit box belongs to an armed light, its
    centre is within the width of the screen, from 0 to 400, and at the
    height of the light, 171 plus the offset of the light. *)
Theorem reachable_hitBox_on_screen (app : App) (box : Vec2D.t) :
  reachable app -> hitBox app = Some box ->
  (exists l, lightAngle app = Some l)
  /\ (0 <= Vec2D.x box <= 400)%R
  /\ Vec2D.y box = IZR (171 + lightPos app).
Proof.
  intros Hr Hbox.
  destruct (reachable_gameInvariant app Hr) as (_ & _ & _ & _ & Hb & _).
  exact (Hb box Hbox).
Qed.

Lemma reachable_hitBox_on_screen_witness :
  (exists l, lightAngle afterFirstStep = Some l)
  /\ (0 <= Vec2D.x (Vec2D.mk 200 173) <= 400)%R
  /\ Vec2D.y (Vec2D.mk 200 173) = IZR (171 + lightPos afterFirstStep).
Proof.
  apply (reachable_hitBox_on_screen afterFirstStep (Vec2D.mk 200 173)).
  - exact reachable_afterFirstStep.
  - exact hitBox_afterFirstStep.
Defined.

(** X10: in every state of a game the clock has the speed 10 or 5, so that
    [count] divides by no zero, its minutes are between 0 and 100, its
    seconds are one of 0, 10, ..., 90, and its label is the minutes, a dot,
    the tens of the seconds and a zero. *)
Theorem reachable_clock_label (app : App) :
  reachable app ->
  (Time.speed (gameTime app) = 10 \/ Time.speed (gameTime app) = 5)
  /\ 0 <= Time.min (gameTime app) <= 100
  /\ exists j,
       0 <= j <= 9 /\ Time.sec (gameTime app) = 10 * j
       /\ Time.repr (gameTime app)
          = (Time.str (Time.min (gameTime app)) ++ "."
             ++ String (Time.digit j) "0")%string.
Proof.
  intros Hr.
  destruct (reachable_gameInvariant app Hr) as (_ & _ & Hk & _).
  unfold clockInvariant in Hk.
  assert (H : (Time.speed (gameTime app) = 10
               \/ Time.speed (gameTime app) = 5)
              /\ 0 <= Time.min (gameTime app) <= 100
              /\ exists j, 0 <= j <= 9 /\ Time.sec (gameTime app) = 10 * j).
  { destruct Hk as [(Hs & Hm & Hj) | (Hs & Hm & Hsec)].
    - auto.
    - split; [auto|]. split; [lia|]. exists 0. split; [lia | exact Hsec]. }
  destruct H as (Hs & Hm & j & Hj & Hsec).
  split; [exact Hs|]. split; [exact Hm|].
  exists j. split; [exact Hj|]. split; [exact Hsec|].
  unfold Time.repr. do 2 f_equal.
  pose proof repr_seconds_table as Htab.
  rewrite forallb_forall in Htab.
  specialize (Htab (Time.sec (gameTime app))).
  rewrite String.eqb_eq in Htab. rewrite Htab.
  - replace (Time.sec (gameTime app) / 10) with j
      by (rewrite Hsec; Z.div_mod_to_equations; lia).
    replace (Time.sec (gameTime app) mod 10) with 0
      by (rewrite Hsec; Z.div_mod_to_equations; lia).
    reflexivity.
  - apply in_map_iff. exists (Z.to_nat (Time.sec (gameTime app))).
    split; [lia|]. apply in_seq. lia.
Qed.

Lemma reachable_clock_label_witness :
  (Time.speed (gameTime onAppStart) = 10
   \/ Time.speed (gameTime onAppStart) = 5)
  /\ 0 <= Time.min (gameTime onAppStart) <= 100
  /\ exists j,
       0 <= j <= 9 /\ Time.sec (gameTime onAppStart) = 10 * j
       /\ Time.repr (gameTime onAppStart)
          = (Time.str (Time.min (gameTime onAppStart)) ++ "."
             ++ String (Time.digit j) "0")%string.
Proof. apply (reachable_clock_label onAppStart reachable_start). Defined.

End GameFacts.

(** ** The view in every state of a game *)

Section ViewFacts.
Local Open Scope R_scope.

(** X11: in every state of a game the direction of the player points up the
    screen and its angle is strictly between -135 and -45 degrees, however
    the keys were pressed. *)
Theorem reachable_facing_range (app : App) :
  reachable app ->
  Vec2D.y (playerDir app) < 0
  /\ -135 < Vec2D.getAngle (playerDir app) < -45.
Proof.
  intros Hr.
  destruct (reachable_gameInvariant app Hr) as (_ & _ & _ & _ & _ & Hd).
  unfold dirInvariant in Hd. destruct (playerDir app) as [x y].
  cbn [Vec2D.x Vec2D.y] in *. destruct Hd as (Hy & Hlo & Hhi).
  split; [exact Hy|]. apply slope_facing_range; assumption.
Qed.

Lemma reachable_facing_range_witness :
  Vec2D.y (playerDir facingLeft) < 0
  /\ -135 < Vec2D.getAngle (playerDir facingLeft) < -45.
Proof.
  apply (reachable_facing_range facingLeft).
  apply (reachable_event (KeyPress "left")
           (pressKeys ["left"; "left"]%string onAppStart));
    [|exact I | reflexivity].
  apply (reachable_event (KeyPress "left")
           (pressKeys ["left"]%string onAppStart));
    [|exact I | reflexivity].
  apply (reachable_event (KeyPress "left") onAppStart);
    [exact reachable_start | exact I | reflexivity].
Defined.

End ViewFacts.

(** ** The mouse and the restart *)

Section PressFacts.
Local Open Scope R_scope.

(** X13: in a running game with a hit box, a press of the mouse within 40
    of the centre of the box along both axes puts the light out, back to
    the radius 8 and the offset 0, and removes the box; a press further
    than 40 away along an axis changes nothing. *)
Theorem press_on_hit_box (mouseX mouseY : R) (app : App) (box : Vec2D.t) :
  reachable app -> gameOver app = false -> hitBox app = Some box ->
  (Rabs (mouseX - Vec2D.x box) <= 40 /\ Rabs (mouseY - Vec2D.y box) <= 40 ->
   onMousePress mouseX mouseY app = set_hitBox None (resetLight app))
  /\ (40 < Rabs (mouseX - Vec2D.x box) \/ 40 < Rabs (mouseY - Vec2D.y box) ->
      onMousePress mouseX mouseY app = app).
Proof.
  intros Hr Hgo Hbox.
  assert (Hsize : hitBoxSize app = 80%Z)
    by apply (reachable_gameInvariant app Hr).
  unfold onMousePress, checkHitBox. rewrite Hgo, Hbox, Hsize.
  cbn [negb]. change (80 / 2)%Z with 40%Z.
  unfold leR, Rabs.
  split.
  - intros [Hx Hy].
    destruct (Rcase_abs (mouseX - Vec2D.x box));
      destruct (Rcase_abs (mouseY - Vec2D.y box));
      repeat (destruct (Rle_dec _ _); [|lra]); reflexivity.
  - intros Hout.
    destruct (Rcase_abs (mouseX - Vec2D.x box));
      destruct (Rcase_abs (mouseY - Vec2D.y box));
      destruct (Rle_dec _ _); cbn [andb]; try reflexivity;
      destruct (Rle_dec _ _); cbn [andb]; try reflexivity;
      destruct (Rle_dec _ _); cbn [andb]; try reflexivity;
      destruct (Rle_dec _ _); cbn [andb]; try reflexivity;
      lra.
Qed.

Lemma press_on_hit_box_witness :
  (Rabs (200 - Vec2D.x (Vec2D.mk 200 173)) <= 40
   /\ Rabs (173 - Vec2D.y (Vec2D.mk 200 173)) <= 40 ->
   onMousePress 200 173 afterFirstStep
   = set_hitBox None (resetLight afterFirstStep))
  /\ (40 < Rabs (200 - Vec2D.x (Vec2D.mk 200 173))
      \/ 40 < Rabs (173 - Vec2D.y (Vec2D.mk 200 173)) ->
      onMousePress 200 173 afterFirstStep = afterFirstStep).
Proof.
  apply (press_on_hit_box 200 173 afterFirstStep (Vec2D.mk 200 173)).
  - exact reachable_afterFirstStep.
  - apply afterFirstStep_step.
  - exact hitBox_afterFirstStep.
Defined.

(** X15: the key ['r'] in a game that is over gives the state of the start
    of the program again, but for the tilt of the camera, the way it is
    moving and the switch of the hit box display, which stay as they are. *)
Theorem restart_restores_start (app : App) :
  reachable app -> gameOver app = true ->
  onKeyPress "r" app
  = set_isHitbox (isHitbox app)
      (set_isTiltingUp (isTiltingUp app)
         (set_cameraTilt (cameraTilt app) onAppStart)).
Proof.
  intros Hr Hgo.
  assert (Hc : constInvariant app) by apply (reachable_gameInvariant app Hr).
  unfold onKeyPress. cbv zeta.
  cbn [String.eqb Ascii.eqb Bool.eqb orb andb]. rewrite Hgo. cbn [andb].
  unfold constInvariant in Hc.
  app_destruct app. app_fields.
  destruct Hc as (-> & -> & -> & -> & -> & -> & -> & -> & _ & _ & _ & _ & _
                  & -> & ->).
  reflexivity.
Qed.

Lemma restart_restores_start_witness :
  onKeyPress "r" (onKeyPress "g" onAppStart)
  = set_isHitbox (isHitbox (onKeyPress "g" onAppStart))
      (set_isTiltingUp (isTiltingUp (onKeyPress "g" onAppStart))
         (set_cameraTilt (cameraTilt (onKeyPress "g" onAppStart))
            onAppStart)).
Proof.
  apply (restart_restores_start (onKeyPress "g" onAppStart)).
  - apply (reachable_event (KeyPress "g") onAppStart);
      [exact reachable_start | exact I | reflexivity].
  - reflexivity.
Defined.

End PressFacts.

(** ** The light on the screen *)

Section LightOnScreen.
Local Open Scope R_scope.

(** What the loop of [drawLight] draws. *)
Lemma lightCircles_spec (app : App) (startingAngle endingAngle : R)
  (rays : list nat) :
  endingAngle - startingAngle <> 0 ->
  exists circles,
    lightCircles app startingAngle endingAngle rays = Ok circles
    /\ (lightAngle app = None -> circles = [])
    /\ forall c, In c circles ->
         exists ray l,
           In ray rays /\ lightAngle app = Some l
           /\ int (startingAngle + INR ray * dAngle app) = l
           /\ circleX c
              = Rabs (startingAngle - (startingAngle + INR ray * dAngle app))
                / (endingAngle - startingAngle)
                * IZR (Screen.width (screen app))
           /\ circleY c = (waterLevel app + lightPos app)%Z
           /\ circleRadius c = lightRadius app.
Proof.
  intros Hd. induction rays as [|ray rays IH].
  - exists []. split; [reflexivity|]. split; [reflexivity|].
    intros c [].
  - destruct IH as (rest & Hrun & Hnone & Hall).
    cbn [lightCircles]. cbv zeta.
    destruct (lightAngle app) as [l|] eqn:Hl.
    + destruct (Z.eqb_spec (int (startingAngle + INR ray * dAngle app)) l)
        as [E|E].
      * rewrite (truediv_ok _ _ Hd). cbn [bind]. rewrite Hrun. cbn [bind].
        eexists. split; [reflexivity|]. split; [discriminate|].
        intros c [<- | Hin].
        -- exists ray, l. cbn [circleX circleY circleRadius].
           split; [left; reflexivity|]. auto.
        -- destruct (Hall c Hin) as (r & l' & Hr & Hrest).
           exists r, l'. split; [right; exact Hr | exact Hrest].
      * exists rest. split; [exact Hrun|]. split; [discriminate|].
        intros c Hin. destruct (Hall c Hin) as (r & l' & Hr & Hrest).
        exists r, l'. split; [right; exact Hr | exact Hrest].
    + exists rest. split; [exact Hrun|]. split; [exact Hnone|].
      intros c Hin. destruct (Hall c Hin) as (r & l' & Hr & Hrest).
      exists r, l'. split; [right; exact Hr | exact Hrest].
Qed.

(** X16: in every state of a game [drawLight] raises nothing and draws
    nothing for a dormant light; every circle it draws has the radius of
    the light, is at the height 171 plus the offset of the light, and its
    centre is on the screen, from 0 to below 400, at most one degree of the
    field of view to the left of the place where [fixBoxPosition] puts the
    centre of the hit box. *)
Theorem reachable_drawLight (app : App) :
  reachable app ->
  exists circles,
    drawLight app = Ok circles
    /\ (lightAngle app = None -> circles = [])
    /\ forall c, In c circles ->
         exists l,
           lightAngle app = Some l
           /\ (IZR l - 1 - (Vec2D.getAngle (playerDir app)
                            - playerFOV app / 2))
              / playerFOV app * 400 < circleX c
           /\ circleX c
              <= (IZR l - (Vec2D.getAngle (playerDir app)
                           - playerFOV app / 2))
                 / playerFOV app * 400
           /\ 0 <= circleX c < 400
           /\ circleY c = (171 + lightPos app)%Z
           /\ circleRadius c = lightRadius app.
Proof.
  intros Hr.
  pose proof (reachable_gameInvariant app Hr)
    as (Hc & _ & _ & _ & _ & Hd).
  destruct Hc as (Hscr & _ & _ & Hfov & Hda & Hwl & _).
  pose proof playerFOV_half_bounds as Hhalf. rewrite <- Hfov in Hhalf.
  unfold dirInvariant in Hd.
  assert (Hface : -135 < Vec2D.getAngle (playerDir app) < -45).
  { destruct (playerDir app) as [x y]. cbn [Vec2D.x Vec2D.y] in Hd.
    destruct Hd as (Hy & Hlo & Hhi). apply slope_facing_range; assumption. }
  unfold drawLight. cbv zeta.
  rewrite truediv_ok by (rewrite Hda; lra). cbn [bind].
  set (facing := Vec2D.getAngle (playerDir app)) in *.
  set (fov := playerFOV app) in *.
  set (q := fov / dAngle app).
  assert (Hqv : q = fov / 0.2) by (unfold q; rewrite Hda; reflexivity).
  assert (Hq : 0 <= q) by lra.
  pose proof (int_bounds q Hq) as [Hq0 Hq1].
  assert (Hn : (0 <= int q)%Z).
  { apply Z.lt_succ_r. apply lt_IZR. rewrite succ_IZR. lra. }
  destruct (lightCircles_spec app (facing - fov / 2) (facing + fov / 2)
              (seq 0 (Z.to_nat (int q))))
    as (circles & Hrun & Hnone & Hall); [lra|].
  exists circles. split; [exact Hrun|]. split; [exact Hnone|].
  intros c Hin.
  destruct (Hall c Hin) as (ray & l & Hray & Hl & Hint & Hx & Hy & Hrad).
  exists l. split; [exact Hl|].
  rewrite Hwl in Hy. rewrite Hscr in Hx. cbn [Screen.width] in Hx.
  rewrite Hda in Hx, Hint.
  apply in_seq in Hray.
  assert (Hr1 : INR ray + 1 <= IZR (int q)).
  { rewrite <- (Z2Nat.id (int q)) by exact Hn. rewrite <- INR_IZR_INZ.
    rewrite <- S_INR. apply le_INR. lia. }
  assert (H0 : 0 <= INR ray) by apply pos_INR.
  set (t := INR ray * 0.2) in *.
  assert (Ht : 0 <= t < fov) by (unfold t; lra).
  assert (Hneg : facing - fov / 2 + t < 0) by lra.
  unfold int in Hint.
  destruct (Rlt_dec (facing - fov / 2 + t) 0) as [_|Hc]; [|lra].
  pose proof (Zceil_bound (facing - fov / 2 + t)) as [Hc0 Hc1].
  rewrite Hint in Hc0, Hc1.
  replace (facing - fov / 2 - (facing - fov / 2 + t)) with (- t) in Hx by lra.
  rewrite Rabs_Ropp, Rabs_pos_eq in Hx by lra.
  replace (facing + fov / 2 - (facing - fov / 2)) with fov in Hx by lra.
  assert (Hi : 0 < / fov) by (apply Rinv_0_lt_compat; lra).
  assert (Hone : fov * / fov = 1) by (apply Rinv_r; lra).
  rewrite Hx. unfold Rdiv. set (i := / fov) in *.
  clearbody i t facing fov.
  repeat split; try assumption; nra.
Qed.

Lemma reachable_drawLight_witness :
  exists circles,
    drawLight onAppStart = Ok circles
    /\ (lightAngle onAppStart = None -> circles = [])
    /\ forall c, In c circles ->
         exists l,
           lightAngle onAppStart = Some l
           /\ (IZR l - 1 - (Vec2D.getAngle (playerDir onAppStart)
                            - playerFOV onAppStart / 2))
              / playerFOV onAppStart * 400 < circleX c
           /\ circleX c
              <= (IZR l - (Vec2D.getAngle (playerDir onAppStart)
                           - playerFOV onAppStart / 2))
                 / playerFOV onAppStart * 400
           /\ 0 <= circleX c < 400
           /\ circleY c = (171 + lightPos onAppStart)%Z
           /\ circleRadius c = lightRadius onAppStart.
Proof. apply (reachable_drawLight onAppStart reachable_start). Defined.

(** A ray whose angle truncates to the angle of the light gives a circle. *)
Lemma lightCircles_some (app : App) (startingAngle endingAngle : R)
  (rays : list nat) (ray : nat) (l : Z) :
  endingAngle - startingAngle <> 0 ->
  lightAngle app = Some l -> In ray rays ->
  int (startingAngle + INR ray * dAngle app) = l ->
  exists c circles,
    lightCircles app startingAngle endingAngle rays = Ok (c :: circles).
Proof.
  intros Hd Hl Hin Hint. induction rays as [|r rays IH]; [destruct Hin|].
  destruct (lightCircles_spec app startingAngle endingAngle rays Hd)
    as (rest & Hrun & _).
  cbn [lightCircles]. cbv zeta. rewrite Hl.
  destruct (Z.eqb_spec (int (startingAngle + INR r * dAngle app)) l)
    as [E|E].
  - rewrite (truediv_ok _ _ Hd). cbn [bind]. rewrite Hrun. cbn [bind].
    eexists _, _. reflexivity.
  - destruct Hin as [-> | Hin]; [contradiction|]. exact (IH Hin).
Qed.

(** X17: in every state of a game [drawLight] draws at least one circle for
    an armed light whose angle is inside the view cone and at least 0.4
    degrees from its right edge. *)
Theorem reachable_drawLight_in_view (app : App) (l : Z) :
  reachable app -> lightAngle app = Some l ->
  Vec2D.getAngle (playerDir app) - playerFOV app / 2 <= IZR l ->
  IZR l <= Vec2D.getAngle (playerDir app) + playerFOV app / 2 - 0.4 ->
  exists c circles, drawLight app = Ok (c :: circles).
Proof.
  intros Hr Hl Hleft Hright.
  pose proof (reachable_gameInvariant app Hr)
    as (Hc & _ & _ & _ & _ & Hd).
  destruct Hc as (_ & _ & _ & Hfov & Hda & _).
  pose proof playerFOV_half_bounds as Hhalf. rewrite <- Hfov in Hhalf.
  unfold dirInvariant in Hd.
  assert (Hface : -135 < Vec2D.getAngle (playerDir app) < -45).
  { destruct (playerDir app) as [x y]. cbn [Vec2D.x Vec2D.y] in Hd.
    destruct Hd as (Hy & Hlo & Hhi). apply slope_facing_range; assumption. }
  unfold drawLight. cbv zeta.
  rewrite truediv_ok by (rewrite Hda; lra). cbn [bind].
  set (facing := Vec2D.getAngle (playerDir app)) in *.
  set (fov := playerFOV app) in *.
  set (q := fov / dAngle app).
  assert (Hqv : q = fov / 0.2) by (unfold q; rewrite Hda; reflexivity).
  assert (Hq : 0 <= q) by lra.
  pose proof (int_bounds q Hq) as [Hq0 Hq1].
  set (p := (IZR l - (facing - fov / 2)) / 0.2).
  assert (Hpv : p = (IZR l - (facing - fov / 2)) / 0.2) by reflexivity.
  assert (Hp : 0 <= p) by lra.
  pose proof (int_bounds p Hp) as [Hp0 Hp1].
  assert (Hm : (0 <= int p)%Z).
  { apply Z.lt_succ_r. apply lt_IZR. rewrite succ_IZR. lra. }
  assert (Hmn : (int p < int q)%Z).
  { apply lt_IZR. lra. }
  apply (lightCircles_some app _ _ _ (Z.to_nat (int p)) l);
    [lra | exact Hl | apply in_seq; lia |].
  rewrite INR_IZR_INZ, Z2Nat.id by exact Hm. rewrite Hda.
  unfold int at 1.
  destruct (Rlt_dec (facing - fov / 2 + IZR (int p) * 0.2) 0) as [_|Hc];
    [|lra].
  apply Zceil_eq. lra.
Qed.

Lemma reachable_drawLight_in_view_witness :
  exists c circles, drawLight onAppStart = Ok (c :: circles).
Proof.
  apply (reachable_drawLight_in_view onAppStart (-90)).
  - exact reachable_start.
  - reflexivity.
  - rewrite getAngle_onAppStart. pose proof playerFOV_half_bounds. lra.
  - rewrite getAngle_onAppStart. pose proof playerFOV_half_bounds. lra.
Defined.

End LightOnScreen.

(** ** The distance of a ray in the reference map *)

Section NearestWall.
Local Open Scope R_scope.

Variable app : App.
Hypothesis app_map : map app = Map.init.
Variables (dX dY : R) (stepX : Z).
Hypothesis stepX_unit : stepX = 1%Z \/ stepX = (-1)%Z.
Hypothesis dX_pos : 0 < dX.
Hypothesis dY_pos : 0 < dY.

(** The loop stops at the nearer of the two walls ahead: it crosses a
    vertical grid line only while that one is strictly nearer than the next
    horizontal one. *)
Lemma castLoop_nearest (fuel : nat) : forall st : Cast,
  (1 <= mapX st <= 4)%Z -> (1 <= mapY st <= 5)%Z ->
  (stepX = 1%Z -> 3 <= mapX st)%Z -> (stepX = (-1)%Z -> mapX st <= 3)%Z ->
  sideDistX st
  = IZR (if (stepX =? 1)%Z then mapX st - 2 else 3 - mapX st) * dX ->
  sideDistY st = IZR (5 - mapY st) * dY ->
  (Z.to_nat ((if (stepX =? 1)%Z then 5 - mapX st else mapX st) + mapY st - 1)
   <= fuel)%nat ->
  exists st',
    castLoop fuel app Map.grid dX dY stepX (Some (-1)%Z) st = Some (Ok st')
    /\ ((side st' = 0%Z /\ sideDistX st' - dX = 2 * dX /\ 2 * dX < 4 * dY)
        \/ (side st' = 1%Z /\ sideDistY st' - dY = 4 * dY
            /\ 4 * dY <= 2 * dX)).
Proof.
  induction fuel as [|fuel IH];
    intros st Hx Hy Hr Hl HsX HsY Hfuel;
    destruct st as [mx my sx sy sd it];
    cbn [mapX mapY sideDistX sideDistY side iterations] in *.
  - destruct stepX_unit as [E | E]; rewrite E in Hfuel;
      cbn [Z.eqb Pos.eqb] in Hfuel;
      [specialize (Hr E) | specialize (Hl E)]; lia.
  - cbn [castLoop]. rewrite (loopCondition_open app app_map) by assumption.
    cbn [mapX mapY sideDistX sideDistY side iterations].
    assert (HjY : IZR (5 - my) <= 4) by (apply IZR_le; lia).
    assert (HjY0 : 0 <= IZR (5 - my)) by (apply IZR_le; lia).
    unfold ltR. destruct (Rlt_dec sx sy) as [Hlt | Hge].
    + (* a step along X *)
      destruct stepX_unit as [E | E]; rewrite E in *;
        cbn [Z.eqb Pos.eqb] in *;
        [specialize (Hr eq_refl) | specialize (Hl eq_refl)].
      * destruct (Z.eq_dec mx 4) as [-> | Hne].
        -- eexists.
           rewrite castLoop_stop
             by (apply (loopCondition_wall app app_map); lia).
           split; [reflexivity|].
           cbn [mapX mapY sideDistX sideDistY side iterations].
           left. split; [reflexivity|].
           rewrite HsX in *. replace (IZR (4 - 2)) with 2 in * by (cbn; lra).
           split; [lra|]. rewrite HsY in Hlt. nra.
        -- apply IH; cbn [mapX mapY sideDistX sideDistY side iterations];
             try lia.
           ++ rewrite HsX.
              replace (mx + 1 - 2)%Z with ((mx - 2) + 1)%Z by lia.
              rewrite plus_IZR. cbn [IZR IPR]. lra.
           ++ exact HsY.
      * destruct (Z.eq_dec mx 1) as [-> | Hne].
        -- eexists.
           rewrite castLoop_stop
             by (apply (loopCondition_wall app app_map); lia).
           split; [reflexivity|].
           cbn [mapX mapY sideDistX sideDistY side iterations].
           left. split; [reflexivity|].
           rewrite HsX in *. replace (IZR (3 - 1)) with 2 in * by (cbn; lra).
           split; [lra|]. rewrite HsY in Hlt. nra.
        -- apply IH; cbn [mapX mapY sideDistX sideDistY side iterations];
             try lia.
           ++ rewrite HsX.
              replace (3 - (mx + -1))%Z with ((3 - mx) + 1)%Z by lia.
              rewrite plus_IZR. cbn [IZR IPR]. lra.
           ++ exact HsY.
    + (* a step along Y *)
      destruct (Z.eq_dec my 1) as [-> | Hne].
      * eexists.
        rewrite castLoop_stop
          by (apply (loopCondition_wall app app_map); lia).
        split; [reflexivity|].
        cbn [mapX mapY sideDistX sideDistY side iterations].
        right. split; [reflexivity|].
        rewrite HsY in *. replace (IZR (5 - 1)) with 4 in * by (cbn; lra).
        split; [lra|].
        assert (HjX : IZR (if (stepX =? 1)%Z then mx - 2 else 3 - mx) <= 2).
        { apply IZR_le.
          destruct stepX_unit as [E | E]; rewrite E in *;
            cbn [Z.eqb Pos.eqb]; lia. }
        rewrite HsX in Hge. nra.
      * apply IH; cbn [mapX mapY sideDistX sideDistY side iterations];
          try lia.
        -- exact HsX.
        -- rewrite HsY.
           replace (5 - (my + -1))%Z with ((5 - my) + 1)%Z by lia.
           rewrite plus_IZR. cbn [IZR IPR]. lra.
Qed.

End NearestWall.

Section NearestWallRay.
Local Open Scope R_scope.

(** A ray that points up from the position of the player: which wall it
    meets. *)
Lemma game_ray_nearest (fuel : nat) (app : App) (angle : R) :
  map app = Map.init -> playerPos app = Vec2D.mk 3 5 ->
  sin (radians angle) < 0 -> (7 <= fuel)%nat ->
  let dX := if eqR (cos (radians angle)) 0 then 1e30
            else Rabs (1 / cos (radians angle)) in
  let dY := Rabs (1 / sin (radians angle)) in
  exists h,
    castRay fuel app Map.grid angle = Some (Ok h)
    /\ ((hitSide h = 0%Z /\ distance h = 2 * dX /\ 2 * dX < 4 * dY)
        \/ (hitSide h = 1%Z /\ distance h = 4 * dY /\ 4 * dY <= 2 * dX)).
Proof.
  intros Hmap Hpos Hsin Hfuel. unfold castRay, castDir.
  rewrite Hpos. cbn [Vec2D.x Vec2D.y]. rewrite !int_IZR.
  pose proof (deltaDist_pos (cos (radians angle))) as HdX.
  pose proof (deltaDist_pos (sin (radians angle))) as HdY.
  rewrite (eqR_false (sin (radians angle)) 0) in * by lra.
  set (dX := if eqR (cos (radians angle)) 0 then 1e30
             else Rabs (1 / cos (radians angle))) in *.
  set (dY := Rabs (1 / sin (radians angle))) in *.
  rewrite (ltR_true (sin (radians angle)) 0) by exact Hsin.
  assert (Hgen : forall sx sX0,
            sx = 1%Z \/ sx = (-1)%Z ->
            sX0 = IZR (if (sx =? 1)%Z then 3 - 2 else 3 - 3) * dX ->
            exists h,
              match castLoop fuel app Map.grid dX dY sx (Some (-1)%Z)
                      (mkCast 3 5 sX0 ((5 - 5) * dY) 0 O) with
              | None => None
              | Some (Raise e) => Some (Raise e)
              | Some (Ok st) =>
                  Some (Ok (mkHit
                    (if (side st =? 0)%Z then sideDistX st - dX
                     else sideDistY st - dY)
                    (side st) (mapX st) (mapY st) (iterations st)))
              end = Some (Ok h)
              /\ ((hitSide h = 0%Z /\ distance h = 2 * dX
                   /\ 2 * dX < 4 * dY)
                  \/ (hitSide h = 1%Z /\ distance h = 4 * dY
                      /\ 4 * dY <= 2 * dX))).
  { intros sx sX0 Hsx HsX0.
    destruct (castLoop_nearest app Hmap dX dY sx Hsx HdX HdY fuel
                (mkCast 3 5 sX0 ((5 - 5) * dY) 0 O))
      as (st' & Hrun & Hdist);
      cbn [mapX mapY sideDistX sideDistY side iterations]; try lia.
    - exact HsX0.
    - replace (IZR (5 - 5)) with 0 by (cbn; lra). lra.
    - destruct Hsx as [-> | ->]; cbn; lia.
    - rewrite Hrun. eexists. split; [reflexivity|].
      cbn [steps distance hitSide hitX hitY].
      destruct Hdist as [(Hs & Hd & Hlt) | (Hs & Hd & Hle)]; rewrite Hs;
        cbn [Z.eqb]; rewrite Hd; [left | right]; auto. }
  destruct (ltR (cos (radians angle)) 0).
  - apply (Hgen (-1)%Z); [auto|]. cbn [Z.eqb].
    replace (IZR (3 - 3)) with 0 by (cbn; lra). lra.
  - apply (Hgen 1%Z); [auto|]. cbn [Z.eqb Pos.eqb].
    replace (IZR (3 - 2)) with 1 by (cbn; lra). lra.
Qed.

(** X18: in the reference map the distance [fastCastRay] finds for a ray
    that points up from the position (3.0, 5.0) of the player is the
    distance along the ray to the nearer wall: the smaller of twice the
    step length along X, the side walls being two columns away, and four
    times the step length along Y, the top wall being four rows up. *)
Theorem game_ray_distance_nearest_wall (fuel : nat) (app : App) (angle : R) :
  map app = Map.init -> playerPos app = Vec2D.mk 3 5 ->
  sin (radians angle) < 0 -> (7 <= fuel)%nat ->
  exists h,
    castRay fuel app Map.grid angle = Some (Ok h)
    /\ distance h
       = Rmin (2 * (if eqR (cos (radians angle)) 0 then 1e30
                    else Rabs (1 / cos (radians angle))))
              (4 * Rabs (1 / sin (radians angle))).
Proof.
  intros Hmap Hpos Hsin Hfuel.
  destruct (game_ray_nearest fuel app angle Hmap Hpos Hsin Hfuel)
    as (h & Hray & Hd).
  exists h. split; [exact Hray|].
  destruct Hd as [(_ & -> & Hlt) | (_ & -> & Hle)].
  - rewrite Rmin_left by lra. reflexivity.
  - rewrite Rmin_right by lra. reflexivity.
Qed.

Lemma game_ray_distance_nearest_wall_witness :
  exists h,
    castRay 7 onAppStart Map.grid (-90) = Some (Ok h)
    /\ distance h
       = Rmin (2 * (if eqR (cos (radians (-90))) 0 then 1e30
                    else Rabs (1 / cos (radians (-90)))))
              (4 * Rabs (1 / sin (radians (-90)))).
Proof.
  apply (game_ray_distance_nearest_wall 7 onAppStart (-90)).
  - reflexivity.
  - exact playerPos_onAppStart.
  - destruct trig_minus_90 as [_ ->]. lra.
  - lia.
Defined.

End NearestWallRay.

(** ** The walls on the screen *)

Section WallsOnScreen.
Local Open Scope R_scope.

Lemma sin_PI36_gt : 0.0868 < sin (PI / 36).
Proof.
  pose proof PI_RGT_0 as Hpi. pose proof sin_PI18_bounds as [Hs _].
  assert (H2 : sin (PI / 18) = 2 * sin (PI / 36) * cos (PI / 36)).
  { rewrite <- sin_2a. f_equal. lra. }
  assert (H0 : 0 < sin (PI / 36)) by (apply sin_gt_0; lra).
  pose proof (COS_bound (PI / 36)) as [_ Hc].
  nra.
Qed.

(** The sine of an angle between -175 and -5 degrees. *)
Lemma sin_radians_bound (a : R) :
  -175 < a < -5 -> -1 <= sin (radians a) < -0.0868.
Proof.
  intros [H0 H1]. pose proof PI_RGT_0 as Hpi. pose proof sin_PI36_gt as Hs.
  split; [apply SIN_bound|].
  replace (radians a) with (- (- radians a)) by lra. rewrite sin_neg.
  assert (Hx : PI / 36 < - radians a < 35 * PI / 36)
    by (unfold radians; split; nra).
  set (x := - radians a) in *.
  assert (Hge : sin (PI / 36) <= sin x).
  { destruct (Rle_dec x (PI / 2)) as [Hle | Hgt].
    - apply sin_incr_1; lra.
    - rewrite <- (sin_PI_x x). apply sin_incr_1; lra. }
  lra.
Qed.

(** The step length along an axis is at least one cell. *)
Lemma deltaDist_ge_1 (d : R) :
  -1 <= d <= 1 -> 1 <= (if eqR d 0 then 1e30 else Rabs (1 / d)).
Proof.
  intros Hd. unfold eqR. destruct (Req_dec_T d 0) as [E|E]; [lra|].
  assert (Hm : Rabs (1 / d) * Rabs d = 1).
  { rewrite <- Rabs_mult. replace (1 / d * d) with 1 by (field; exact E).
    apply Rabs_R1. }
  assert (Hd0 : 0 < Rabs d) by (apply Rabs_pos_lt; exact E).
  assert (Hd1 : Rabs d <= 1) by (apply Rabs_le; lra).
  assert (H0 : 0 <= Rabs (1 / d)) by apply Rabs_pos.
  destruct (Rle_dec 1 (Rabs (1 / d))) as [H1|H1]; [exact H1 | nra].
Qed.

(** What [int] gives for a number between two integers. *)
Lemma int_range (r : R) (lo hi : Z) :
  0 <= r -> IZR lo <= r -> r <= IZR hi -> (lo <= int r <= hi)%Z.
Proof.
  intros H0 Hlo Hhi. pose proof (int_bounds r H0) as [Hb0 Hb1].
  split.
  - apply Z.lt_succ_r. apply lt_IZR. rewrite succ_IZR. lra.
  - apply le_IZR. lra.
Qed.

(** The sector of one ray of a game. *)
Lemma game_sector (fuel : nat) (app : App) (angle : R) :
  map app = Map.init -> playerPos app = Vec2D.mk 3 5 ->
  screen app = Screen.mk 400 400 -> dAngle app = 0.2 ->
  60 < playerFOV app < 80 ->
  -175 < angle < -5 -> (7 <= fuel)%nat ->
  exists sector,
    fastCastRay fuel app Map.grid angle = Some (Ok (Some sector))
    /\ sectorWidth sector = 2%Z
    /\ (19 <= sectorHeight sector <= 450)%Z
    /\ sectorLeft sector
       = Rabs (Vec2D.getAngle (playerDir app) - playerFOV app / 2 - angle)
         / playerFOV app * 400.
Proof.
  intros Hmap Hpos Hscr Hda Hfov Hang Hfuel.
  pose proof (sin_radians_bound angle Hang) as [Hs0 Hs1].
  destruct (game_ray_nearest fuel app angle Hmap Hpos) as (h & Hray & Hd);
    [lra | exact Hfuel |].
  cbv zeta in Hd.
  pose proof (deltaDist_ge_1 (cos (radians angle))
                (COS_bound (radians angle))) as HdX.
  set (dX := if eqR (cos (radians angle)) 0 then 1e30
             else Rabs (1 / cos (radians angle))) in *.
  assert (HdY : 1 <= Rabs (1 / sin (radians angle)) < 11.521).
  { set (s := sin (radians angle)) in *.
    assert (Hj : s * (1 / s) = 1) by (field; lra).
    assert (Hneg : 1 / s < 0).
    { unfold Rdiv. rewrite Rmult_1_l. apply Rinv_lt_0_compat. lra. }
    rewrite Rabs_left by exact Hneg. set (j := 1 / s) in *. nra. }
  set (dY := Rabs (1 / sin (radians angle))) in *.
  assert (Hdist : 2 <= distance h < 46.09).
  { destruct Hd as [(_ & -> & Hlt) | (_ & -> & Hle)]; lra. }
  clear Hd.
  assert (Hq : 19 <= 900 / distance h <= 450).
  { set (d := distance h) in *.
    assert (Hi : d * (1 / d) = 1) by (field; lra).
    assert (Hi0 : 0 < 1 / d).
    { unfold Rdiv. rewrite Rmult_1_l. apply Rinv_0_lt_compat. lra. }
    replace (900 / d) with (900 * (1 / d)) by (unfold Rdiv; lra).
    set (i := 1 / d) in *. nra. }
  pose proof (int_range (900 / distance h) 19 450) as Hh.
  specialize (Hh ltac:(lra) ltac:(lra) ltac:(lra)).
  assert (Hw : Zceil (0.2 / playerFOV app * 400) = 2%Z).
  { apply Zceil_eq. set (fov := playerFOV app) in *.
    assert (Hi : fov * (1 / fov) = 1) by (field; lra).
    assert (Hi0 : 0 < 1 / fov).
    { unfold Rdiv. rewrite Rmult_1_l. apply Rinv_0_lt_compat. lra. }
    replace (0.2 / fov * 400) with (80 * (1 / fov)) by (unfold Rdiv; lra).
    set (i := 1 / fov) in *. replace (IZR 2 - 1) with 1 by lra.
    split; nra. }
  unfold fastCastRay. rewrite Hray. unfold drawWall.
  rewrite truediv_ok by lra. cbn [bind].
  rewrite truediv_ok by lra. cbn [bind].
  rewrite Hscr, Hda. cbn [Screen.width Screen.height]. rewrite Hw.
  destruct (Z.eqb_spec (int (900 / distance h)) 0) as [E|E]; [lia|].
  cbn [Z.eqb negb andb].
  eexists. split; [reflexivity|].
  cbn [sectorWidth sectorHeight sectorLeft].
  split; [reflexivity|]. split; [exact Hh | reflexivity].
Qed.

(** The sectors of a sweep of rays between -175 and -5 degrees. *)
Lemma castRays_sectors (fuel : nat) (app : App) (start : R)
  (rays : list nat) :
  map app = Map.init -> playerPos app = Vec2D.mk 3 5 ->
  screen app = Screen.mk 400 400 -> dAngle app = 0.2 ->
  60 < playerFOV app < 80 -> (7 <= fuel)%nat ->
  start = Vec2D.getAngle (playerDir app) - playerFOV app / 2 ->
  Forall (fun ray => -175 < start + INR ray * 0.2 < -5
                     /\ 0 <= INR ray * 0.2 < playerFOV app) rays ->
  exists sectors,
    castRays fuel app Map.grid start rays = Some (Ok sectors)
    /\ List.length sectors = List.length rays
    /\ Forall (fun drawn =>
                 exists sector,
                   drawn = Some sector
                   /\ sectorWidth sector = 2%Z
                   /\ (19 <= sectorHeight sector <= 450)%Z
                   /\ 0 <= sectorLeft sector < 400) sectors.
Proof.
  intros Hmap Hpos Hscr Hda Hfov Hfuel Hstart Hall.
  induction rays as [|ray rays IH].
  - exists []. repeat split; constructor.
  - inversion Hall as [|? ? [Hang Ht] Hrest]; subst.
    destruct (IH Hrest) as (rest & Hrun & Hlen & Hsec).
    destruct (game_sector fuel app
                (Vec2D.getAngle (playerDir app) - playerFOV app / 2
                 + INR ray * 0.2)
                Hmap Hpos Hscr Hda Hfov Hang Hfuel)
      as (sector & Hcast & Hw & Hh & Hleft).
    exists (Some sector :: rest). cbn [castRays]. cbv zeta.
    rewrite Hda, Hcast, Hrun.
    split; [reflexivity|].
    split; [cbn [List.length]; rewrite Hlen; reflexivity|].
    constructor; [|exact Hsec].
    exists sector. split; [reflexivity|]. split; [exact Hw|].
    split; [exact Hh|]. rewrite Hleft.
    set (fov := playerFOV app) in *.
    set (facing := Vec2D.getAngle (playerDir app)) in *.
    set (t := INR ray * 0.2) in *.
    replace (facing - fov / 2 - (facing - fov / 2 + t)) with (- t) by lra.
    rewrite Rabs_Ropp, Rabs_pos_eq by lra.
    assert (Hi : fov * (1 / fov) = 1) by (field; lra).
    assert (Hi0 : 0 < 1 / fov).
    { unfold Rdiv. rewrite Rmult_1_l. apply Rinv_0_lt_compat. lra. }
    replace (t / fov * 400) with (t * (1 / fov) * 400)
      by (unfold Rdiv; rewrite Rmult_1_l; reflexivity).
    set (i := 1 / fov) in *. clearbody i t. split; nra.
Qed.

(** X12: in every state of a game [rayCast], called on the grid of the map
    as [redrawAll] does, raises nothing, and for every ray of its sweep
    [drawWall] hands [drawSector] a wall sector: 2 pixels wide, between 19
    and 450 pixels high, with its left edge on the screen, from 0 to below
    400. No ray ends in the exception of the branch of [fastCastRay] that
    leaves [stepY] unbound. *)
Theorem reachable_rayCast_sectors (fuel : nat) (app : App) :
  reachable app -> (7 <= fuel)%nat ->
  exists sectors,
    rayCast fuel app (Map.list (map app)) = Some (Ok sectors)
    /\ List.length sectors = Z.to_nat (int (playerFOV app / dAngle app))
    /\ Forall (fun drawn =>
                 exists sector,
                   drawn = Some sector
                   /\ sectorWidth sector = 2%Z
                   /\ (19 <= sectorHeight sector <= 450)%Z
                   /\ 0 <= sectorLeft sector < 400) sectors.
Proof.
  intros Hr Hfuel.
  pose proof (reachable_gameInvariant app Hr)
    as (Hc & _ & _ & _ & _ & Hd).
  destruct Hc as (Hscr & Hmap & Hpos & Hfov & Hda & _).
  rewrite playerPos_onAppStart in Hpos.
  pose proof playerFOV_half_bounds as Hhalf. rewrite <- Hfov in Hhalf.
  unfold dirInvariant in Hd.
  assert (Hface : -135 < Vec2D.getAngle (playerDir app) < -45).
  { destruct (playerDir app) as [x y]. cbn [Vec2D.x Vec2D.y] in Hd.
    destruct Hd as (Hy & Hlo & Hhi). apply slope_facing_range; assumption. }
  rewrite Hmap. change (Map.list Map.init) with Map.grid.
  unfold rayCast. rewrite truediv_ok by (rewrite Hda; lra).
  set (q := playerFOV app / dAngle app).
  assert (Hqv : q = playerFOV app / 0.2)
    by (unfold q; rewrite Hda; reflexivity).
  assert (Hq : 0 <= q) by lra.
  pose proof (int_bounds q Hq) as [Hq0 Hq1].
  assert (Hn : (0 <= int q)%Z).
  { apply Z.lt_succ_r. apply lt_IZR. rewrite succ_IZR. lra. }
  destruct (castRays_sectors fuel app
              (Vec2D.getAngle (playerDir app) - playerFOV app / 2)
              (seq 0 (Z.to_nat (int q))) Hmap Hpos Hscr Hda)
    as (sectors & Hrun & Hlen & Hsec);
    [lra | exact Hfuel | reflexivity | |].
  - apply Forall_forall. intros ray Hin. apply in_seq in Hin.
    assert (Hray : INR ray + 1 <= IZR (int q)).
    { rewrite <- (Z2Nat.id (int q)) by exact Hn. rewrite <- INR_IZR_INZ.
      rewrite <- S_INR. apply le_INR. lia. }
    assert (H0 : 0 <= INR ray) by apply pos_INR.
    lra.
  - exists sectors. split; [exact Hrun|]. split; [|exact Hsec].
    rewrite Hlen. apply length_seq.
Qed.

Lemma reachable_rayCast_sectors_witness :
  exists sectors,
    rayCast 7 onAppStart (Map.list (map onAppStart)) = Some (Ok sectors)
    /\ List.length sectors
       = Z.to_nat (int (playerFOV onAppStart / dAngle onAppStart))
    /\ Forall (fun drawn =>
                 exists sector,
                   drawn = Some sector
                   /\ sectorWidth sector = 2%Z
                   /\ (19 <= sectorHeight sector <= 450)%Z
                   /\ 0 <= sectorLeft sector < 400) sectors.
Proof.
  apply (reachable_rayCast_sectors 7 onAppStart);
    [exact reachable_start | lia].
Defined.

End WallsOnScreen.

(** ** Rotation: how far the direction gets *)

Section RotationBounds.
Local Open Scope R_scope.




















End RotationBounds.

(** ** One step: which outcome it gives *)

Section StepOutcome.
Local Open Scope Z_scope.

Ltac divlia := Z.div_mod_to_equations; lia.
















End StepOutcome.

(** ** A ray that leaves the grid *)

Section LeavingRay.
Local Open Scope R_scope.

Lemma int_half : int 0.5 = 0%Z.
Proof. apply int_nonneg; lra. Qed.

Lemma int_2_5 : int 2.5 = 2%Z.
Proof. apply int_nonneg; lra. Qed.

(** What [drawWall] hands to [drawSector] for a float that is not zero. *)
Lemma drawWall_sector (app : App) (d angle : R) :
  playerFOV app <> 0 -> d <> 0 ->
  Zceil (dAngle app / playerFOV app * IZR (Screen.width (screen app)))
  <> 0%Z ->
  int (900 / d) <> 0%Z ->
  drawWall app (Some d) angle
  = Ok (Some (mkSector
                (Rabs (Vec2D.getAngle (playerDir app) - playerFOV app / 2
                       - angle)
                 / playerFOV app * IZR (Screen.width (screen app)))
                (int (IZR (Screen.height (screen app)) / 2
                      - IZR (int (900 / d)) / 2) + cameraTilt app)
                (Zceil (dAngle app / playerFOV app
                        * IZR (Screen.width (screen app))))
                (int (900 / d))
                match lightAngle app with
                | Some l => (int angle =? l)%Z
                | None => false
                end)).
Proof.
  intros Hfov Hd Hw Hh. unfold drawWall.
  rewrite truediv_ok by exact Hfov. cbn [bind].
  rewrite truediv_ok by exact Hd. cbn [bind].
  apply Z.eqb_neq in Hw. apply Z.eqb_neq in Hh. rewrite Hw, Hh.
  reflexivity.
Qed.

Lemma playerDir_openColumn : playerDir openColumn = Vec2D.mk 0 (-1).
Proof.
  change (playerDir openColumn) with (Vec2D.mk 0.0 (-1.0)).
  f_equal; lra.
Qed.

(** On the map of three open cells the ray at -90 degrees from the lowest
    cell crosses the two cells above it and leaves the grid through the top
    after three executions of the loop body, 2.5 from the player. *)
Lemma castRay_openColumn :
  castRay 3 openColumn (Map.list (map openColumn)) (-90)
  = Some (Ok (mkHit 2.5 1 0 (-1) 3)).
Proof.
  unfold castRay. destruct trig_minus_90 as [-> ->]. unfold castDir.
  change (playerPos openColumn) with (Vec2D.mk 0.5 2.5).
  cbn [Vec2D.x Vec2D.y]. rewrite int_half, int_2_5, deltaDist_unit.
  rewrite (eqR_true 0 0) by reflexivity.
  rewrite (ltR_false 0 0) by lra. rewrite (ltR_true (-1) 0) by lra.
  rewrite (castLoop_stepY _ _ _ _ _ _ _ _ (-1)%Z eq_refl);
    [| reflexivity | cbn [sideDistX sideDistY]; lra].
  cbn [mapX mapY sideDistX sideDistY iterations Z.add Z.pos_sub Pos.pred_double].
  rewrite (castLoop_stepY _ _ _ _ _ _ _ _ (-1)%Z eq_refl);
    [| reflexivity | cbn [sideDistX sideDistY]; lra].
  cbn [mapX mapY sideDistX sideDistY iterations Z.add Z.pos_sub Pos.pred_double].
  rewrite (castLoop_stepY _ _ _ _ _ _ _ _ (-1)%Z eq_refl);
    [| reflexivity | cbn [sideDistX sideDistY]; lra].
  cbn [mapX mapY sideDistX sideDistY iterations Z.add Z.pos_sub Pos.pred_double].
  rewrite castLoop_stop by reflexivity.
  cbn [side mapX mapY sideDistX sideDistY iterations Z.eqb].
  do 2 f_equal. f_equal. lra.
Qed.

(** The sector [drawWall] hands to [drawSector] for that ray. *)
Lemma fastCastRay_openColumn :
  fastCastRay 3 openColumn (Map.list (map openColumn)) (-90)
  = Some (Ok (Some (mkSector 200 50 2 360 true))).
Proof.
  unfold fastCastRay. rewrite castRay_openColumn. cbn [distance].
  pose proof fov_value_bounds as [_ Hf1]. pose proof fov_value_gt_60 as Hf0.
  assert (Hh : int (900 / 2.5) = 360%Z).
  { replace (900 / 2.5) with (IZR 360) by lra. apply int_IZR. }
  assert (Hw : Zceil (dAngle openColumn / playerFOV openColumn
                      * IZR (Screen.width (screen openColumn))) = 2%Z).
  { rewrite playerFOV_openColumn.
    change (dAngle openColumn) with 0.2.
    change (Screen.width (screen openColumn)) with 400%Z.
    apply Zceil_eq. set (fov := degrees (2 * atan 0.66)) in *.
    assert (Hi : fov * (1 / fov) = 1) by (field; lra).
    assert (Hi0 : 0 < 1 / fov).
    { unfold Rdiv. rewrite Rmult_1_l. apply Rinv_0_lt_compat. lra. }
    replace (0.2 / fov * 400) with (80 * (1 / fov)) by (unfold Rdiv; lra).
    set (i := 1 / fov) in *. replace (IZR 2 - 1) with 1 by lra.
    split; nra. }
  rewrite drawWall_sector;
    [| rewrite playerFOV_openColumn; lra | lra | rewrite Hw; discriminate
     | rewrite Hh; discriminate].
  rewrite Hw, Hh, playerDir_openColumn, playerFOV_openColumn.
  rewrite (getAngle_up (-1)) by lra.
  change (Screen.width (screen openColumn)) with 400%Z.
  change (Screen.height (screen openColumn)) with 400%Z.
  change (cameraTilt openColumn) with 30%Z.
  change (lightAngle openColumn) with (Some (-90)%Z).
  set (fov := degrees (2 * atan 0.66)) in *.
  do 3 f_equal. f_equal.
  - replace (-90 - fov / 2 - -90) with (- (fov / 2)) by lra.
    rewrite Rabs_Ropp, Rabs_pos_eq by lra. field. lra.
  - replace (400 / 2 - 360 / 2) with (IZR 20) by lra.
    rewrite int_IZR. reflexivity.
  - rewrite int_IZR. reflexivity.
Qed.

(** C5: [fastCastRay] reports no 'no hit' outcome. On the map of three open
    cells, where no cell is occupied, the ray at -90 degrees leaves the grid
    through the top; [fastCastRay] hands [drawWall] the float 2.5, the
    side distance of the axis stepped last less its step, and [drawSector]
    draws the four rectangles of a wall 360 high for it. [drawWall] would
    draw nothing for a distance of [None], but never gets one. *)
Theorem fastCastRay_leaving_ray_draws_wall :
  Forall (Forall (fun c => c = 0%Z)) (Map.list (map openColumn))
  /\ castRay 3 openColumn (Map.list (map openColumn)) (-90)
     = Some (Ok (mkHit 2.5 1 0 (-1) 3))
  /\ leftGrid openColumn (mkHit 2.5 1 0 (-1) 3)
  /\ fastCastRay 3 openColumn (Map.list (map openColumn)) (-90)
     = Some (Ok (Some (mkSector 200 50 2 360 true)))
  /\ drawRay 3 openColumn (Map.list (map openColumn)) (-90)
     = Some (Ok [mkRect 200 0 2 171 "black";
                 mkRect 200 171 2 209 "blue";
                 mkRect 200 380 2 30 "darkgray";
                 mkRect 200 410 2 50 "brown"])
  /\ drawWall openColumn None (-90) = Ok None.
Proof.
  assert (Hdraw : drawRay 3 openColumn (Map.list (map openColumn)) (-90)
                  = Some (Ok [mkRect 200 0 2 171 "black";
                              mkRect 200 171 2 209 "blue";
                              mkRect 200 380 2 30 "darkgray";
                              mkRect 200 410 2 50 "brown"])).
  { unfold drawRay. rewrite fastCastRay_openColumn.
    unfold drawSector. cbn [sectorLeft sectorTop sectorWidth sectorHeight].
    change (waterLevel openColumn) with 171%Z. reflexivity. }
  split.
  { change (Map.list (map openColumn)) with [[0%Z]; [0%Z]; [0%Z]].
    repeat constructor. }
  split; [exact castRay_openColumn|].
  split; [unfold leftGrid; cbn [hitX hitY]; lia|].
  split; [exact fastCastRay_openColumn|].
  split; [exact Hdraw|].
  apply drawWall_None. rewrite playerFOV_openColumn.
  pose proof fov_value_bounds. lra.
Qed.

End LeavingRay.
